(** * Vividly: CalDAV synchronisation engine, store adapter and ICS codec

    A shallow embedding of the parts of the repository that the
    synchronisation contract is about:

    - [src/services/api.ts]      the event-store adapter (Supabase table [events]),
    - [src/services/caldav.ts]   the sync engine ([syncSelectedCalendars]),
    - the CalDAV proxy           ([deleteEvent], [parseICalEvent]),
    - [src/services/icsParser.ts] the ICS encoder ([serializeEventToICS]).

    Asynchronous code is written in a small state/exception/trace monad:
    the state is the [World] (the [events] table, [localStorage], the
    module-level [syncInFlight] flag), a rejected promise is [Thrown], and
    every adapter or network call leaves a [Call] in the trace.  Everything
    the code cannot control (network answers, store failures, the clock) is
    read from an [Env] oracle indexed by a logical time. *)

From Stdlib Require Import ZArith String Ascii List Bool Lia.
From stdpp Require Import base gmap strings list pretty.

Local Open Scope string_scope.
Local Open Scope Z_scope.
Local Open Scope list_scope.

(** ** JavaScript values *)

Module JS.

(** [s || ''] on a [string | null | undefined]. *)
Definition orEmpty (o : option string) : string :=
  match o with Some s => s | None => "" end.

(** Truthiness of a [string | null | undefined]: the empty string is falsy. *)
Definition truthy (o : option string) : option string :=
  match o with
  | Some s => if decide (s = "") then None else Some s
  | None => None
  end.

Definition is_truthy (o : option string) : bool :=
  match truthy o with Some _ => true | None => false end.

(** [s.replace(/\/+$/, '')]: drop every trailing slash. *)
Fixpoint stripTrailingSlashes (s : string) : string :=
  match s with
  | EmptyString => EmptyString
  | String c s' =>
      let r := stripTrailingSlashes s' in
      if decide (r = "" ∧ c = "/"%char) then "" else String c r
  end.

(** [s.endsWith(suffix)] *)
Definition endsWith (s suffix : string) : bool :=
  let n := String.length s in
  let k := String.length suffix in
  if (k <=? n)%nat then String.eqb (String.substring (n - k) k s) suffix else false.

End JS.

(** ** JavaScript dates

    A [Date] is its time value: milliseconds since the epoch, in UTC.  Local
    time is UTC shifted by a fixed offset (no daylight-saving changes). *)

Module JSDate.

Definition msPerDay : Z := 86400000.
Definition msPerMinute : Z := 60000.

Definition isLeap (y : Z) : bool :=
  ((y mod 4 =? 0) && negb (y mod 100 =? 0)) || (y mod 400 =? 0).

Definition daysInMonth (y m : Z) : Z :=
  if m =? 2 then (if isLeap y then 29 else 28)
  else if (m =? 4) || (m =? 6) || (m =? 9) || (m =? 11) then 30 else 31.

(** Day number (days since 1970-01-01) of the civil date [y]-[m]-[d],
    [m] counted from 1, in the proleptic Gregorian calendar. *)
Definition daysFromCivil (y m d : Z) : Z :=
  let y' := if m <=? 2 then y - 1 else y in
  let era := y' / 400 in
  let yoe := y' - era * 400 in
  let mp := if 2 <? m then m - 3 else m + 9 in
  let doy := (153 * mp + 2) / 5 + d - 1 in
  let doe := yoe * 365 + yoe / 4 - yoe / 100 + doy in
  era * 146097 + doe - 719468.

(** The civil date of a day number: [YearFromTime], [MonthFromTime]
    (counted from 1 here) and [DateFromTime]. *)
Definition civilFromDays (n : Z) : Z * Z * Z :=
  let z := n + 719468 in
  let era := z / 146097 in
  let doe := z - era * 146097 in
  let yoe := (doe - doe / 1460 + doe / 36524 - doe / 146096) / 365 in
  let doy := doe - (365 * yoe + yoe / 4 - yoe / 100) in
  let mp := (5 * doy + 2) / 153 in
  let d := doy - (153 * mp + 2) / 5 + 1 in
  let m := if mp <? 10 then mp + 3 else mp - 9 in
  let y := yoe + era * 400 in
  (if m <=? 2 then y + 1 else y, m, d).

(** [MakeDay(year, month, date)] with [month] counted from 0: months and
    days out of range carry over. *)
Definition MakeDay (year month date : Z) : Z :=
  let ym := year + month / 12 in
  let mn := month mod 12 in
  daysFromCivil ym (mn + 1) 1 + date - 1.

(** [Date.UTC(year, month, date, hours, minutes)], for [year] outside 0..99. *)
Definition UTC (year month date hours minutes : Z) : Z :=
  MakeDay year month date * msPerDay + hours * 3600000 + minutes * msPerMinute.

Definition Day (t : Z) : Z := t / msPerDay.
Definition TimeWithinDay (t : Z) : Z := t mod msPerDay.

Section Local.
Context (tz : Z).   (* minutes east of UTC *)

Definition LocalTime (t : Z) : Z := t + tz * msPerMinute.
Definition toUTC (t : Z) : Z := t - tz * msPerMinute.

Definition getFullYear (t : Z) : Z := (civilFromDays (Day (LocalTime t))).1.1.
Definition getMonth (t : Z) : Z := (civilFromDays (Day (LocalTime t))).1.2 - 1.
Definition getDate (t : Z) : Z := (civilFromDays (Day (LocalTime t))).2.
Definition getHours (t : Z) : Z := TimeWithinDay (LocalTime t) / 3600000.
Definition getMinutes (t : Z) : Z := (TimeWithinDay (LocalTime t) / msPerMinute) mod 60.
Definition getSeconds (t : Z) : Z := (TimeWithinDay (LocalTime t) / 1000) mod 60.

(** [d.setFullYear(y)] *)
Definition setFullYear (t : Z) (y : Z) : Z :=
  let l := LocalTime t in
  toUTC (MakeDay y (getMonth t) (getDate t) * msPerDay + TimeWithinDay l).

(** [d.setDate(n)] *)
Definition setDate (t : Z) (n : Z) : Z :=
  let l := LocalTime t in
  toUTC (MakeDay (getFullYear t) (getMonth t) n * msPerDay + TimeWithinDay l).
End Local.

Definition getUTCHours (t : Z) : Z := TimeWithinDay t / 3600000.
Definition getUTCMinutes (t : Z) : Z := (TimeWithinDay t / msPerMinute) mod 60.

End JSDate.

(** ** Data model *)

(** A row of the [events] table, with the column names of the store. *)
Record Row := mkRow {
  row_id : string;
  row_title : string;
  row_date : string;
  row_memo : option string;
  row_start_time : option string;
  row_end_time : option string;
  row_color : string;
  row_calendar_url : option string;
  row_caldav_uid : option string;
  row_source : option string;
}.

(** An event as the proxy returns it ([Omit<Event,'id'>] plus [uid]). *)
Record RemoteEvent := mkRemoteEvent {
  ev_uid : option string;
  ev_title : string;
  ev_date : string;
  ev_memo : option string;
  ev_startTime : option string;
  ev_endTime : option string;
  ev_color : string;
}.

Record CalDAVConfig := mkConfig {
  serverUrl : string;
  username : string;
  password : string;
}.

Record SyncCollectionResult := mkSyncResult {
  sr_events : list RemoteEvent;
  sr_syncToken : option string;
  sr_hasDeletions : bool;
}.

(** The [updates] object built by the engine for an existing event.  A field
    is [None] when the key is absent; [memo], [startTime] and [endTime] may be
    present with the value [null]. *)
Record Updates := mkUpdates {
  u_title : option string;
  u_date : option string;
  u_memo : option (option string);
  u_startTime : option (option string);
  u_endTime : option (option string);
  u_color : option string;
}.

#[global] Instance Row_eq_dec : EqDecision Row.
Proof. solve_decision. Defined.
#[global] Instance RemoteEvent_eq_dec : EqDecision RemoteEvent.
Proof. solve_decision. Defined.
#[global] Instance Updates_eq_dec : EqDecision Updates.
Proof. solve_decision. Defined.

(** ** The world, the oracle and the trace *)

Record World := mkWorld {
  events : list Row;                              (* table [events] *)
  localStorage : gmap string (gmap string string); (* sync-token maps, by storage key *)
  syncInFlight : bool;                            (* [let syncInFlight] of caldav.ts *)
  tick : nat;                                     (* logical time of the next oracle read *)
}.

Record Env := mkEnv {
  (* answer of the proxy to [syncCollection]; [None]: the call rejects *)
  net_syncCollection : nat → string → string → option SyncCollectionResult;
  (* answer of the proxy to [fetchEvents] for a window of two instants *)
  net_fetchEvents : nat → string → Z → Z → option (list RemoteEvent);
  (* answer of the proxy to [getSyncToken]; [None]: the call rejects *)
  net_getSyncToken : nat → string → option (option string);
  (* does the store query issued at this time come back with an error? *)
  db_error : nat → bool;
  (* primary key the store gives to a row inserted at this time *)
  db_new_id : nat → string;
  (* [Date.now()], milliseconds since the epoch *)
  clock : nat → Z;
  (* does [localStorage.setItem] throw at this time? *)
  storage_full : nat → bool;
  (* offset of local time from UTC, in minutes (east positive) *)
  tzOffset : Z;
}.

Inductive Call :=
| CFetchSyncCollection (url token : string) (ok : bool)
| CFetchCalendarEvents (url : string) (startDate endDate : Z) (ok : bool)
| CFetchSyncToken (url : string) (token : option string)
| CEventExistsByUID (uid url : string) (res : bool)
| CFetchEventByUID (uid url : string) (res : option Row)
| CUpdateEventByUID (uid url : string) (updates : Updates) (res : bool)
| CFindEventByDetails (ev : RemoteEvent) (url : string) (res : option string)
| CUpdateEventUID (id uid url : string) (res : bool)
| CCreateEvent (row : Row) (res : bool)
| CEventExists (ev : RemoteEvent) (url : string) (res : bool)
| CDeleteRemovedEvents (url : string) (uids : gset string) (evs : list RemoteEvent) (deleted : Z)
| CReadSyncTokens (key : string)
| CWriteSyncTokens (key : string) (ok : bool).

Inductive Outcome (A : Type) : Type :=
| Returned (a : A)
| Thrown (msg : string).
Arguments Returned {A} a.
Arguments Thrown {A} msg.

(** A computation: from a world to an outcome, a world and the calls made. *)
Definition M (A : Type) : Type := World → Outcome A * World * list Call.

Definition ret {A} (a : A) : M A := fun w => (Returned a, w, []).

Definition bind {A B} (m : M A) (k : A → M B) : M B :=
  fun w =>
    match m w with
    | (Returned a, w1, t1) =>
        match k a w1 with
        | (r, w2, t2) => (r, w2, t1 ++ t2)
        end
    | (Thrown e, w1, t1) => (Thrown e, w1, t1)
    end.

Definition throw {A} (msg : string) : M A := fun w => (Thrown msg, w, []).

(** [try { m } catch (e) { h e }] *)
Definition tryCatch {A} (m : M A) (h : string → M A) : M A :=
  fun w =>
    match m w with
    | (Returned a, w1, t1) => (Returned a, w1, t1)
    | (Thrown e, w1, t1) =>
        match h e w1 with
        | (r, w2, t2) => (r, w2, t1 ++ t2)
        end
    end.

(** [try { m } finally { f }], for a finaliser that neither throws nor returns. *)
Definition tryFinally {A} (m : M A) (f : World → World) : M A :=
  fun w =>
    match m w with
    | (r, w1, t1) => (r, f w1, t1)
    end.

Definition get : M World := fun w => (Returned w, w, []).
Definition modify (f : World → World) : M unit := fun w => (Returned tt, f w, []).
Definition emit (c : Call) : M unit := fun w => (Returned tt, w, [c]).

(** Read the logical time and advance it: one interaction with the outside. *)
Definition next : M nat :=
  fun w => (Returned (tick w),
            mkWorld (events w) (localStorage w) (syncInFlight w) (S (tick w)), []).

Definition setEvents (rows : list Row) (w : World) : World :=
  mkWorld rows (localStorage w) (syncInFlight w) (tick w).
Definition setStorage (s : gmap string (gmap string string)) (w : World) : World :=
  mkWorld (events w) s (syncInFlight w) (tick w).
Definition setInFlight (b : bool) (w : World) : World :=
  mkWorld (events w) (localStorage w) b (tick w).

#[global] Instance M_ret : MRet M := @ret.
#[global] Instance M_bind : MBind M := fun A B k m => bind m k.

(** Monadic left fold: a [for … of] loop threading its local variables. *)
Fixpoint foldM {A S} (f : S → A → M S) (l : list A) (s : S) : M S :=
  match l with
  | [] => ret s
  | a :: l' => s' ← f s a; foldM f l' s'
  end.

(** ** Event store adapter (api.ts) *)

Definition normalizeCalendarUrl (url : option string) : option string :=
  match JS.truthy url with
  | Some u => Some (JS.stripTrailingSlashes u)
  | None => url
  end.

(** The same on a [string] argument. *)
Definition normalizeUrl (url : string) : string :=
  JS.orEmpty (normalizeCalendarUrl (Some url)).

(** The [title|date|start|end] key of api.ts. *)
Definition eventKey (title date : string) (startTime endTime : option string) : string :=
  title +:+ "|" +:+ date +:+ "|" +:+ JS.orEmpty startTime +:+ "|" +:+ JS.orEmpty endTime.

Definition currentEventKeys (currentEvents : list RemoteEvent) : gset string :=
  list_to_set (map (fun e => eventKey (ev_title e) (ev_date e) (ev_startTime e) (ev_endTime e))
                   currentEvents).

(** [.in('calendar_url', urls).eq('source', 'caldav')] *)
Definition isCaldavRowOf (urls : list string) (r : Row) : bool :=
  match row_calendar_url r with
  | Some u => bool_decide (u ∈ urls)
  | None => false
  end && bool_decide (row_source r = Some "caldav").

Definition caldavRowsOf (urls : list string) (rows : list Row) : list Row :=
  List.filter (isCaldavRowOf urls) rows.

(** The URLs under which a calendar's rows may be stored: the normalised URL
    and, unless it is empty, the same with a trailing slash. *)
Definition calendarUrlVariants (calendarUrl : string) : list string :=
  let normalizedCalendarUrl := normalizeUrl calendarUrl in
  if decide (normalizedCalendarUrl = "") then [normalizedCalendarUrl]
  else [normalizedCalendarUrl; normalizedCalendarUrl +:+ "/"].

(** The body of the candidate loop of [deleteRemovedEvents]. *)
Definition shouldDelete (currentUids keys : gset string) (r : Row) : bool :=
  match JS.truthy (row_caldav_uid r) with
  | Some uid => negb (bool_decide (uid ∈ currentUids))
  | None =>
      negb (bool_decide
              (eventKey (row_title r) (row_date r) (row_start_time r) (row_end_time r) ∈ keys))
  end.

Definition toDelete (currentUids : gset string) (currentEvents : list RemoteEvent)
    (existingEvents : list Row) : list string :=
  map row_id (List.filter (shouldDelete currentUids (currentEventKeys currentEvents))
                          existingEvents).

(** [toDelete.slice(i, i + batchSize)] for [i = 0, batchSize, …]. *)
Fixpoint batchesFrom (fuel : nat) (batchSize : nat) (l : list string) : list (list string) :=
  match fuel with
  | O => []
  | S fuel' =>
      match l with
      | [] => []
      | _ => take batchSize l :: batchesFrom fuel' batchSize (drop batchSize l)
      end
  end.

Definition batches (batchSize : nat) (l : list string) : list (list string) :=
  batchesFrom (length l) batchSize l.

(** [.delete().in('id', batch)] *)
Definition deleteIds (batch : list string) (rows : list Row) : list Row :=
  List.filter (fun r => negb (bool_decide (row_id r ∈ batch))) rows.

(** The guard [existing.length >= 10 && toDelete.length > existing.length * 0.9].
    The product is an IEEE double in the source.  The double nearest to 0.9
    is 0.9·(1+δ) with 0 < δ < 2^-54, so for an array length [n] the rounded
    product is exactly [9n/10] when that is an integer and within 10^-6 of
    the real product otherwise; comparing it with the integer
    [toDelete.length] is therefore the exact comparison [10·d > 9·n]. *)
Definition runawayGuard (nExisting nToDelete : nat) : bool :=
  (10 <=? Z.of_nat nExisting) && (9 * Z.of_nat nExisting <? 10 * Z.of_nat nToDelete).

(** The warning threshold [existing.length >= 5 && toDelete.length > existing.length * 0.8];
    it only logs. *)
Definition warnThreshold (nExisting nToDelete : nat) : bool :=
  (5 <=? Z.of_nat nExisting) && (8 * Z.of_nat nExisting <? 10 * Z.of_nat nToDelete).

Section Adapter.
Context (env : Env).

(** One batch of the deletion loop: a failed batch is skipped. *)
Definition deleteBatch (deletedCount : Z) (batch : list string) : M Z :=
  t ← next;
  if db_error env t then mret deletedCount
  else
    modify (fun w => setEvents (deleteIds batch (events w)) w);;
    mret (deletedCount + Z.of_nat (length batch)).

Definition deleteRemovedEvents_body (calendarUrl : string) (currentUids : gset string)
    (currentEvents : list RemoteEvent) : M Z :=
  if decide (length currentEvents = 0%nat ∧ size currentUids = 0%nat) then mret 0
  else
    t ← next;
    w ← get;
    if db_error env t then mret 0
    else
      let existingEvents := caldavRowsOf (calendarUrlVariants calendarUrl) (events w) in
      if decide ((100 < length existingEvents)%nat
                 ∧ length currentEvents = 0%nat ∧ size currentUids = 0%nat) then mret 0
      else
        let ids := toDelete currentUids currentEvents existingEvents in
        if runawayGuard (length existingEvents) (length ids) then mret 0
        else
          if decide (0 < length ids)%nat
          then foldM deleteBatch (batches 50 ids) 0
          else mret 0.

Definition deleteRemovedEvents (calendarUrl : string) (currentUids : gset string)
    (currentEvents : list RemoteEvent) : M Z :=
  deleted ← deleteRemovedEvents_body calendarUrl currentUids currentEvents;
  emit (CDeleteRemovedEvents calendarUrl currentUids currentEvents deleted);;
  mret deleted.

(** [.eq('caldav_uid', uid).eq('calendar_url', url)] *)
Definition matchesUID (uid url : string) (r : Row) : bool :=
  bool_decide (row_caldav_uid r = Some uid) && bool_decide (row_calendar_url r = Some url).

Definition eventExistsByUID (uid calendarUrl : string) : M bool :=
  t ← next;
  w ← get;
  let res := if db_error env t then false
             else existsb (matchesUID uid (normalizeUrl calendarUrl)) (events w) in
  emit (CEventExistsByUID uid calendarUrl res);;
  mret res.

(** [maybeSingle()] without a limit: more than one row is an error of code
    PGRST116 with no data, which the adapter turns into [null]. *)
Definition maybeSingle (rows : list Row) : option Row :=
  match rows with
  | [r] => Some r
  | _ => None
  end.

Definition fetchEventByUID (uid calendarUrl : string) : M (option Row) :=
  t ← next;
  w ← get;
  let res := if db_error env t then None
             else maybeSingle (List.filter (matchesUID uid (normalizeUrl calendarUrl)) (events w)) in
  emit (CFetchEventByUID uid calendarUrl res);;
  mret res.

(** The payload of [updateEventByUID]: the five columns it copies from
    [updates]. *)
Definition applyPayload (u : Updates) (r : Row) : Row :=
  mkRow (row_id r)
        (default (row_title r) (u_title u))
        (default (row_date r) (u_date u))
        (default (row_memo r) (u_memo u))
        (default (row_start_time r) (u_startTime u))
        (default (row_end_time r) (u_endTime u))
        (row_color r) (row_calendar_url r) (row_caldav_uid r) (row_source r).

Definition updateWhere (p : Row → bool) (f : Row → Row) (rows : list Row) : list Row :=
  map (fun r => if p r then f r else r) rows.

Definition updateEventByUID (uid calendarUrl : string) (updates : Updates) : M bool :=
  t ← next;
  (if db_error env t then
     emit (CUpdateEventByUID uid calendarUrl updates false);; mret false
   else
     modify (fun w => setEvents (updateWhere (matchesUID uid (normalizeUrl calendarUrl))
                                              (applyPayload updates) (events w)) w);;
     emit (CUpdateEventByUID uid calendarUrl updates true);; mret true).

(** [findEventByDetails]: a legacy row without UID with the same title,
    date and times.  The times are compared with [.eq(column, value || null)];
    an [eq] filter never matches a [NULL] column, so an event without a
    start or an end time finds nothing. *)
Definition matchesDetails (event : RemoteEvent) (url : string) (r : Row) : bool :=
  bool_decide (row_title r = ev_title event)
  && bool_decide (row_date r = ev_date event)
  && match JS.truthy (ev_startTime event) with
     | Some s => bool_decide (row_start_time r = Some s) | None => false end
  && match JS.truthy (ev_endTime event) with
     | Some s => bool_decide (row_end_time r = Some s) | None => false end
  && bool_decide (row_calendar_url r = Some url)
  && bool_decide (row_source r = Some "caldav")
  && bool_decide (row_caldav_uid r = None).

Definition findEventByDetails (event : RemoteEvent) (calendarUrl : string) : M (option string) :=
  t ← next;
  w ← get;
  let res := if db_error env t then None
             else match List.filter (matchesDetails event (normalizeUrl calendarUrl)) (events w) with
                  | r :: _ => JS.truthy (Some (row_id r))
                  | [] => None
                  end in
  emit (CFindEventByDetails event calendarUrl res);;
  mret res.

Definition attachUID (uid url : string) (r : Row) : Row :=
  mkRow (row_id r) (row_title r) (row_date r) (row_memo r) (row_start_time r) (row_end_time r)
        (row_color r) (Some url) (Some uid) (Some "caldav").

Definition updateEventUID (eventId uid calendarUrl : string) : M bool :=
  t ← next;
  (if db_error env t then
     emit (CUpdateEventUID eventId uid calendarUrl false);; mret false
   else
     modify (fun w => setEvents (updateWhere (fun r => bool_decide (row_id r = eventId))
                                              (attachUID uid (normalizeUrl calendarUrl))
                                              (events w)) w);;
     emit (CUpdateEventUID eventId uid calendarUrl true);; mret true).

(** [createEvent]: the row that is inserted; [uid || caldavUid] and the
    normalised calendar URL are stored only when truthy, and the source
    defaults to ['manual']. *)
Definition newRow (id : string) (event : RemoteEvent) (caldavUid calendarUrl source : option string)
  : Row :=
  mkRow id (ev_title event) (ev_date event) (ev_memo event)
        (ev_startTime event) (ev_endTime event) (ev_color event)
        (JS.truthy (normalizeCalendarUrl (JS.truthy calendarUrl)))
        (match JS.truthy (ev_uid event) with
         | Some u => Some u
         | None => JS.truthy caldavUid
         end)
        (Some (default "manual" (JS.truthy source))).

Definition createEvent (event : RemoteEvent) (caldavUid calendarUrl source : option string)
  : M (option Row) :=
  t ← next;
  let row := newRow (db_new_id env t) event caldavUid calendarUrl source in
  (if db_error env t then
     emit (CCreateEvent row false);; mret None
   else
     modify (fun w => setEvents (events w ++ [row]) w);;
     emit (CCreateEvent row true);; mret (Some row)).

(** [eventExists]: the duplicate check for events without UID.  The filter
    [.in('source', [source, null])] compares with the texts [source] and
    ['null']. *)
Definition matchesEvent (event : RemoteEvent) (url : option string) (source : string) (r : Row)
  : bool :=
  bool_decide (row_title r = ev_title event)
  && bool_decide (row_date r = ev_date event)
  && (bool_decide (row_source r = Some source) || bool_decide (row_source r = Some "null"))
  && match JS.truthy (ev_startTime event) with
     | Some s => bool_decide (row_start_time r = Some s)
     | None => bool_decide (row_start_time r = None) end
  && match JS.truthy (ev_endTime event) with
     | Some s => bool_decide (row_end_time r = Some s)
     | None => bool_decide (row_end_time r = None) end
  && match JS.truthy url with
     | Some u => bool_decide (row_calendar_url r = Some u)
     | None => true end.

Definition eventExists (event : RemoteEvent) (calendarUrl : string) (source : string) : M bool :=
  t ← next;
  w ← get;
  let res := if db_error env t then false
             else existsb (matchesEvent event (normalizeCalendarUrl (Some calendarUrl)) source)
                          (events w) in
  emit (CEventExists event calendarUrl res);;
  mret res.

End Adapter.

(** ** Sync engine (caldav.ts) *)

Definition getSyncTokenStorageKey (config : CalDAVConfig) : string :=
  "caldavSyncTokens:" +:+ serverUrl config +:+ ":" +:+ username config.

(** The field-level diff of an existing row against a fetched event. *)
Definition computeUpdates (existing : Row) (event : RemoteEvent) : Updates :=
  mkUpdates
    (if decide (row_title existing = ev_title event) then None else Some (ev_title event))
    (if decide (row_date existing = ev_date event) then None else Some (ev_date event))
    (if decide (row_memo existing = ev_memo event) then None else Some (ev_memo event))
    (if decide (row_start_time existing = ev_startTime event) then None
     else Some (ev_startTime event))
    (if decide (row_end_time existing = ev_endTime event) then None
     else Some (ev_endTime event))
    (if decide (row_color existing = ev_color event) then None else Some (ev_color event)).

(** [Object.keys(updates).length > 0] *)
Definition hasUpdates (u : Updates) : bool :=
  bool_decide (is_Some (u_title u)) || bool_decide (is_Some (u_date u))
  || bool_decide (is_Some (u_memo u)) || bool_decide (is_Some (u_startTime u))
  || bool_decide (is_Some (u_endTime u)) || bool_decide (is_Some (u_color u)).

Definition withoutUid (event : RemoteEvent) : RemoteEvent :=
  mkRemoteEvent None (ev_title event) (ev_date event) (ev_memo event)
                (ev_startTime event) (ev_endTime event) (ev_color event).

(** The local variables of one calendar's pass. *)
Record PassState := mkPass {
  currentEventUids : gset string;
  calendarSyncedCount : Z;
  calendarSkippedCount : Z;
}.

Definition synced (s : PassState) : PassState :=
  mkPass (currentEventUids s) (calendarSyncedCount s + 1) (calendarSkippedCount s).
Definition skipped (s : PassState) : PassState :=
  mkPass (currentEventUids s) (calendarSyncedCount s) (calendarSkippedCount s + 1).
Definition seen (uid : string) (s : PassState) : PassState :=
  mkPass ({[uid]} ∪ currentEventUids s) (calendarSyncedCount s) (calendarSkippedCount s).

(** What one calendar's pass hands back to the loop over calendars. *)
Record CalendarResult := mkCalendarResult {
  cr_synced : Z;
  cr_skipped : Z;
  cr_deleted : Z;
  cr_tokens : gmap string string;
}.

(** The counters and the token map threaded through the loop over calendars. *)
Record Totals := mkTotals {
  syncedCount : Z;
  skippedCount : Z;
  deletedCount : Z;
  syncTokens : gmap string string;
}.

Section Engine.
Context (env : Env).

Definition fetchSyncCollection (config : CalDAVConfig) (calendarUrl syncToken : string)
  : M SyncCollectionResult :=
  t ← next;
  match net_syncCollection env t calendarUrl syncToken with
  | Some r => emit (CFetchSyncCollection calendarUrl syncToken true);; mret r
  | None => emit (CFetchSyncCollection calendarUrl syncToken false);;
            throw "Edge Function returned an error"
  end.

Definition fetchCalendarEvents (config : CalDAVConfig) (calendarUrl : string)
    (startDate endDate : Z) : M (list RemoteEvent) :=
  t ← next;
  match net_fetchEvents env t calendarUrl startDate endDate with
  | Some evs => emit (CFetchCalendarEvents calendarUrl startDate endDate true);; mret evs
  | None => emit (CFetchCalendarEvents calendarUrl startDate endDate false);;
            throw "이벤트를 가져올 수 없습니다."
  end.

(** [fetchSyncToken] catches every failure and answers [null]. *)
Definition fetchSyncToken (config : CalDAVConfig) (calendarUrl : string) : M (option string) :=
  t ← next;
  let res := match net_getSyncToken env t calendarUrl with
             | Some tok => JS.truthy tok
             | None => None
             end in
  emit (CFetchSyncToken calendarUrl res);;
  mret res.

Definition readSyncTokens (config : CalDAVConfig) : M (gmap string string) :=
  w ← get;
  emit (CReadSyncTokens (getSyncTokenStorageKey config));;
  mret (default ∅ (localStorage w !! getSyncTokenStorageKey config)).

Definition writeSyncTokens (config : CalDAVConfig) (tokens : gmap string string) : M unit :=
  t ← next;
  if storage_full env t then
    emit (CWriteSyncTokens (getSyncTokenStorageKey config) false);;
    throw "QuotaExceededError"
  else
    modify (fun w => setStorage (<[getSyncTokenStorageKey config := tokens]> (localStorage w)) w);;
    emit (CWriteSyncTokens (getSyncTokenStorageKey config) true).

(** [new Date()] *)
Definition newDate : M Z := t ← next; mret (clock env t).

(** The body of the loop over the fetched events. *)
Definition processEvent (calendarUrl : string) (s : PassState) (event : RemoteEvent)
  : M PassState :=
  match JS.truthy (ev_uid event) with
  | Some uid =>
      let s := seen uid s in
      exists_ ← eventExistsByUID env uid calendarUrl;
      if exists_ : bool then
        existing ← fetchEventByUID env uid calendarUrl;
        match existing with
        | Some existing =>
            let updates := computeUpdates existing event in
            if hasUpdates updates then
              updated ← updateEventByUID env uid calendarUrl updates;
              mret (if updated : bool then synced s else skipped s)
            else mret (skipped s)
        | None => mret (skipped s)
        end
      else
        existingEventId ← findEventByDetails env event calendarUrl;
        match existingEventId with
        | Some existingEventId =>
            updateEventUID env existingEventId uid calendarUrl;;
            mret (skipped s)
        | None =>
            result ← createEvent env (withoutUid event) (Some uid) (Some calendarUrl)
                                 (Some "caldav");
            mret (if result is Some _ then synced s else s)
        end
  | None =>
      exists_ ← eventExists env event calendarUrl "caldav";
      if exists_ : bool then mret (skipped s)
      else
        result ← createEvent env event None (Some calendarUrl) (Some "caldav");
        mret (if result is Some _ then synced s else s)
  end.

(** Strategy selection, first half: with a stored token, try the incremental
    [syncCollection]; a failure is caught and leaves [null]. *)
Definition attemptIncremental (config : CalDAVConfig) (syncTokens : gmap string string)
    (calendarUrl : string) : M (option SyncCollectionResult) :=
  match JS.truthy (syncTokens !! calendarUrl) with
  | Some token =>
      tryCatch (r ← fetchSyncCollection config calendarUrl token; mret (Some r))
               (fun _ => mret None)
  | None => mret None
  end.

(** [if (syncResult && syncResult.hasDeletions) syncResult = null] *)
Definition discardOnDeletions (syncResult : option SyncCollectionResult)
  : option SyncCollectionResult :=
  match syncResult with
  | Some r => if sr_hasDeletions r then None else Some r
  | None => None
  end.

(** The fallback: all events from one year back to one year forward. *)
Definition fullFetch (config : CalDAVConfig) (calendarUrl : string) : M (list RemoteEvent) :=
  fullStartDate ← newDate;
  let fullStartDate :=
    JSDate.setFullYear (tzOffset env) fullStartDate
                       (JSDate.getFullYear (tzOffset env) fullStartDate - 1) in
  fullEndDate ← newDate;
  let fullEndDate :=
    JSDate.setFullYear (tzOffset env) fullEndDate
                       (JSDate.getFullYear (tzOffset env) fullEndDate + 1) in
  fetchCalendarEvents config calendarUrl fullStartDate fullEndDate.

(** Token persistence at the end of a calendar's pass. *)
Definition nextSyncTokens (config : CalDAVConfig) (syncTokens : gmap string string)
    (calendarUrl : string) (syncResult : option SyncCollectionResult) (usedFullFetch : bool)
  : M (gmap string string) :=
  match syncResult ≫= (fun r => JS.truthy (sr_syncToken r)) with
  | Some tok => mret (<[calendarUrl := tok]> syncTokens)
  | None =>
      if usedFullFetch then
        nextToken ← fetchSyncToken config calendarUrl;
        mret (match nextToken with
              | Some tok => <[calendarUrl := tok]> syncTokens
              | None => syncTokens
              end)
      else mret syncTokens
  end.

(** The body of the loop over the selected calendars (inside its [try]). *)
Definition syncCalendar (config : CalDAVConfig) (syncTokens : gmap string string)
    (rawCalendarUrl : string) : M CalendarResult :=
  let calendarUrl := JS.stripTrailingSlashes rawCalendarUrl in
  syncResult ← attemptIncremental config syncTokens calendarUrl;
  let syncResult := discardOnDeletions syncResult in
  '(usedFullFetch, eventsToProcess) ←
    match syncResult with
    | Some r => mret (false, sr_events r)
    | None => evs ← fullFetch config calendarUrl; mret (true, evs)
    end;
  s ← foldM (processEvent calendarUrl) eventsToProcess (mkPass ∅ 0 0);
  deleted ← (if usedFullFetch : bool
             then deleteRemovedEvents env calendarUrl (currentEventUids s) eventsToProcess
             else mret 0);
  syncTokens ← nextSyncTokens config syncTokens calendarUrl syncResult usedFullFetch;
  mret (mkCalendarResult (calendarSyncedCount s) (calendarSkippedCount s) deleted syncTokens).

(** One iteration of the loop over calendars: a failure of the calendar is
    caught and logged, and the loop goes on. *)
Definition syncOne (config : CalDAVConfig) (acc : Totals) (rawCalendarUrl : string) : M Totals :=
  tryCatch
    (r ← syncCalendar config (syncTokens acc) rawCalendarUrl;
     mret (mkTotals (syncedCount acc + cr_synced r) (skippedCount acc + cr_skipped r)
                    (deletedCount acc + cr_deleted r) (cr_tokens r)))
    (fun _ => mret acc).

(** The [try] block of [syncSelectedCalendars]. *)
Definition syncPass (config : CalDAVConfig) (selectedCalendarUrls : list string) : M Z :=
  tokens ← readSyncTokens config;
  acc ← foldM (syncOne config) selectedCalendarUrls (mkTotals 0 0 0 tokens);
  writeSyncTokens config (syncTokens acc);;
  if 0 <? deletedCount acc then mret (-1) else mret (syncedCount acc).

Definition syncSelectedCalendars (config : CalDAVConfig) (selectedCalendarUrls : list string)
  : M Z :=
  w ← get;
  if syncInFlight w then mret 0
  else
    modify (setInFlight true);;
    tryFinally (syncPass config selectedCalendarUrls) (setInFlight false).

End Engine.

(** ** Text: the string operations and regular expressions of the codec

    Strings are sequences of code units below 128 (ASCII); a character
    outside that range is one opaque unit per byte of its UTF-8 form. *)

Module Text.

Definition CR : ascii := "013"%char.
Definition LF : ascii := "010"%char.
Definition CRLF : string := String CR (String LF "").

(** [\r] or [\n]: what neither [.] nor [[^\r\n]] matches. *)
Definition isLineBreak (c : ascii) : bool :=
  bool_decide (c = CR) || bool_decide (c = LF).

(** The white space that [trim] and [parseInt] skip. *)
Definition isSpace (c : ascii) : bool :=
  bool_decide (c = " "%char) || bool_decide (c = "009"%char) || bool_decide (c = LF)
  || bool_decide (c = "011"%char) || bool_decide (c = "012"%char) || bool_decide (c = CR).

Fixpoint trimStart (s : string) : string :=
  match s with
  | String c s' => if isSpace c then trimStart s' else s
  | EmptyString => EmptyString
  end.

Fixpoint trimEnd (s : string) : string :=
  match s with
  | String c s' =>
      match trimEnd s' with
      | EmptyString => if isSpace c then EmptyString else String c EmptyString
      | r => String c r
      end
  | EmptyString => EmptyString
  end.

(** [s.trim()] *)
Definition trim (s : string) : string := trimEnd (trimStart s).

(** [s.substring(i, j)] for [i <= j]. *)
Definition substring (i j : nat) (s : string) : string := String.substring i (j - i) s.

(** When [s] starts with [p], what follows [p]. *)
Fixpoint stripPrefix (p s : string) : option string :=
  match p, s with
  | EmptyString, _ => Some s
  | String a p', String b s' => if decide (a = b) then stripPrefix p' s' else None
  | String _ _, EmptyString => None
  end.

(** [[^\r\n]*], greedy: up to the end of the line. *)
Fixpoint restOfLine (s : string) : string :=
  match s with
  | String c s' => if isLineBreak c then EmptyString else String c (restOfLine s')
  | EmptyString => EmptyString
  end.

(** Is [s] at a fold: [\r?\n ] followed by a character of the line?  The
    number of characters of the line break. *)
Definition foldAt (s : string) : option nat :=
  match s with
  | String a (String b (String c (String d _))) =>
      if bool_decide (a = CR) && bool_decide (b = LF) && bool_decide (c = " "%char)
         && negb (isLineBreak d) then Some 3%nat
      else if bool_decide (a = LF) && bool_decide (b = " "%char) && negb (isLineBreak c)
      then Some 2%nat else None
  | String a (String b (String c EmptyString)) =>
      if bool_decide (a = LF) && bool_decide (b = " "%char) && negb (isLineBreak c)
      then Some 2%nat else None
  | _ => None
  end.

(** A line with its folded continuations: [[^\r\n]*] and then, as often
    as it matches, [\r?\n [^\r\n]+]. *)
Fixpoint logicalLine (fuel : nat) (s : string) : string :=
  match fuel with
  | O => EmptyString
  | S fuel' =>
      let l := restOfLine s in
      let r := String.substring (String.length l) (String.length s) s in
      match foldAt r with
      | Some k =>
          l +:+ String.substring 0 k r
            +:+ logicalLine fuel' (String.substring k (String.length r) r)
      | None => l
      end
  end.

Section Property.
(** The value captured after the colon: [restOfLine] for a single line,
    [logicalLine] when folds are followed; empty when nothing matches. *)
Context (capture : string → string).

(** [.*?:(capture)] after a semicolon: the first colon of the line with a
    value behind it. *)
Fixpoint lazyColon (s : string) : option string :=
  match s with
  | String c s' =>
      if isLineBreak c then None
      else if decide (c = ":"%char)
           then match capture s' with
                | EmptyString => lazyColon s'
                | v => Some v
                end
           else lazyColon s'
  | EmptyString => None
  end.

(** [(?:;.*?)?:(capture)] right after the property name. *)
Definition afterName (s : string) : option string :=
  match s with
  | String c s' =>
      if decide (c = ";"%char) then lazyColon s'
      else if decide (c = ":"%char)
           then match capture s' with
                | EmptyString => None
                | v => Some v
                end
           else None
  | EmptyString => None
  end.

(** An attempt to match [NAME(?:;.*?)?:(capture)] at the start of [text]. *)
Definition matchHere (name text : string) : option string :=
  stripPrefix name text ≫= afterName.

(** [text.match(/NAME(?:;.*?)?:(capture)/)]: the leftmost match. *)
Fixpoint matchProperty (name text : string) : option string :=
  match matchHere name text with
  | Some v => Some v
  | None =>
      match text with
      | String _ text' => matchProperty name text'
      | EmptyString => None
      end
  end.
End Property.

(** [/NAME(?:;.*?)?:([^\r\n]+)/] *)
Definition matchLine (name text : string) : option string :=
  matchProperty restOfLine name text.

(** The same with the value [[^\r\n]+] followed by any number of folded
    continuations [\r?\n [^\r\n]+] (the SUMMARY and DESCRIPTION patterns). *)
Definition matchFolded (name text : string) : option string :=
  matchProperty (fun s => match restOfLine s with
                          | EmptyString => EmptyString
                          | _ => logicalLine (String.length s) s
                          end) name text.

(** [s.replace(/\r?\n /g, '')] *)
Fixpoint unfoldLines (s : string) : string :=
  match s with
  | String a s1 =>
      match s1 with
      | String b s2 =>
          if bool_decide (a = LF) && bool_decide (b = " "%char) then unfoldLines s2
          else match s2 with
               | String c s3 =>
                   if bool_decide (a = CR) && bool_decide (b = LF) && bool_decide (c = " "%char)
                   then unfoldLines s3 else String a (unfoldLines s1)
               | EmptyString => String a (unfoldLines s1)
               end
      | EmptyString => s
      end
  | EmptyString => EmptyString
  end.

(** [s.replace('#', '')]: the first occurrence only. *)
Fixpoint dropFirstHash (s : string) : string :=
  match s with
  | String c s' => if decide (c = "#"%char) then s' else String c (dropFirstHash s')
  | EmptyString => EmptyString
  end.

(** Decimal digits. *)
Definition digitChar (k : Z) : ascii :=
  match k with
  | 0 => "0" | 1 => "1" | 2 => "2" | 3 => "3" | 4 => "4"
  | 5 => "5" | 6 => "6" | 7 => "7" | 8 => "8" | 9 => "9"
  | _ => "?"
  end%char.

Definition digitOf (c : ascii) : option Z :=
  if decide (c = "0"%char) then Some 0 else if decide (c = "1"%char) then Some 1
  else if decide (c = "2"%char) then Some 2 else if decide (c = "3"%char) then Some 3
  else if decide (c = "4"%char) then Some 4 else if decide (c = "5"%char) then Some 5
  else if decide (c = "6"%char) then Some 6 else if decide (c = "7"%char) then Some 7
  else if decide (c = "8"%char) then Some 8 else if decide (c = "9"%char) then Some 9
  else None.

(** [String(n).padStart(2, '0')] for [0 <= n < 100]. *)
Definition pad2 (n : Z) : string :=
  String (digitChar (n / 10)) (String (digitChar (n mod 10)) EmptyString).

(** Four decimal digits, for [0 <= n < 10000]. *)
Definition pad4 (n : Z) : string :=
  String (digitChar (n / 1000))
    (String (digitChar (n / 100 mod 10))
       (String (digitChar (n / 10 mod 10)) (String (digitChar (n mod 10)) EmptyString))).

(** The decimal digits at the head of [s], read onto [acc]. *)
Fixpoint readDigits (acc : Z) (s : string) : Z :=
  match s with
  | String c s' =>
      match digitOf c with
      | Some d => readDigits (10 * acc + d) s'
      | None => acc
      end
  | EmptyString => acc
  end.

(** [parseInt(s)] in base ten: white space, a sign, then digits; [None] is
    [NaN].  (A [0x] prefix, read as hexadecimal by JavaScript, yields [0]
    here as its leading zero is read; no date field of the codec has one.) *)
Definition parseInt (s : string) : option Z :=
  match trimStart s with
  | String c s' =>
      if decide (c = "-"%char) then
        match s' with
        | String d _ => if digitOf d is Some _ then Some (- readDigits 0 s') else None
        | EmptyString => None
        end
      else if decide (c = "+"%char) then
        match s' with
        | String d _ => if digitOf d is Some _ then Some (readDigits 0 s') else None
        | EmptyString => None
        end
      else if digitOf c is Some _ then Some (readDigits 0 (String c s')) else None
  | EmptyString => None
  end.

End Text.

(** ** ICS decoder: [parseICalEvent] of the CalDAV proxy *)

Module Decoder.
Import Text.

(** [Date.UTC(year, month, day, hour, minute)]; [None] is [NaN].  Years 0 to
    99 count from 1900, and a time value beyond 8.64e15 ms is no date. *)
Definition DateUTC (year month day hour minute : option Z) : option Z :=
  y ← year; m ← month; d ← day; h ← hour; mi ← minute;
  let t := JSDate.UTC (if (0 <=? y) && (y <=? 99) then 1900 + y else y) m d h mi in
  if (Z.abs t <=? 8640000000000000) then Some t else None.

Definition pad6 (n : Z) : string :=
  String (digitChar (n / 100000)) (String (digitChar (n / 10000 mod 10)) (pad4 (n mod 10000))).

(** [d.toISOString().split('T')[0]] of a valid date. *)
Definition toISODate (t : Z) : string :=
  let '(y, m, d) := JSDate.civilFromDays (JSDate.Day t) in
  (if (0 <=? y) && (y <=? 9999) then pad4 y
   else if y <? 0 then "-" +:+ pad6 (- y) else "+" +:+ pad6 y)
  +:+ "-" +:+ pad2 m +:+ "-" +:+ pad2 d.

(** [`${String(d.getUTCHours()).padStart(2,'0')}:${String(d.getUTCMinutes()).padStart(2,'0')}`] *)
Definition toClock (t : option Z) : string :=
  match t with
  | Some t => pad2 (JSDate.getUTCHours t) +:+ ":" +:+ pad2 (JSDate.getUTCMinutes t)
  | None => "NaN:NaN"
  end.

(** [s || '0'] *)
Definition orZero (s : string) : string := if decide (s = "") then "0" else s.

(** The date of a DTSTART or DTEND value, by its length: 8 characters are a
    date, 15 or more a date with a time; anything else is not parsed
    (outer [None]).  The inner option is the time value, [None] for an
    invalid date. *)
Definition parseStamp (v : string) : option (option Z) :=
  let year := parseInt (substring 0 4 v) in
  let month := (fun m => m - 1) <$> parseInt (substring 4 6 v) in
  let day := parseInt (substring 6 8 v) in
  if decide (String.length v = 8%nat) then
    Some (DateUTC year month day (Some 0) (Some 0))
  else if decide (15 ≤ String.length v)%nat then
    Some (DateUTC year month day (parseInt (orZero (substring 9 11 v)))
                  (parseInt (orZero (substring 11 13 v))))
  else None.

Definition parseICalEvent (icalData defaultColor : string) : option RemoteEvent :=
  let uidMatch := matchLine "UID" icalData in
  let summaryMatch := matchFolded "SUMMARY" icalData in
  let descriptionMatch := matchFolded "DESCRIPTION" icalData in
  let dtstartMatch := matchLine "DTSTART" icalData in
  let dtendMatch := matchLine "DTEND" icalData in
  let colorMatch := matchLine "X-APPLE-CALENDAR-COLOR" icalData in
  match dtstartMatch with
  | None => None
  | Some dtstartRaw =>
      let uid : option string := trim <$> uidMatch in
      let summary := from_option (fun v => trim (unfoldLines v)) "" summaryMatch in
      let description := from_option (fun v => trim (unfoldLines v)) "" descriptionMatch in
      let dtstart := trim dtstartRaw in
      let dtend := JS.truthy (trim <$> dtendMatch) in
      let color := match colorMatch with
                   | Some v => "#" +:+ dropFirstHash (trim v)
                   | None => defaultColor
                   end in
      match parseStamp dtstart with
      | None => None                              (* neither length: [return null] *)
      | Some None => None                         (* Invalid Date: [toISOString] throws *)
      | Some (Some startDate) =>
          let endDate : option (option Z) := dtend ≫= parseStamp in
          let startTime :=
            if decide (8 < String.length dtstart)%nat then Some (toClock (Some startDate))
            else None in
          let endTime :=
            match endDate, dtend with
            | Some endDate, Some dtend =>
                if decide (8 < String.length dtend)%nat then Some (toClock endDate) else None
            | _, _ => None
            end in
          Some (mkRemoteEvent uid summary (toISODate startDate)
                              (JS.truthy (Some description)) startTime endTime color)
      end
  end.

End Decoder.

(** ** ICS encoder: [serializeEventToICS] of icsParser.ts

    The encoder builds the text with the ical.js library.  [Module ICAL]
    states what the calls it makes do: [ICAL.Time.fromJSDate] reads the
    local fields of a date, a time flagged [isDate] prints as [VALUE=DATE],
    text values are escaped, and property lines are folded at 75 octets. *)

Module ICAL.
Import Text.

Record Time := mkTime {
  year : Z; month : Z; day : Z; hour : Z; minute : Z; second : Z;
  isDate : bool;
}.

(** [ICAL.Time.fromJSDate(d)], without [useUTC]: the fields of local time. *)
Definition fromJSDate (tz : Z) (t : Z) : Time :=
  mkTime (JSDate.getFullYear tz t) (JSDate.getMonth tz t + 1) (JSDate.getDate tz t)
         (JSDate.getHours tz t) (JSDate.getMinutes tz t) (JSDate.getSeconds tz t) false.

Definition asDate (t : Time) : Time :=
  mkTime (year t) (month t) (day t) (hour t) (minute t) (second t) true.

(** [String(year)]: four digits for the years 1000 to 9999. *)
Definition yearString (y : Z) : string :=
  if (1000 <=? y) && (y <=? 9999) then pad4 y else pretty y.

(** [time.toString()] of a local (floating) time. *)
Definition toString (t : Time) : string :=
  yearString (year t) +:+ "-" +:+ pad2 (month t) +:+ "-" +:+ pad2 (day t)
  +:+ (if isDate t then ""
       else "T" +:+ pad2 (hour t) +:+ ":" +:+ pad2 (minute t) +:+ ":" +:+ pad2 (second t)).

(** The [toICAL] of the value types [date-time] and [date]: the separators
    of a string of the expected length are dropped. *)
Definition dateTimeToICAL (s : string) : string :=
  if decide (19 ≤ String.length s)%nat then
    String.substring 0 4 s +:+ String.substring 5 2 s +:+ String.substring 8 5 s
    +:+ String.substring 14 2 s +:+ String.substring 17 2 s
    +:+ (if decide (String.get 19 s = Some "Z"%char) then "Z" else "")
  else s.

Definition dateToICAL (s : string) : string :=
  if decide (String.length s = 10%nat) then
    String.substring 0 4 s +:+ String.substring 5 2 s +:+ String.substring 8 2 s
  else if decide (19 ≤ String.length s)%nat then dateTimeToICAL s
  else s.

(** The value of a time property, with its [VALUE=DATE] parameter when the
    time is a date. *)
Definition timeProperty (name : string) (t : Time) : string :=
  if isDate t then name +:+ ";VALUE=DATE:" +:+ dateToICAL (toString t)
  else name +:+ ":" +:+ dateTimeToICAL (toString t).

(** Escaping of a TEXT value: backslash, semicolon, comma and line feed. *)
Fixpoint escapeText (s : string) : string :=
  match s with
  | String c s' =>
      if decide (c = "\"%char ∨ c = ";"%char ∨ c = ","%char)
      then String "\"%char (String c (escapeText s'))
      else if decide (c = LF) then String "\"%char (String "n"%char (escapeText s'))
      else String c (escapeText s')
  | EmptyString => EmptyString
  end.

(** [ICAL.helpers.foldline]: after 75 octets the line goes on, behind a
    line break and a space. *)
Fixpoint foldFrom (col : nat) (s : string) : string :=
  match s with
  | String c s' =>
      if (col <? 75)%nat then String c (foldFrom (S col) s')
      else CRLF +:+ String " "%char (String c (foldFrom 1 s'))
  | EmptyString => EmptyString
  end.

Definition foldline (s : string) : string := foldFrom 0 s.

Definition textProperty (name value : string) : string :=
  foldline (name +:+ ":" +:+ escapeText value).

End ICAL.

(** [Partial<Event>], the fields the encoder reads. *)
Record PartialEvent := mkPartialEvent {
  pe_title : option string;
  pe_memo : option string;
  pe_caldavUid : option string;
  pe_date : option string;
  pe_startTime : option string;
  pe_endTime : option string;
}.

Module Encoder.
Import Text.

Definition twoDigits (s : string) : option Z :=
  match s with
  | String a (String b EmptyString) =>
      x ← digitOf a; y ← digitOf b; Some (10 * x + y)
  | _ => None
  end.

(** The calendar date written [YYYY-MM-DD]; [None] for any other text. *)
Definition parseISODate (s : string) : option (Z * Z * Z) :=
  if decide (String.length s = 10%nat ∧ String.get 4 s = Some "-"%char
             ∧ String.get 7 s = Some "-"%char) then
    y1 ← twoDigits (String.substring 0 2 s);
    y2 ← twoDigits (String.substring 2 2 s);
    m ← twoDigits (String.substring 5 2 s);
    d ← twoDigits (String.substring 8 2 s);
    let y := 100 * y1 + y2 in
    if (1 <=? m) && (m <=? 12) && (1 <=? d) && (d <=? JSDate.daysInMonth y m)
    then Some (y, m, d) else None
  else None.

(** The clock time written [HH:mm] or [HH:mm:ss]. *)
Definition parseClock (s : string) : option (Z * Z * Z) :=
  h ← twoDigits (String.substring 0 2 s);
  mi ← twoDigits (String.substring 3 2 s);
  sec ← (if decide (String.length s = 5%nat) then Some 0
         else if decide (String.length s = 8%nat ∧ String.get 5 s = Some ":"%char)
              then twoDigits (String.substring 6 2 s) else None);
  if bool_decide (String.get 2 s = Some ":"%char)
     && (h <=? 23) && (mi <=? 59) && (sec <=? 59)
  then Some (h, mi, sec) else None.

(** [new Date(date)] for a date-only text: midnight UTC. *)
Definition newDateOnly (date : string) : option Z :=
  '(y, m, d) ← parseISODate date;
  Some (JSDate.UTC y (m - 1) d 0 0).

(** [new Date(`${date}T${time}`)]: that clock time in local time. *)
Definition newDateTime (tz : Z) (date time : string) : option Z :=
  '(y, m, d) ← parseISODate date;
  '(h, mi, sec) ← parseClock time;
  Some (JSDate.toUTC tz (JSDate.UTC y (m - 1) d h mi + sec * 1000)).

Definition joinLines (lines : list string) : string :=
  match lines with
  | [] => ""
  | l :: ls => foldl (fun acc x => acc +:+ CRLF +:+ x) l ls
  end.

(** The DTSTART and DTEND lines.  Outer [None]: the date or a clock time is
    not of the forms above, which this model does not cover. *)
Definition dateLines (tz : Z) (event : PartialEvent) : option (list string) :=
  match JS.truthy (pe_date event) with
  | None => Some []
  | Some date =>
      match JS.truthy (pe_startTime event), JS.truthy (pe_endTime event) with
      | Some startTime, Some endTime =>
          start ← newDateTime tz date startTime;
          end_ ← newDateTime tz date endTime;
          Some [ICAL.foldline (ICAL.timeProperty "DTSTART" (ICAL.fromJSDate tz start));
                ICAL.foldline (ICAL.timeProperty "DTEND" (ICAL.fromJSDate tz end_))]
      | _, _ =>
          start ← newDateOnly date;
          let nextDay := JSDate.setDate tz start (JSDate.getDate tz start + 1) in
          Some [ICAL.foldline (ICAL.timeProperty "DTSTART" (ICAL.asDate (ICAL.fromJSDate tz start)));
                ICAL.foldline (ICAL.timeProperty "DTEND" (ICAL.asDate (ICAL.fromJSDate tz nextDay)))]
      end
  end.

(** [serializeEventToICS(event)], on a host whose local time is [tz] minutes
    ahead of UTC, at the instant [now], with [generatedUid] standing for
    [`vividly-${Date.now()}-${random}`]. *)
Definition serializeEventToICS (tz now : Z) (generatedUid : string) (event : PartialEvent)
  : option string :=
  dates ← dateLines tz event;
  Some (joinLines
          (["BEGIN:VCALENDAR";
            ICAL.textProperty "PRODID" "-//Vividly App//KR";
            ICAL.textProperty "VERSION" "2.0";
            "BEGIN:VEVENT";
            ICAL.textProperty "SUMMARY" (default "새로운 일정" (JS.truthy (pe_title event)));
            ICAL.textProperty "DESCRIPTION" (JS.orEmpty (pe_memo event));
            ICAL.textProperty "UID" (default generatedUid (JS.truthy (pe_caldavUid event)))]
           ++ dates
           ++ [ICAL.foldline (ICAL.timeProperty "DTSTAMP" (ICAL.fromJSDate tz now));
               "END:VEVENT";
               "END:VCALENDAR"])).

End Encoder.

(** ** CalDAV proxy: [deleteEvent] *)

Module Proxy.

Record Request := mkRequest {
  req_method : string;
  req_url : string;
  req_headers : list (string * string);
}.

(** The outcome of [fetch]: the status of the response, or a rejection. *)
Inductive FetchResult :=
| Responded (status : Z)
| Rejected (reason : string).

(** [response.ok] *)
Definition ok (status : Z) : bool := (200 <=? status) && (status <=? 299).

Section DeleteEvent.
(** [base64Encode] is the proxy's wrapper of the built-in [btoa]; the remote
    server is whatever answers [fetch]. *)
Context (base64Encode : string → string) (fetch : Request → FetchResult).

(** The double quote around an entity tag. *)
Definition quote : ascii := "034"%char.

Definition resourceUrl (calendarUrl eventUid : string) : string :=
  let base := if JS.endsWith calendarUrl "/" then calendarUrl else calendarUrl +:+ "/" in
  let filename := if JS.endsWith eventUid ".ics" then eventUid else eventUid +:+ ".ics" in
  base +:+ filename.

Definition deleteRequest (username password calendarUrl eventUid : string) (etag : option string)
  : Request :=
  mkRequest "DELETE" (resourceUrl calendarUrl eventUid)
    ([("Authorization", "Basic " +:+ base64Encode (username +:+ ":" +:+ password));
      ("User-Agent", "Vividly/1.0")]
     ++ match JS.truthy etag with
        | Some etag => [("If-Match", String quote etag +:+ String quote EmptyString)]
        | None => []
        end).

(** [deleteEvent]: the requests it sends and how it ends, [Returned true]
    for [{ success: true }]. *)
Definition deleteEvent (serverUrl username password calendarUrl eventUid : string)
    (etag : option string) : list Request * Outcome bool :=
  let request := deleteRequest username password calendarUrl eventUid etag in
  ([request],
   match fetch request with
   | Rejected reason => Thrown reason
   | Responded status =>
       if negb (ok status) && negb (status =? 404)
       then Thrown ("DELETE request failed: " +:+ pretty status)
       else Returned true
   end).

End DeleteEvent.

(** A reference server to state idempotence against: a collection is a set
    of resource URLs; DELETE of a resource that is there removes it and
    answers 204, of one that is not answers 404. *)
Definition serve (resources : gset string) (r : Request) : FetchResult :=
  if decide (req_url r ∈ resources) then Responded 204 else Responded 404.

Definition afterDelete (resources : gset string) (r : Request) : gset string :=
  resources ∖ {[req_url r]}.

End Proxy.

(** ** The events of the round trip *)

Module Canonical.
Import Text.

(** Every character of [s] satisfies [p]. *)
Fixpoint allChars (p : ascii → bool) (s : string) : bool :=
  match s with
  | String c s' => p c && allChars p s'
  | EmptyString => true
  end.

Definition notColon (c : ascii) : bool := negb (bool_decide (c = ":"%char)).

(** A text without colon. *)
Definition freeOfColon (s : string) : bool := allChars notColon s.

(** A character a UID may be written with: no line break, no colon, and
    none of the characters the encoder escapes. *)
Definition uidChar (c : ascii) : bool :=
  negb (isLineBreak c) && notColon c
  && negb (bool_decide (c = "\"%char)) && negb (bool_decide (c = ";"%char))
  && negb (bool_decide (c = ","%char)).

(** A UID that fits one unfolded line ([UID:] and 71 characters), of such
    characters, without white space around it. *)
Definition plainUid (uid : string) : bool :=
  negb (bool_decide (uid = ""))
  && bool_decide (String.length uid ≤ 71)%nat
  && allChars uidChar uid
  && bool_decide (trim uid = uid).

(** The date [y]-[m]-[d] written [YYYY-MM-DD], and the clock time [HH:mm]. *)
Definition isoDate (y m d : Z) : string := pad4 y +:+ "-" +:+ pad2 m +:+ "-" +:+ pad2 d.
Definition clockText (hm : Z * Z) : string := pad2 hm.1 +:+ ":" +:+ pad2 hm.2.

Definition validDate (y m d : Z) : Prop :=
  1000 ≤ y ≤ 9999 ∧ 1 ≤ m ≤ 12 ∧ 1 ≤ d ≤ JSDate.daysInMonth y m.

Definition validClock (hm : Z * Z) : Prop := 0 ≤ hm.1 ≤ 23 ∧ 0 ≤ hm.2 ≤ 59.

(** An event with a UID and a calendar date; each of its clock times is
    there or not. *)
Definition event (title memo : option string) (uid : string) (y m d : Z)
    (startTime endTime : option (Z * Z)) : PartialEvent :=
  mkPartialEvent title memo (Some uid) (Some (isoDate y m d))
                 (clockText <$> startTime) (clockText <$> endTime).

End Canonical.

(** ** The encoded text, and the events it is read back from

    Vocabulary of the round-trip properties: the shape of the text the
    encoder writes, and the texts in which the decoder's patterns find
    nothing before the property lines. *)

Module Codec.
Import Text Canonical JSDate.

(** A property name: capital letters, digits and hyphens (no line break,
    no separator). *)
Definition nameChar (c : ascii) : bool :=
  negb (isLineBreak c) && negb (bool_decide (c = ":"%char)) && negb (bool_decide (c = ";"%char)).

(** The name and the text differ before either ends. *)
Fixpoint clash (name S : string) : bool :=
  match name, S with
  | String a name', String b S' => if decide (a = b) then clash name' S' else true
  | _, _ => false
  end.

(** No attempt that starts inside [P] can read the name. *)
Fixpoint noStart (name P : string) : bool :=
  match P with
  | String _ P' => clash name P && noStart name P'
  | EmptyString => true
  end.

(** The month counted from March, as [daysFromCivil] counts it. *)
Definition mpOf (m : Z) : Z := if 2 <? m then m - 3 else m + 9.

(** The day after a civil date. *)
Definition nextCivil (y m d : Z) : Z * Z * Z :=
  if d <? daysInMonth y m then (y, m, d + 1)
  else if m <? 12 then (y, m + 1, 1) else (y + 1, 1, 1).

(** A digit is no white space, no line break, no sign and no separator. *)
Definition digitLike (c : ascii) : bool :=
  negb (isSpace c) && negb (isLineBreak c) && notColon c
  && negb (bool_decide (c = "-"%char)) && negb (bool_decide (c = "+"%char)).

(** The date token [YYYYMMDD] and the date-time token [YYYYMMDDTHHMMSS]. *)
Definition dateToken (y m d : Z) : string := pad4 y +:+ pad2 m +:+ pad2 d.
Definition dateTimeToken (y m d h mi : Z) : string :=
  pad4 y +:+ pad2 m +:+ pad2 d +:+ "T" +:+ pad2 h +:+ pad2 mi +:+ pad2 0.

(** Tokens are written with digits and the letter T. *)
Definition tokenChar (c : ascii) : bool :=
  negb (isSpace c) && negb (isLineBreak c) && notColon c.

(** The lines above the value of the summary. *)
Definition prelude : string :=
  "BEGIN:VCALENDAR" +:+ CRLF +:+ "PRODID:-//Vividly App//KR" +:+ CRLF +:+ "VERSION:2.0"
  +:+ CRLF +:+ "BEGIN:VEVENT" +:+ CRLF +:+ "SUMMARY:".

(** The text with the summary [B1] and the description [B2] as they are
    written (escaped and folded), up to the line after DTEND. *)
Definition encodedText (B1 B2 uid startLine endLine tail : string) : string :=
  prelude +:+ B1 +:+ CRLF +:+ "DESCRIPTION:" +:+ B2 +:+ CRLF +:+ "UID:" +:+ uid +:+ CRLF
  +:+ startLine +:+ CRLF +:+ endLine +:+ CRLF +:+ tail.

(** A character of a property name that neither escaping nor folding
    writes. *)
Definition wordChar (c : ascii) : bool :=
  nameChar c && negb (bool_decide (c = " "%char)) && negb (bool_decide (c = "\"%char))
  && negb (bool_decide (c = ","%char)) && negb (bool_decide (c = "n"%char)).

(** No colon comes after an occurrence of [name] in [s]. *)
Fixpoint quiet (name s : string) : bool :=
  from_option freeOfColon true (stripPrefix name s)
  && match s with
     | String _ s' => quiet name s'
     | EmptyString => true
     end.

(** A title or memo in which no colon comes after the text UID, DTSTART or
    DTEND. *)
Definition plainText (s : string) : bool :=
  quiet "UID" s && quiet "DTSTART" s && quiet "DTEND" s.

(** The summary and the description as they are written: escaped, and
    folded behind [SUMMARY:] and [DESCRIPTION:]. *)
Definition writtenTitle (title : option string) : string :=
  ICAL.foldFrom 8 (ICAL.escapeText (default "새로운 일정" (JS.truthy title))).

Definition writtenMemo (memo : option string) : string :=
  ICAL.foldFrom 12 (ICAL.escapeText (JS.orEmpty memo)).

(** [parseICalEvent(serializeEventToICS(event))]: the event the decoder
    reads in the text the encoder writes. *)
Definition roundTrip (tz now : Z) (generatedUid defaultColor : string) (e : PartialEvent)
  : option RemoteEvent :=
  Encoder.serializeEventToICS tz now generatedUid e
    ≫= fun text => Decoder.parseICalEvent text defaultColor.

End Codec.

(** ** A program logic for the monad *)

(** [hoare P m Q E]: from a world in [P], [m] ends in a world in [Q a] when
    it returns [a], and in a world in [E] when it throws. *)
Definition hoare {A} (P : World → Prop) (m : M A) (Q : A → World → Prop) (E : World → Prop)
  : Prop :=
  ∀ w, P w → match m w with
             | (Returned a, w', _) => Q a w'
             | (Thrown _, w', _) => E w'
             end.

(** A row the user made by hand: it has no CalDAV UID and its source is
    not ['caldav']. *)
Definition isLocalRow (r : Row) : bool :=
  bool_decide (row_caldav_uid r = None) && negb (bool_decide (row_source r = Some "caldav")).

Definition localRows (rows : list Row) : list Row := List.filter isLocalRow rows.

(** The rows made by hand are [L], and no other row bears the id of one. *)
Definition localRowsAre (L : list Row) (w : World) : Prop :=
  localRows (events w) = L
  ∧ ∀ r, In r (events w) → isLocalRow r = false → ¬ In (row_id r) (map row_id L).

(** The sync tokens stored for a configuration: what [readSyncTokens]
    answers. *)
Definition storedTokens (config : CalDAVConfig) (w : World) : gmap string string :=
  default ∅ (localStorage w !! getSyncTokenStorageKey config).

(** [localStorage] holds [S0]. *)
Definition storageIs (S0 : gmap string (gmap string string)) (w : World) : Prop :=
  localStorage w = S0.

(** What a pass leaves in [localStorage]: under the key of the
    configuration a token map that agrees with the one found there outside
    the selected calendars, and under every other key what was there. *)
Definition tokensKept (S0 : gmap string (gmap string string)) (config : CalDAVConfig)
    (urls : list string) (w : World) : Prop :=
  (∀ k, ¬ In k (map JS.stripTrailingSlashes urls) →
        storedTokens config w !! k = default ∅ (S0 !! getSyncTokenStorageKey config) !! k)
  ∧ ∀ key, key ≠ getSyncTokenStorageKey config → localStorage w !! key = S0 !! key.

(** The store already holds the fetched event: under its UID when it has
    one, by its title, date and times when it has none. *)
Definition known (calendarUrl : string) (event : RemoteEvent) (rows : list Row) : bool :=
  match JS.truthy (ev_uid event) with
  | Some uid => existsb (matchesUID uid (normalizeUrl calendarUrl)) rows
  | None => existsb (matchesEvent event (normalizeCalendarUrl (Some calendarUrl)) "caldav") rows
  end.

Definition isCreateEvent (c : Call) : bool :=
  match c with CCreateEvent _ _ => true | _ => false end.

(** The world after one interaction with the outside. *)
Definition ticked (w : World) : World :=
  mkWorld (events w) (localStorage w) (syncInFlight w) (S (tick w)).

Definition foundByDetails (event : RemoteEvent) (url : string) (rows : list Row) : option string :=
  match List.filter (matchesDetails event (normalizeUrl url)) rows with
  | r :: _ => JS.truthy (Some (row_id r))
  | [] => None
  end.

(** The last character of a text is a slash. *)
Fixpoint endsInSlash (s : string) : bool :=
  match s with
  | String c EmptyString => bool_decide (c = "/"%char)
  | String _ s' => endsInSlash s'
  | EmptyString => false
  end.

(** The ids of the batches whose deletion the store carries out, from the
    logical time [t] on. *)
Fixpoint succeeded (env : Env) (t : nat) (bs : list (list string)) : list string :=
  match bs with
  | [] => []
  | b :: bs' => (if db_error env t then [] else b) ++ succeeded env (S t) bs'
  end.

(** ** [deleteDuplicateEvents] of api.ts *)

(** The key of a row in the set [seen]: the UID and the calendar when the
    row has a UID, else title, date, times, calendar and source. *)
Definition duplicateKey (r : Row) : string :=
  let normalizedCalendarUrl :=
    JS.orEmpty (normalizeCalendarUrl (JS.truthy (row_calendar_url r))) in
  let source := JS.orEmpty (row_source r) in
  match JS.truthy (row_caldav_uid r) with
  | Some uid => "uid|" +:+ uid +:+ "|" +:+ normalizedCalendarUrl
  | None =>
      let startTime := JS.orEmpty (row_start_time r) in
      let endTime := JS.orEmpty (row_end_time r) in
      "meta|" +:+ row_title r +:+ "|" +:+ row_date r +:+ "|" +:+ startTime +:+ "|" +:+ endTime
      +:+ "|" +:+ normalizedCalendarUrl +:+ "|" +:+ source
  end.

(** The loop over the fetched rows: the ids pushed onto [duplicates]. *)
Fixpoint findDuplicates (seen : gset string) (rows : list Row) : list string :=
  match rows with
  | [] => []
  | r :: rows' =>
      if decide (duplicateKey r ∈ seen) then row_id r :: findDuplicates seen rows'
      else findDuplicates ({[duplicateKey r]} ∪ seen) rows'
  end.

Section DeleteDuplicates.
(** [orderByDate] is the order in which the store hands out the rows for
    [.order('date', { ascending: true })]. *)
Context (env : Env) (orderByDate : list Row → list Row).

Definition deleteDuplicateEvents : M Z :=
  t ← next;
  w ← get;
  if db_error env t then mret 0
  else
    let duplicates := findDuplicates ∅ (orderByDate (events w)) in
    if decide (0 < length duplicates)%nat
    then foldM (deleteBatch env) (batches 50 duplicates) 0
    else mret 0.

End DeleteDuplicates.

(** The rows the loop does not push: the first row of each key. *)
Fixpoint firstOfEachKey (seen : gset string) (rows : list Row) : list Row :=
  match rows with
  | [] => []
  | r :: rows' =>
      if decide (duplicateKey r ∈ seen) then firstOfEachKey seen rows'
      else r :: firstOfEachKey ({[duplicateKey r]} ∪ seen) rows'
  end.

(** ** CalDAV proxy: [putEvent] *)

Module ProxyPut.
Import Proxy.

(** What [putEvent] reads in the response to its request: the status with
    its text, and the header [ETag]. *)
Record Response := mkResponse {
  res_status : Z;
  res_statusText : string;
  res_etag : option string;
}.

Inductive FetchResult :=
| Responded (r : Response)
| Rejected (reason : string).

(** [newEtag.replace(q, '')] where [q] is the pattern of the double quote
    with the flag [g]: every double quote is dropped. *)
Fixpoint removeQuotes (s : string) : string :=
  match s with
  | String c s' => if decide (c = quote) then removeQuotes s' else String c (removeQuotes s')
  | EmptyString => EmptyString
  end.

Section PutEvent.
Context (base64Encode : string → string) (fetch : Request → string → FetchResult).

Definition putRequest (username password calendarUrl eventUid : string) (etag : option string)
  : Request :=
  mkRequest "PUT" (resourceUrl calendarUrl eventUid)
    ([("Content-Type", "text/calendar; charset=utf-8");
      ("Authorization", "Basic " +:+ base64Encode (username +:+ ":" +:+ password));
      ("User-Agent", "Vividly/1.0")]
     ++ match JS.truthy etag with
        | Some etag => [("If-Match", String quote etag +:+ String quote EmptyString)]
        | None => []
        end).

(** [putEvent]: the request it sends with its body, and how it ends:
    [Returned etag] for [{ success: true, etag }]. *)
Definition putEvent (serverUrl username password calendarUrl eventUid eventData : string)
    (etag : option string) : list (Request * string) * Outcome (option string) :=
  let request := putRequest username password calendarUrl eventUid etag in
  ([(request, eventData)],
   match fetch request eventData with
   | Rejected reason => Thrown reason
   | Responded r =>
       if negb (ok (res_status r))
       then Thrown ("PUT request failed: " +:+ pretty (res_status r) +:+ " " +:+ res_statusText r)
       else Returned (removeQuotes <$> JS.truthy (res_etag r))
   end).

End PutEvent.
End ProxyPut.

(** A text without double quote. *)
Definition quoteFree (s : string) : bool :=
  Canonical.allChars (fun c => negb (bool_decide (c = Proxy.quote))) s.

(** ** CalDAV proxy: the request handler ([Deno.serve]) *)

Module Handler.

(** The JSON body of a request ([CalDAVRequest]); a field is [None] when
    the key is absent. *)
Record CalDAVRequest := mkCalDAVRequest {
  q_serverUrl : option string;
  q_username : option string;
  q_password : option string;
  q_action : option string;
  q_calendarUrl : option string;
  q_startDate : option string;
  q_endDate : option string;
  q_syncToken : option string;
  q_eventData : option string;
  q_eventUid : option string;
  q_etag : option string;
}.

(** What the handler reads of a request: the method, the header
    [Authorization], and the body as [req.json()] yields it, [Thrown] with
    the message of the error when it rejects. *)
Record HttpRequest := mkHttpRequest {
  h_method : string;
  h_authorization : option string;
  h_body : Outcome CalDAVRequest;
}.

(** The CalDAV functions the handler calls, with their arguments. *)
Inductive Action :=
| FetchCalendars (serverUrl username password : string)
| FetchCalendarEvents (serverUrl username password calendarUrl : string)
                      (startDate endDate : option string)
| FetchSyncToken (serverUrl username password calendarUrl : string)
| FetchSyncCollection (serverUrl username password calendarUrl syncToken : string)
| PutEvent (serverUrl username password calendarUrl eventUid eventData : string)
           (etag : option string)
| DeleteEvent (serverUrl username password calendarUrl eventUid : string) (etag : option string).

(** What leaves the handler: the check of the bearer token against
    [/auth/v1/user], and the call of a CalDAV function. *)
Inductive Upstream :=
| AuthCheck (token : string)
| Run (a : Action).

(** The answer to the check of the token: [ok], not [ok] with the body of
    the answer, or a rejected [fetch] with the message of the error. *)
Inductive AuthAnswer :=
| AuthOk
| AuthDenied (authBody : string)
| AuthFailed (message : string).

(** The body of a response: none, an error object with its [error] and
    [details] (the [stack] is not modelled), or the result as JSON. *)
Inductive Body :=
| NoBody
| ErrorBody (error : string) (details : option string)
| ResultBody (json : string).

Record Response := mkResponse {
  status : Z;
  body : Body;
}.

(** [error.toString()] of an [Error] with the message [msg]. *)
Definition errorToString (msg : string) : string :=
  if decide (msg = "") then "Error" else "Error: " +:+ msg.

Section Serve.
Context (supabaseUrl supabaseAnonKey : option string)
        (auth : string → AuthAnswer)
        (run : Action → Outcome string).

(** The dispatch on [action], inside the inner [try]: a response of its
    own, or the action to run. *)
Definition dispatch (serverUrl username password action : string) (requestData : CalDAVRequest)
  : Response + Action :=
  let calendarUrl := JS.truthy (q_calendarUrl requestData) in
  if decide (action = "listCalendars") then inr (FetchCalendars serverUrl username password)
  else if decide (action = "fetchEvents") then
    match calendarUrl with
    | None => inl (mkResponse 400 (ErrorBody "calendarUrl이 필요합니다." None))
    | Some calendarUrl =>
        inr (FetchCalendarEvents serverUrl username password calendarUrl
                                 (q_startDate requestData) (q_endDate requestData))
    end
  else if decide (action = "getSyncToken") then
    match calendarUrl with
    | None => inl (mkResponse 400 (ErrorBody "calendarUrl이 필요합니다." None))
    | Some calendarUrl => inr (FetchSyncToken serverUrl username password calendarUrl)
    end
  else if decide (action = "syncCollection") then
    match calendarUrl with
    | None => inl (mkResponse 400 (ErrorBody "calendarUrl이 필요합니다." None))
    | Some calendarUrl =>
        match JS.truthy (q_syncToken requestData) with
        | None => inl (mkResponse 400 (ErrorBody "syncToken이 필요합니다." None))
        | Some syncToken =>
            inr (FetchSyncCollection serverUrl username password calendarUrl syncToken)
        end
    end
  else if decide (action = "createEvent" ∨ action = "updateEvent") then
    match calendarUrl, JS.truthy (q_eventData requestData), JS.truthy (q_eventUid requestData) with
    | Some calendarUrl, Some eventData, Some eventUid =>
        inr (PutEvent serverUrl username password calendarUrl eventUid eventData
                      (q_etag requestData))
    | _, _, _ =>
        inl (mkResponse 400 (ErrorBody "calendarUrl, eventData, eventUid가 필요합니다." None))
    end
  else if decide (action = "deleteEvent") then
    match calendarUrl, JS.truthy (q_eventUid requestData) with
    | Some calendarUrl, Some eventUid =>
        inr (DeleteEvent serverUrl username password calendarUrl eventUid (q_etag requestData))
    | _, _ => inl (mkResponse 400 (ErrorBody "calendarUrl, eventUid가 필요합니다." None))
    end
  else inl (mkResponse 400 (ErrorBody "지원하지 않는 액션입니다." None)).

(** The outer [catch]: status 500 with the message of the error. *)
Definition failure (msg : string) : Response :=
  mkResponse 500
    (ErrorBody (if decide (msg = "") then "CalDAV 요청 처리 중 오류가 발생했습니다." else msg)
               (Some (errorToString msg))).

(** The second [try] of the handler, after the check of the token. *)
Definition process (req : HttpRequest) : Response * list Upstream :=
  match h_body req with
  | Thrown msg => (failure msg, [])
  | Returned requestData =>
      match JS.truthy (q_serverUrl requestData), JS.truthy (q_username requestData),
            JS.truthy (q_password requestData), JS.truthy (q_action requestData) with
      | Some serverUrl, Some username, Some password, Some action =>
          match dispatch serverUrl username password action requestData with
          | inl response => (response, [])
          | inr a =>
              match run a with
              | Returned result => (mkResponse 200 (ResultBody result), [Run a])
              | Thrown msg => (failure msg, [Run a])
              end
          end
      | _, _, _, _ =>
          (mkResponse 400 (ErrorBody "필수 파라미터가 누락되었습니다." None), [])
      end
  end.

(** The handler: the response and what left it, in order. *)
Definition handle (req : HttpRequest) : Response * list Upstream :=
  if decide (h_method req = "OPTIONS") then (mkResponse 200 NoBody, [])
  else
    match JS.truthy (h_authorization req) ≫= Text.stripPrefix "Bearer " with
    | None => (mkResponse 401 (ErrorBody "인증 헤더가 없습니다." None), [])
    | Some token =>
        match JS.truthy supabaseUrl, JS.truthy supabaseAnonKey with
        | Some _, Some _ =>
            match auth token with
            | AuthDenied authBody =>
                (mkResponse 401 (ErrorBody "인증 토큰이 유효하지 않습니다." (Some authBody)),
                 [AuthCheck token])
            | AuthFailed message =>
                (mkResponse 500
                   (ErrorBody ("인증 확인 실패: "
                               +:+ (if decide (message = "") then "unknown error" else message))
                              None),
                 [AuthCheck token])
            | AuthOk =>
                let '(response, calls) := process req in (response, AuthCheck token :: calls)
            end
        | _, _ =>
            (mkResponse 500 (ErrorBody "서버 설정 오류(SUPABASE_URL/ANON_KEY)." None), [])
        end
    end.

End Serve.

(** The arguments every CalDAV function is called with are not empty:
    server, user, password, and the calendar of all but the listing. *)
Definition wellFormed (a : Action) : bool :=
  match a with
  | FetchCalendars s u p => negb (bool_decide (s = "" ∨ u = "" ∨ p = ""))
  | FetchCalendarEvents s u p c _ _ | FetchSyncToken s u p c =>
      negb (bool_decide (s = "" ∨ u = "" ∨ p = "" ∨ c = ""))
  | FetchSyncCollection s u p c t =>
      negb (bool_decide (s = "" ∨ u = "" ∨ p = "" ∨ c = "" ∨ t = ""))
  | PutEvent s u p c e d _ =>
      negb (bool_decide (s = "" ∨ u = "" ∨ p = "" ∨ c = "" ∨ e = "" ∨ d = ""))
  | DeleteEvent s u p c e _ =>
      negb (bool_decide (s = "" ∨ u = "" ∨ p = "" ∨ c = "" ∨ e = ""))
  end.

End Handler.

(** The text [name] occurs in [s]. *)
Fixpoint occursIn (name s : string) : bool :=
  bool_decide (is_Some (Text.stripPrefix name s))
  || match s with
     | String _ s' => occursIn name s'
     | EmptyString => false
     end.

(** A property line: the name, the parameters if any, and the value. *)
Definition propertyLine (name : string) (params : option string) (value : string) : string :=
  name +:+ match params with
           | Some p => ";" +:+ p +:+ ":"
           | None => ":"
           end +:+ value.

(** ** Write operations of caldav.ts *)

Module Write.
Import Handler.

(** [{ ...event, caldavUid: uid }] *)
Definition withUid (event : PartialEvent) (uid : string) : PartialEvent :=
  mkPartialEvent (pe_title event) (pe_memo event) (Some uid) (pe_date event)
                 (pe_startTime event) (pe_endTime event).

Section Requests.
(** The host: the offset of its local time and the instants of the two
    [ICAL.Time.now()], and the two texts [`vividly-...`] made from
    [Date.now()] and [Math.random()], the first inside the first
    [serializeEventToICS], the second by [createCalDavEvent] itself. *)
Context (tz now1 now2 : Z) (uidOfFirstText generatedUid : string).

(** The body that [createCalDavEvent] hands to [invokeCalDavProxy]; [None]
    where the encoder is not modelled. *)
Definition createCalDavEvent (config : CalDAVConfig) (calendarUrl : string)
    (event : PartialEvent) : option CalDAVRequest :=
  icsData ← Encoder.serializeEventToICS tz now1 uidOfFirstText event;
  let uid := default generatedUid (JS.truthy (pe_caldavUid event)) in
  let eventWithUid := withUid event uid in
  finalIcs ← Encoder.serializeEventToICS tz now2 generatedUid eventWithUid;
  Some (mkCalDAVRequest (Some (serverUrl config)) (Some (username config))
          (Some (password config)) (Some "createEvent") (Some calendarUrl) None None None
          (Some finalIcs) (Some uid) None).

Definition updateCalDavEvent (config : CalDAVConfig) (calendarUrl uid : string)
    (event : PartialEvent) (etag : option string) : option CalDAVRequest :=
  let eventWithUid := withUid event uid in
  finalIcs ← Encoder.serializeEventToICS tz now1 uidOfFirstText eventWithUid;
  Some (mkCalDAVRequest (Some (serverUrl config)) (Some (username config))
          (Some (password config)) (Some "updateEvent") (Some calendarUrl) None None None
          (Some finalIcs) (Some uid) etag).

End Requests.

Definition deleteCalDavEvent (config : CalDAVConfig) (calendarUrl uid : string)
    (etag : option string) : CalDAVRequest :=
  mkCalDAVRequest (Some (serverUrl config)) (Some (username config))
    (Some (password config)) (Some "deleteEvent") (Some calendarUrl) None None None
    None (Some uid) etag.

End Write.

(** ** Sample data for the concrete runs *)

Module Sample.

Definition config : CalDAVConfig := mkConfig "https://caldav.example.com" "user" "secret".
Definition calendarUrl : string := "https://caldav.example.com/cal/home".

(** An outside world in which the full fetch answers [remote], nothing is
    stored for sync-collection, no token is offered, and the store works. *)
Definition envOf (remote : list RemoteEvent) (storageFull : bool) : Env :=
  mkEnv (fun _ _ _ => None) (fun _ _ _ _ => Some remote) (fun _ _ => Some None)
        (fun _ => false) (fun t => "row-" +:+ pretty t) (fun _ => 1706522400000)
        (fun _ => storageFull) 540.

Definition quietEnv : Env := envOf [] false.

Definition localRow (i : nat) : Row :=
  mkRow ("id-" +:+ pretty i) ("Event " +:+ pretty i) "2024-01-29" None None None "#3b82f6"
        (Some calendarUrl) (Some ("local-" +:+ pretty i)) (Some "caldav").

(** The remote event a local row was made from. *)
Definition remoteOf (r : Row) : RemoteEvent :=
  mkRemoteEvent (row_caldav_uid r) (row_title r) (row_date r) (row_memo r)
                (row_start_time r) (row_end_time r) (row_color r).

Definition remoteEvent (uid : string) : RemoteEvent :=
  mkRemoteEvent (Some uid) "Remote" "2024-02-01" None None None "#3b82f6".

(** A legacy row without UID that bears the title and date of [remoteEvent],
    stored under the calendar URL with or without its trailing slash. *)
Definition legacyRow (id url : string) : Row :=
  mkRow id "Remote" "2024-02-01" None None None "#3b82f6" (Some url) None (Some "caldav").

Definition twentyRows : list Row := map localRow (seq 1 20).

(** Eighteen rows with UIDs and the two forms of one legacy row. *)
Definition eighteenAndTwoLegacy : list Row :=
  map localRow (seq 1 18)
  ++ [legacyRow "id-19" calendarUrl; legacyRow "id-20" (calendarUrl +:+ "/")].
Definition threeRows : list Row := map localRow (seq 1 3).

Definition worldOf (rows : list Row) : World := mkWorld rows ∅ false 0.
Definition busyWorld (rows : list Row) : World := mkWorld rows ∅ true 0.

(** A stored event and the same event with another colour on the server. *)
Definition standup : Row :=
  mkRow "id-1" "Standup" "2024-01-29" None (Some "10:00") (Some "10:30") "#111111"
        (Some calendarUrl) (Some "u1") (Some "caldav").

Definition standupRecoloured : RemoteEvent :=
  mkRemoteEvent (Some "u1") "Standup" "2024-01-29" None (Some "10:00") (Some "10:30") "#222222".

(** The instant 2026-11-02T03:00:00Z. *)
Definition now : Z := JSDate.UTC 2026 10 2 3 0.

(** The two events of the encoder's own tests. *)
Definition allDayEvent : PartialEvent :=
  mkPartialEvent (Some "All Day Event") None None (Some "2024-01-29") None None.
Definition meeting : PartialEvent :=
  mkPartialEvent (Some "Meeting") None (Some "uid-123") (Some "2024-01-29")
                 (Some "10:00") (Some "11:00").

(** An event with a start but no end time, as the decoder yields for a
    DTSTART with a time and no DTEND. *)
Definition startOnly : PartialEvent :=
  mkPartialEvent (Some "Call") None (Some "uid-9") (Some "2024-01-29") (Some "10:00") None.

End Sample.

(** ** More sample data *)

Module Cases.
Import Sample.

(** A row the user made by hand. *)
Definition handRow : Row :=
  mkRow "mine" "Dentist" "2024-01-30" None (Some "09:00") None "#10b981" None None None.

Definition workUrl : string := "https://caldav.example.com/cal/work".

(** A world in which a sync token is stored for the work calendar. *)
Definition withWorkToken : World :=
  mkWorld [] {[getSyncTokenStorageKey config := {[workUrl := "token-7"]}]} false 0.

(** The stand-up stored a second time under another id. *)
Definition standupAgain : Row :=
  mkRow "id-2" "Standup" "2024-01-29" None (Some "10:00") (Some "10:30") "#111111"
        (Some calendarUrl) (Some "u1") (Some "caldav").

(** A server that answers every PUT with 204 and the entity tag [abc123]
    between double quotes. *)
Definition taggingServer (_ : Proxy.Request) (_ : string) : ProxyPut.FetchResult :=
  ProxyPut.Responded
    (ProxyPut.mkResponse 204 "No Content"
       (Some (String Proxy.quote "abc123" +:+ String Proxy.quote ""))).

(** A request to list the calendars, with a bearer token. *)
Definition listRequest : Handler.HttpRequest :=
  Handler.mkHttpRequest "POST" (Some "Bearer t0")
    (Returned (Handler.mkCalDAVRequest (Some (serverUrl config)) (Some (username config))
                 (Some (password config)) (Some "listCalendars")
                 None None None None None None None)).

(** A calendar object with a VEVENT that has no DTSTART. *)
Definition undated : string :=
  "BEGIN:VCALENDAR" +:+ Text.CRLF +:+ "BEGIN:VEVENT" +:+ Text.CRLF +:+ "UID:u1" +:+ Text.CRLF
  +:+ "SUMMARY:Standup" +:+ Text.CRLF +:+ "END:VEVENT" +:+ Text.CRLF +:+ "END:VCALENDAR".

End Cases.

(** * Properties *)

(** ** Running a computation and observing its trace *)

Definition outcome {A} (r : Outcome A * World * list Call) : Outcome A := r.1.1.
Definition world {A} (r : Outcome A * World * list Call) : World := r.1.2.
Definition trace {A} (r : Outcome A * World * list Call) : list Call := r.2.

(** The calls of the reconciliation loop: reads and writes of the store. *)
Definition isStoreCall (c : Call) : bool :=
  match c with
  | CEventExistsByUID _ _ _ | CFetchEventByUID _ _ _ | CUpdateEventByUID _ _ _ _
  | CFindEventByDetails _ _ _ | CUpdateEventUID _ _ _ _ | CCreateEvent _ _
  | CEventExists _ _ _ => true
  | _ => false
  end.

Definition isIncremental (c : Call) : bool :=
  match c with CFetchSyncCollection _ _ _ => true | _ => false end.
Definition isFullFetch (c : Call) : bool :=
  match c with CFetchCalendarEvents _ _ _ _ => true | _ => false end.
Definition isDeletionCheck (c : Call) : bool :=
  match c with CDeleteRemovedEvents _ _ _ _ => true | _ => false end.

(** An event was created, or an existing one updated, by this call. *)
Definition syncedOf (c : Call) : Z :=
  match c with
  | CCreateEvent _ true => 1
  | CUpdateEventByUID _ _ _ true => 1
  | _ => 0
  end.

(** The number of rows this call reported as deleted. *)
Definition deletedOf (c : Call) : Z :=
  match c with
  | CDeleteRemovedEvents _ _ _ n => n
  | _ => 0
  end.

Definition sumOf (f : Call → Z) (tr : list Call) : Z := foldr (fun c n => f c + n) 0 tr.
Definition syncedIn (tr : list Call) : Z := sumOf syncedOf tr.
Definition deletedIn (tr : list Call) : Z := sumOf deletedOf tr.

(** The instant [k] years from [now] in local time:
    [d.setFullYear(d.getFullYear() + k)]. *)
Definition yearsFrom (tz now k : Z) : Z :=
  JSDate.setFullYear tz now (JSDate.getFullYear tz now + k).

(** The incremental result a calendar's pass keeps: a token is stored, the
    sync-collection call made at the start of the pass succeeds, and its
    answer signals no deletion. *)
Definition incrementalResult (env : Env) (syncTokens : gmap string string)
    (rawCalendarUrl : string) (w : World) : option SyncCollectionResult :=
  let calendarUrl := JS.stripTrailingSlashes rawCalendarUrl in
  match JS.truthy (syncTokens !! calendarUrl) with
  | Some token =>
      match net_syncCollection env (tick w) calendarUrl token with
      | Some r => if sr_hasDeletions r then None else Some r
      | None => None
      end
  | None => None
  end.

(** The sync-collection call a pass starts with, when a token is stored. *)
Definition incrementalAttempt (env : Env) (syncTokens : gmap string string)
    (rawCalendarUrl : string) (w : World) : list Call :=
  let calendarUrl := JS.stripTrailingSlashes rawCalendarUrl in
  match JS.truthy (syncTokens !! calendarUrl) with
  | Some token =>
      [CFetchSyncCollection calendarUrl token
         (bool_decide (is_Some (net_syncCollection env (tick w) calendarUrl token)))]
  | None => []
  end.

(** The full fetch over the window from one year before the first clock
    reading to one year after the second. *)
Definition fullFetchCall (env : Env) (calendarUrl : string) (t1 t2 : nat) (ok : bool) : Call :=
  CFetchCalendarEvents calendarUrl (yearsFrom (tzOffset env) (clock env t1) (-1))
                       (yearsFrom (tzOffset env) (clock env t2) 1) ok.

(** The answer of the proxy to that full fetch. *)
Definition fullFetchAnswer (env : Env) (calendarUrl : string) (t1 t2 : nat)
  : option (list RemoteEvent) :=
  net_fetchEvents env (S t2) calendarUrl (yearsFrom (tzOffset env) (clock env t1) (-1))
                  (yearsFrom (tzOffset env) (clock env t2) 1).

(** The parts of the world that a calendar's pass never touches. *)
Definition sameSession (w w' : World) : Prop :=
  syncInFlight w' = syncInFlight w ∧ localStorage w' = localStorage w.

Ltac unfold_monad :=
  unfold mbind, mret, M_bind, M_ret, bind, ret, get, modify, emit, next, throw in *.

(** One case for each decimal digit [k]. *)
Ltac digit_cases k :=
  let H := fresh in
  assert (H : k = 0 ∨ k = 1 ∨ k = 2 ∨ k = 3 ∨ k = 4 ∨ k = 5 ∨ k = 6 ∨ k = 7 ∨ k = 8 ∨ k = 9)
    by lia;
  repeat (destruct H as [->|H]); try subst k.

(** A legacy row (no UID) that bears the title, date and times of [event]. *)
Definition matchedByKey (event : RemoteEvent) (r : Row) : bool :=
  bool_decide (JS.truthy (row_caldav_uid r) = None)
  && bool_decide (eventKey (row_title r) (row_date r) (row_start_time r) (row_end_time r)
                  = eventKey (ev_title event) (ev_date event) (ev_startTime event)
                             (ev_endTime event)).

(** The rows that [deleteRemovedEvents] loads for a calendar. *)
Definition existingEvents (calendarUrl : string) (w : World) : list Row :=
  caldavRowsOf (calendarUrlVariants calendarUrl) (events w).

Section DeletionGuards.
Context (env : Env).

Lemma runawayGuard_true n d :
  (10 ≤ n)%nat → (9 * n < 10 * d)%nat → runawayGuard n d = true.
Proof.
  intros Hn Hd. unfold runawayGuard.
  apply andb_true_iff; split; [apply Z.leb_le | apply Z.ltb_lt]; lia.
Qed.

(** Guard 2 in the terms of the body: no row is removed, the answer is 0. *)
Lemma body_runaway calendarUrl currentUids currentEvents w :
  runawayGuard (length (existingEvents calendarUrl w))
               (length (toDelete currentUids currentEvents (existingEvents calendarUrl w))) = true →
  outcome (deleteRemovedEvents_body env calendarUrl currentUids currentEvents w) = Returned 0
  ∧ events (world (deleteRemovedEvents_body env calendarUrl currentUids currentEvents w))
    = events w.
Proof.
  intros Hg. unfold deleteRemovedEvents_body, existingEvents, outcome, world in *.
  unfold_monad.
  destruct (decide (length currentEvents = 0%nat ∧ size currentUids = 0%nat)); [done|].
  simpl. destruct (db_error env (tick w)); [done|].
  destruct (decide (_ ∧ _)); [done|].
  rewrite Hg. done.
Qed.

Lemma deleteRemovedEvents_of_body calendarUrl currentUids currentEvents w :
  outcome (deleteRemovedEvents_body env calendarUrl currentUids currentEvents w) = Returned 0 →
  outcome (deleteRemovedEvents env calendarUrl currentUids currentEvents w) = Returned 0
  ∧ world (deleteRemovedEvents env calendarUrl currentUids currentEvents w)
    = world (deleteRemovedEvents_body env calendarUrl currentUids currentEvents w).
Proof.
  unfold deleteRemovedEvents, outcome, world. unfold_monad.
  destruct (deleteRemovedEvents_body env calendarUrl currentUids currentEvents w)
    as [[[z|e] w1] t1]; simpl; [|done].
  intros [= ->]. done.
Qed.

End DeletionGuards.

(** ** The sync engine, block by block *)

#[local] Arguments syncedIn : simpl never.
#[local] Arguments deletedIn : simpl never.

Lemma sumOf_app f t1 t2 : sumOf f (t1 ++ t2) = sumOf f t1 + sumOf f t2.
Proof. unfold sumOf. induction t1 as [|c t1 IH]; simpl; [done | lia]. Qed.

Lemma bind_returned {A B} (m : M A) (k : A → M B) w a w1 t1 :
  m w = (Returned a, w1, t1) →
  (m ≫= k) w = (let '(r, w2, t2) := k a w1 in (r, w2, t1 ++ t2)).
Proof. intros H. unfold mbind, M_bind, bind. rewrite H. by destruct (k a w1) as [[??]?]. Qed.

Lemma bind_step {A B} (m : M A) (k : A → M B) w a w1 t1 r w2 t2 :
  m w = (Returned a, w1, t1) → k a w1 = (r, w2, t2) → (m ≫= k) w = (r, w2, t1 ++ t2).
Proof. intros H1 H2. by rewrite (bind_returned _ _ _ _ _ _ H1), H2. Qed.

Lemma bind_thrown {A B} (m : M A) (k : A → M B) w e w1 t1 :
  m w = (Thrown e, w1, t1) → (m ≫= k) w = (Thrown e, w1, t1).
Proof. intros H. unfold mbind, M_bind, bind. by rewrite H. Qed.

Lemma sameSession_refl w : sameSession w w.
Proof. done. Qed.
Lemma sameSession_trans w1 w2 w3 : sameSession w1 w2 → sameSession w2 w3 → sameSession w1 w3.
Proof. unfold sameSession. intros [??] [??]. split; congruence. Qed.

Section EngineLemmas.
Context (env : Env).

Lemma processEvent_reconciles calendarUrl s event w :
  ∃ s' w' t, processEvent env calendarUrl s event w = (Returned s', w', t)
  ∧ forallb isStoreCall t = true
  ∧ calendarSyncedCount s' = calendarSyncedCount s + syncedIn t
  ∧ sameSession w w'.
Proof.
  unfold processEvent, eventExistsByUID, fetchEventByUID, updateEventByUID, findEventByDetails,
    updateEventUID, createEvent, eventExists, sameSession.
  unfold_monad.
  repeat (case_match; simpl in *; simplify_eq); do 3 eexists; (split; [reflexivity|]); simpl;
    unfold syncedIn; simpl; repeat split; try done; try lia.
Qed.

Lemma reconcile_all calendarUrl events0 s w :
  ∃ s' w' t, foldM (processEvent env calendarUrl) events0 s w = (Returned s', w', t)
  ∧ forallb isStoreCall t = true
  ∧ calendarSyncedCount s' = calendarSyncedCount s + syncedIn t
  ∧ sameSession w w'.
Proof.
  revert s w. induction events0 as [|event events0 IH]; intros s w; simpl.
  - exists s, w, []. unfold syncedIn. simpl. repeat split; try done; lia.
  - destruct (processEvent_reconciles calendarUrl s event w) as (s1 & w1 & t1 & Ho & Hc & Hn & Hs).
    destruct (IH s1 w1) as (s2 & w2 & t2 & Ho2 & Hc2 & Hn2 & Hs2).
    exists s2, w2, (t1 ++ t2). rewrite (bind_returned _ _ _ _ _ _ Ho), Ho2.
    rewrite forallb_app, Hc, Hc2. unfold syncedIn in *. rewrite sumOf_app.
    split; [done|]. split; [done|]. split; [lia | by eapply sameSession_trans].
Qed.

Lemma deleteBatch_spec n b w :
  ∃ n' w', deleteBatch env n b w = (Returned n', w', []) ∧ n ≤ n' ∧ sameSession w w'.
Proof.
  unfold deleteBatch, sameSession. unfold_monad. simpl.
  destruct (db_error env (tick w)); do 2 eexists; (split; [reflexivity|]); simpl;
    repeat split; lia.
Qed.

Lemma deleteBatches_spec bs n w :
  ∃ n' w', foldM (deleteBatch env) bs n w = (Returned n', w', []) ∧ n ≤ n' ∧ sameSession w w'.
Proof.
  revert n w. induction bs as [|b bs IH]; intros n w; simpl.
  - exists n, w. done.
  - destruct (deleteBatch_spec n b w) as (n1 & w1 & H1 & Hn1 & Hs1).
    destruct (IH n1 w1) as (n2 & w2 & H2 & Hn2 & Hs2).
    exists n2, w2. rewrite (bind_returned _ _ _ _ _ _ H1), H2.
    split; [done|]. split; [lia | by eapply sameSession_trans].
Qed.

Lemma deleteRemovedEvents_body_spec calendarUrl uids evs w :
  ∃ n w', deleteRemovedEvents_body env calendarUrl uids evs w = (Returned n, w', [])
  ∧ 0 ≤ n ∧ sameSession w w'.
Proof.
  unfold deleteRemovedEvents_body.
  destruct (decide (length evs = 0%nat ∧ size uids = 0%nat)); [by exists 0, w|].
  unfold_monad. simpl.
  destruct (db_error env (tick w)); [by eexists 0, _|].
  destruct (decide (_ ∧ _)); [by eexists 0, _|].
  destruct (runawayGuard _ _); [by eexists 0, _|].
  destruct (decide (0 < _)%nat); [|by eexists 0, _].
  match goal with |- context [foldM _ ?bs 0 ?w'] =>
    destruct (deleteBatches_spec bs 0 w') as (n' & w2 & H1 & H2 & H3) end.
  exists n', w2. rewrite H1. done.
Qed.

Lemma deleteRemovedEvents_spec calendarUrl uids evs w :
  ∃ n w', deleteRemovedEvents env calendarUrl uids evs w
          = (Returned n, w', [CDeleteRemovedEvents calendarUrl uids evs n])
  ∧ 0 ≤ n ∧ sameSession w w'.
Proof.
  destruct (deleteRemovedEvents_body_spec calendarUrl uids evs w) as (n & w' & H & Hn & Hs).
  exists n, w'. unfold deleteRemovedEvents. rewrite (bind_returned _ _ _ _ _ _ H).
  done.
Qed.


Lemma attemptIncremental_spec config tokens rawCalendarUrl w :
  ∃ res w1,
    attemptIncremental env config tokens (JS.stripTrailingSlashes rawCalendarUrl) w
    = (Returned res, w1, incrementalAttempt env tokens rawCalendarUrl w)
    ∧ discardOnDeletions res = incrementalResult env tokens rawCalendarUrl w
    ∧ sameSession w w1.
Proof.
  unfold attemptIncremental, incrementalAttempt, incrementalResult.
  destruct (JS.truthy (tokens !! JS.stripTrailingSlashes rawCalendarUrl)) as [token|].
  - unfold tryCatch, fetchSyncCollection. unfold_monad. simpl.
    destruct (net_syncCollection env (tick w) _ token) as [r|]; simpl;
      do 2 eexists; (split; [reflexivity|]); done.
  - exists None, w. done.
Qed.

Lemma fullFetch_spec config calendarUrl w :
  ∃ w1, sameSession w w1
  ∧ ((∃ evs, fullFetch env config calendarUrl w
             = (Returned evs, w1, [fullFetchCall env calendarUrl (tick w) (S (tick w)) true])
             ∧ fullFetchAnswer env calendarUrl (tick w) (S (tick w)) = Some evs)
     ∨ (∃ e, fullFetch env config calendarUrl w
             = (Thrown e, w1, [fullFetchCall env calendarUrl (tick w) (S (tick w)) false]))).
Proof.
  unfold fullFetch, newDate, fetchCalendarEvents, fullFetchCall, fullFetchAnswer, yearsFrom.
  unfold_monad. simpl.
  destruct (net_fetchEvents env _ _ _ _) as [evs|] eqn:Hnet; simpl; eexists; (split; [|eauto]); done.
Qed.

Lemma nextSyncTokens_spec config tokens calendarUrl syncResult (usedFullFetch : bool) w :
  ∃ tokens' w1,
    nextSyncTokens env config tokens calendarUrl syncResult usedFullFetch w
    = (Returned tokens', w1,
       if usedFullFetch && negb (bool_decide (is_Some (syncResult ≫= fun r => JS.truthy (sr_syncToken r))))
       then [CFetchSyncToken calendarUrl
               (net_getSyncToken env (tick w) calendarUrl ≫= JS.truthy)]
       else [])
    ∧ sameSession w w1.
Proof.
  unfold nextSyncTokens, fetchSyncToken.
  destruct (syncResult ≫= _) as [tok|]; simpl.
  - rewrite andb_false_r. by eexists _, w.
  - rewrite andb_true_r. destruct usedFullFetch; [|by eexists _, w].
    unfold_monad. simpl. do 2 eexists.
    split; [reflexivity | done].
Qed.


(** What a calendar's pass does, by the strategy it ends up with. *)
Lemma syncCalendar_cases config tokens rawCalendarUrl w :
  let calendarUrl := JS.stripTrailingSlashes rawCalendarUrl in
  ∃ w',
    sameSession w w'
    ∧ match incrementalResult env tokens rawCalendarUrl w with
      | Some res =>
          ∃ cr store,
            syncCalendar env config tokens rawCalendarUrl w
            = (Returned cr, w', incrementalAttempt env tokens rawCalendarUrl w ++ store)
            ∧ forallb isStoreCall store = true
            ∧ cr_synced cr = syncedIn store ∧ cr_deleted cr = 0
      | None =>
          ∃ t1 t2,
            (∃ e, syncCalendar env config tokens rawCalendarUrl w
                  = (Thrown e, w', incrementalAttempt env tokens rawCalendarUrl w
                                   ++ [fullFetchCall env calendarUrl t1 t2 false]))
            ∨ (∃ cr evs store uids n tok,
                 syncCalendar env config tokens rawCalendarUrl w
                 = (Returned cr, w',
                    incrementalAttempt env tokens rawCalendarUrl w
                    ++ fullFetchCall env calendarUrl t1 t2 true
                    :: store ++ [CDeleteRemovedEvents calendarUrl uids evs n;
                                 CFetchSyncToken calendarUrl tok])
                 ∧ fullFetchAnswer env calendarUrl t1 t2 = Some evs
                 ∧ forallb isStoreCall store = true
                 ∧ cr_synced cr = syncedIn store ∧ cr_deleted cr = n ∧ 0 ≤ n)
      end.
Proof.
  intros calendarUrl.
  destruct (attemptIncremental_spec config tokens rawCalendarUrl w)
    as (res & w1 & Hatt & Hres & Hs1).
  fold calendarUrl in Hatt.
  destruct (incrementalResult env tokens rawCalendarUrl w) as [r|].
  - (* the incremental result is kept *)
    destruct (reconcile_all calendarUrl (sr_events r) (mkPass ∅ 0 0) w1)
      as (s' & w2 & t2 & Hfold & Hcalls & Hcount & Hs2).
    destruct (nextSyncTokens_spec config tokens calendarUrl (Some r) false w2)
      as (tokens' & w3 & Hnext & Hs3).
    exists w3. split; [eauto using sameSession_trans|].
    exists (mkCalendarResult (calendarSyncedCount s') (calendarSkippedCount s') 0 tokens'), t2.
    split; [|simpl in *; repeat split; [done | lia]].
    unfold syncCalendar. fold calendarUrl.
    erewrite bind_step; [| exact Hatt |].
    2:{ rewrite Hres. eapply bind_step; [reflexivity|]. simpl.
        eapply bind_step; [exact Hfold|].
        eapply bind_step; [reflexivity|].
        eapply bind_step; [exact Hnext|]. reflexivity. }
    simpl. by rewrite !app_nil_r.
  - (* fallback to the full fetch *)
    destruct (fullFetch_spec config calendarUrl w1) as (w2 & Hs2 & [(evs & Hff & Hans)|[e Hff]]).
    + destruct (reconcile_all calendarUrl evs (mkPass ∅ 0 0) w2)
        as (s' & w3 & t3 & Hfold & Hcalls & Hcount & Hs3).
      destruct (deleteRemovedEvents_spec calendarUrl (currentEventUids s') evs w3)
        as (n & w4 & Hdel & Hn & Hs4).
      destruct (nextSyncTokens_spec config tokens calendarUrl None true w4)
        as (tokens' & w5 & Hnext & Hs5).
      exists w5. split; [eauto 6 using sameSession_trans|].
      exists (tick w1), (S (tick w1)). right.
      exists (mkCalendarResult (calendarSyncedCount s') (calendarSkippedCount s') n tokens'),
        evs, t3, (currentEventUids s'), n, (net_getSyncToken env (tick w4) calendarUrl ≫= JS.truthy).
      split; [|simpl in *; repeat split; [done | done | lia | done]].
      unfold syncCalendar. fold calendarUrl.
      erewrite bind_step; [| exact Hatt |].
      2:{ rewrite Hres.
          eapply bind_step; [eapply bind_step; [exact Hff | reflexivity]|]. simpl.
          eapply bind_step; [exact Hfold|].
          eapply bind_step; [exact Hdel|].
          eapply bind_step; [exact Hnext|]. reflexivity. }
      simpl. done.
    + exists w2. split; [eauto using sameSession_trans|].
      exists (tick w1), (S (tick w1)). left. exists e.
      unfold syncCalendar. fold calendarUrl.
      erewrite bind_step; [| exact Hatt |].
      2:{ rewrite Hres. eapply bind_thrown. eapply bind_thrown. exact Hff. }
      done.
Qed.

Lemma storeCalls_deletedIn tr : forallb isStoreCall tr = true → deletedIn tr = 0.
Proof.
  unfold deletedIn, sumOf. induction tr as [|c tr IH]; simpl; [done|].
  intros [Hc Htr]%andb_true_iff. rewrite (IH Htr). by destruct c.
Qed.

Lemma syncedIn_nonneg tr : 0 ≤ syncedIn tr.
Proof.
  unfold syncedIn, sumOf. induction tr as [|c tr IH]; simpl; [done|].
  assert (0 ≤ syncedOf c) by (destruct c as [| | | | |? ? ? []| | |? []| | | |]; simpl; lia). lia.
Qed.

Lemma incrementalAttempt_counts tokens rawCalendarUrl w :
  syncedIn (incrementalAttempt env tokens rawCalendarUrl w) = 0
  ∧ deletedIn (incrementalAttempt env tokens rawCalendarUrl w) = 0.
Proof. unfold incrementalAttempt. by destruct (JS.truthy _). Qed.

(** The counters a calendar's pass hands back are those of its trace; a
    pass that throws has neither created, updated nor deleted anything. *)
Lemma syncCalendar_counts config tokens rawCalendarUrl w :
  ∃ w', sameSession w w'
  ∧ ((∃ cr t, syncCalendar env config tokens rawCalendarUrl w = (Returned cr, w', t)
              ∧ cr_synced cr = syncedIn t ∧ cr_deleted cr = deletedIn t ∧ 0 ≤ deletedIn t)
     ∨ (∃ e t, syncCalendar env config tokens rawCalendarUrl w = (Thrown e, w', t)
               ∧ syncedIn t = 0 ∧ deletedIn t = 0)).
Proof.
  destruct (syncCalendar_cases config tokens rawCalendarUrl w) as (w' & Hs & Hcases).
  destruct (incrementalAttempt_counts tokens rawCalendarUrl w) as [Hi1 Hi2].
  exists w'. split; [done|].
  destruct (incrementalResult env tokens rawCalendarUrl w).
  - destruct Hcases as (cr & store & Heq & Hstore & Hsy & Hdel).
    left. exists cr, (incrementalAttempt env tokens rawCalendarUrl w ++ store).
    unfold syncedIn, deletedIn in *. rewrite !sumOf_app.
    pose proof (storeCalls_deletedIn _ Hstore) as Hd. unfold deletedIn in Hd.
    repeat split; [done | lia | lia | lia].
  - destruct Hcases as (t1 & t2 & [(e & Heq)|(cr & evs & store & uids & n & tok & Heq & _ & Hstore & Hsy & Hdel & Hn)]).
    + right. eexists e, _. split; [exact Heq|].
      unfold syncedIn, deletedIn in *. rewrite !sumOf_app. simpl. lia.
    + left. eexists cr, _. split; [exact Heq|].
      pose proof (storeCalls_deletedIn _ Hstore) as Hd.
      unfold syncedIn, deletedIn in *.
      rewrite !sumOf_app. simpl. rewrite !sumOf_app. simpl. lia.
Qed.

Lemma syncOne_counts config acc rawCalendarUrl w :
  ∃ acc' w' t, syncOne env config acc rawCalendarUrl w = (Returned acc', w', t)
  ∧ sameSession w w'
  ∧ syncedCount acc' = syncedCount acc + syncedIn t
  ∧ deletedCount acc' = deletedCount acc + deletedIn t
  ∧ 0 ≤ deletedIn t.
Proof.
  destruct (syncCalendar_counts config (syncTokens acc) rawCalendarUrl w)
    as (w' & Hs & [(cr & t & Heq & Hsy & Hdel & Hn)|(e & t & Heq & Hsy & Hdel)]).
  - eexists _, w', t. split.
    + unfold syncOne, tryCatch.
      erewrite bind_step; [| exact Heq | reflexivity]. by rewrite app_nil_r.
    + simpl. repeat split; try apply Hs; lia.
  - exists acc, w', t. split.
    + unfold syncOne, tryCatch. rewrite (bind_thrown _ _ _ _ _ _ Heq).
      unfold_monad. by rewrite app_nil_r.
    + repeat split; try apply Hs; lia.
Qed.

Lemma syncAll_counts config urls acc w :
  ∃ acc' w' t, foldM (syncOne env config) urls acc w = (Returned acc', w', t)
  ∧ sameSession w w'
  ∧ syncedCount acc' = syncedCount acc + syncedIn t
  ∧ deletedCount acc' = deletedCount acc + deletedIn t
  ∧ 0 ≤ deletedIn t.
Proof.
  revert acc w. induction urls as [|url urls IH]; intros acc w; simpl.
  - exists acc, w, []. unfold syncedIn, deletedIn. simpl. repeat split; lia.
  - destruct (syncOne_counts config acc url w) as (acc1 & w1 & t1 & H1 & Hs1 & Hsy1 & Hd1 & Hn1).
    destruct (IH acc1 w1) as (acc2 & w2 & t2 & H2 & Hs2 & Hsy2 & Hd2 & Hn2).
    exists acc2, w2, (t1 ++ t2). split; [by eapply bind_step|].
    unfold syncedIn, deletedIn in *. rewrite !sumOf_app.
    split; [by eapply sameSession_trans|]. lia.
Qed.

(** The [try] block: what it returns, read off its trace. *)
Lemma syncPass_result config urls w :
  ∃ w' t, syncInFlight w' = syncInFlight w
  ∧ 0 ≤ deletedIn t
  ∧ ((∃ e, syncPass env config urls w = (Thrown e, w', t))
     ∨ syncPass env config urls w
       = (Returned (if 0 <? deletedIn t then -1 else syncedIn t), w', t)).
Proof.
  destruct (syncAll_counts config urls (mkTotals 0 0 0 (default ∅ (localStorage w !! getSyncTokenStorageKey config))) w)
    as (acc & w1 & t1 & Hall & Hs & Hsy & Hd & Hn).
  simpl in *.
  assert (Hcount : ∀ ok, deletedIn (CReadSyncTokens (getSyncTokenStorageKey config)
                           :: t1 ++ [CWriteSyncTokens (getSyncTokenStorageKey config) ok])
                         = deletedCount acc
                         ∧ syncedIn (CReadSyncTokens (getSyncTokenStorageKey config)
                             :: t1 ++ [CWriteSyncTokens (getSyncTokenStorageKey config) ok])
                           = syncedCount acc).
  { intros ok. unfold syncedIn, deletedIn in *. simpl. rewrite !sumOf_app. simpl. lia. }
  destruct (storage_full env (tick w1)) eqn:Hfull.
  - eassert (Heq : syncPass env config urls w = (Thrown _, _, _)).
    { unfold syncPass, readSyncTokens, writeSyncTokens.
      eapply bind_step; [unfold_monad; reflexivity|].
      eapply bind_step; [exact Hall|].
      unfold_monad. simpl. rewrite Hfull. reflexivity. }
    simpl in Heq. eexists _, _. split; [|split].
    3: { left. eexists. exact Heq. }
    + simpl. apply Hs.
    + destruct (Hcount false) as [-> _]. lia.
  - eassert (Heq : syncPass env config urls w
                    = (Returned (if 0 <? deletedCount acc then -1 else syncedCount acc), _, _)).
    { unfold syncPass, readSyncTokens, writeSyncTokens.
      eapply bind_step; [unfold_monad; reflexivity|].
      eapply bind_step; [exact Hall|].
      unfold_monad. simpl. rewrite Hfull. simpl.
      destruct (0 <? deletedCount acc); reflexivity. }
    simpl in Heq. destruct (Hcount true) as [Hd' Hs'].
    eexists _, _. split; [|split].
    3: { right. rewrite Heq, Hd', Hs'. reflexivity. }
    + simpl. apply Hs.
    + rewrite Hd'. lia.
Qed.
End EngineLemmas.
(** ** Deletion detection: the two guards *)

Section DeletionTheorems.
Context (env : Env).

(** C2.  Empty-fetch guard: when the fetched list is empty and no UID was
    seen, [deleteRemovedEvents] answers 0 before it even reads the store;
    the world (every row included) is left as it was, whatever it holds. *)
Theorem C2_empty_fetch_guard (calendarUrl : string) (w : World) :
  deleteRemovedEvents env calendarUrl ∅ [] w
  = (Returned 0, w, [CDeleteRemovedEvents calendarUrl ∅ [] 0]).
Proof.
  unfold deleteRemovedEvents, deleteRemovedEvents_body. unfold_monad.
  destruct (decide (length (@nil RemoteEvent) = 0%nat ∧ size (∅ : gset string) = 0%nat))
    as [_|Hn]; [done|].
  exfalso. apply Hn. split; [done | apply size_empty].
Qed.

(** Rows that are all kept by a filter. *)
Lemma filter_all {A} (p : A → bool) (l : list A) :
  (∀ x, In x l → p x = true) → List.filter p l = l.
Proof.
  induction l as [|x l IH]; simpl; [done|]. intros H.
  rewrite (H x (or_introl eq_refl)). f_equal. apply IH. intros y Hy. apply H. by right.
Qed.

(** With one fetched event whose UID no row bears, the rows that are not
    candidates are the legacy rows matched by key. *)
Lemma kept_rows_matched_by_key (u : string) (event : RemoteEvent) (rows : list Row) :
  (∀ r, In r rows → JS.truthy (row_caldav_uid r) ≠ Some u) →
  List.filter (fun r => negb (shouldDelete {[u]} (currentEventKeys [event]) r)) rows
  = List.filter (matchedByKey event) rows.
Proof.
  intros Huid. apply filter_ext_in. intros r Hr.
  unfold shouldDelete, matchedByKey, currentEventKeys. simpl.
  destruct (JS.truthy (row_caldav_uid r)) as [v|] eqn:Hv.
  - rewrite (bool_decide_eq_false_2 (Some v = None)) by done. simpl.
    rewrite (bool_decide_eq_false_2 (v ∈ ({[u]} : gset string))); [done|].
    intros ->%elem_of_singleton. by apply (Huid r Hr).
  - rewrite (bool_decide_eq_true_2 (None = None)) by done. simpl. rewrite negb_involutive.
    apply bool_decide_ext. rewrite elem_of_union, elem_of_singleton, elem_of_empty. tauto.
Qed.

(** C1.  Runaway-deletion guard: when at least 10 local caldav rows exist
    for the calendar and the deletion candidates are more than 90% of
    them, [deleteRemovedEvents] answers 0 and removes no row.  In
    particular it does so with 20 local rows and a full fetch of a single
    event whose UID none of them bears, provided at most one of the rows is
    a legacy row (no UID) with the title, date and times of that event. *)
Theorem C1_runaway_deletion_guard (calendarUrl : string) (w : World) :
  (∀ (currentUids : gset string) (currentEvents : list RemoteEvent),
     (10 ≤ length (existingEvents calendarUrl w))%nat →
     (9 * length (existingEvents calendarUrl w)
      < 10 * length (toDelete currentUids currentEvents (existingEvents calendarUrl w)))%nat →
     outcome (deleteRemovedEvents env calendarUrl currentUids currentEvents w) = Returned 0
     ∧ events (world (deleteRemovedEvents env calendarUrl currentUids currentEvents w))
       = events w)
  ∧ (∀ (u : string) (event : RemoteEvent),
       length (existingEvents calendarUrl w) = 20%nat →
       (∀ r, In r (existingEvents calendarUrl w) → JS.truthy (row_caldav_uid r) ≠ Some u) →
       (length (List.filter (matchedByKey event) (existingEvents calendarUrl w)) ≤ 1)%nat →
       outcome (deleteRemovedEvents env calendarUrl {[u]} [event] w) = Returned 0
       ∧ events (world (deleteRemovedEvents env calendarUrl {[u]} [event] w)) = events w).
Proof.
  assert (Hguard : ∀ currentUids currentEvents,
    (10 ≤ length (existingEvents calendarUrl w))%nat →
    (9 * length (existingEvents calendarUrl w)
     < 10 * length (toDelete currentUids currentEvents (existingEvents calendarUrl w)))%nat →
    outcome (deleteRemovedEvents env calendarUrl currentUids currentEvents w) = Returned 0
    ∧ events (world (deleteRemovedEvents env calendarUrl currentUids currentEvents w))
      = events w).
  { intros currentUids currentEvents Hn Hd.
    destruct (body_runaway env calendarUrl currentUids currentEvents w
                (runawayGuard_true _ _ Hn Hd)) as [Ho Hw].
    destruct (deleteRemovedEvents_of_body env _ _ _ _ Ho) as [Ho' Hw'].
    split; [exact Ho' | rewrite Hw'; exact Hw]. }
  split; [exact Hguard|].
  intros u event Hlen Huid Hkey. apply Hguard; [lia|].
  unfold toDelete. rewrite length_map.
  pose proof (filter_length (shouldDelete {[u]} (currentEventKeys [event]))
                            (existingEvents calendarUrl w)) as Hsplit.
  rewrite (kept_rows_matched_by_key u event _ Huid) in Hsplit. lia.
Qed.

End DeletionTheorems.

(** ** The sync engine: strategy, exclusion and the return contract *)

(** The calls of the reconciliation loop are neither a fetch nor a
    deletion check. *)
Lemma store_calls_fetch_nothing (store : list Call) :
  forallb isStoreCall store = true →
  forallb (fun c => negb (isIncremental c) && negb (isFullFetch c) && negb (isDeletionCheck c))
          store = true.
Proof.
  induction store as [|c store IH]; [done|]. simpl.
  intros [Hc Hs]%andb_true_iff. rewrite (IH Hs), andb_true_r. by destruct c.
Qed.

Section EngineTheorems.
Context (env : Env).


(** The run of a call that finds the flag set. *)
Lemma flag_set_run config selectedCalendarUrls w :
  syncInFlight w = true →
  syncSelectedCalendars env config selectedCalendarUrls w = (Returned 0, w, []).
Proof.
  intros Hflag. unfold syncSelectedCalendars. unfold_monad. by rewrite Hflag.
Qed.

(** C4.  Mutual exclusion: a call that finds a pass in flight returns 0 at
    once; the world is untouched and no call is made. *)
Theorem C4_overlapping_call_dropped (config : CalDAVConfig) (selectedCalendarUrls : list string)
    (w : World) :
  syncInFlight w = true →
  syncSelectedCalendars env config selectedCalendarUrls w = (Returned 0, w, [])
  ∧ events (world (syncSelectedCalendars env config selectedCalendarUrls w)) = events w
  ∧ trace (syncSelectedCalendars env config selectedCalendarUrls w) = [].
Proof.
  intros Hflag. by rewrite (flag_set_run config selectedCalendarUrls w Hflag).
Qed.

(** The run of a call that starts a pass. *)
Lemma syncSelectedCalendars_started config selectedCalendarUrls w :
  syncInFlight w = false →
  syncSelectedCalendars env config selectedCalendarUrls w
  = (outcome (syncPass env config selectedCalendarUrls (setInFlight true w)),
     setInFlight false (world (syncPass env config selectedCalendarUrls (setInFlight true w))),
     trace (syncPass env config selectedCalendarUrls (setInFlight true w))).
Proof.
  intros Hflag. unfold syncSelectedCalendars, tryFinally, outcome, world, trace.
  unfold_monad. rewrite Hflag. simpl.
  by destruct (syncPass env config selectedCalendarUrls (setInFlight true w)) as [[o w1] t1].
Qed.


(** C10.  A call that starts a pass leaves the in-flight flag cleared,
    whatever its outcome, returned or thrown. *)
Theorem C10_flag_cleared (config : CalDAVConfig) (selectedCalendarUrls : list string)
    (w : World) :
  syncInFlight w = false →
  syncInFlight (world (syncSelectedCalendars env config selectedCalendarUrls w)) = false.
Proof.
  intros Hflag. by rewrite (syncSelectedCalendars_started config selectedCalendarUrls w Hflag).
Qed.

End EngineTheorems.

(** ** Reconciliation of an event that exists locally *)

Section ExistingEvent.
Context (env : Env).

Lemma applyPayload_color (u : Updates) (r : Row) : row_color (applyPayload u r) = row_color r.
Proof. reflexivity. Qed.

(** No call of [updateEventByUID] changes a stored colour: its payload has
    no [color] column, whatever the [updates] it is given. *)
Lemma updateEventByUID_keeps_colours uid calendarUrl updates w :
  map row_color (events (world (updateEventByUID env uid calendarUrl updates w)))
  = map row_color (events w).
Proof.
  unfold updateEventByUID, world. unfold_monad. simpl.
  destruct (db_error env (tick w)); simpl; [done|].
  unfold updateWhere. rewrite map_map. apply map_ext. intros r.
  by destruct (matchesUID uid (normalizeUrl calendarUrl) r).
Qed.

Lemma updateWhere_ids p f rows :
  (∀ r, row_id (f r) = row_id r) → map row_id (updateWhere p f rows) = map row_id rows.
Proof.
  intros Hf. unfold updateWhere. rewrite map_map. apply map_ext. intros r.
  destruct (p r); [apply Hf | done].
Qed.

(** An event whose UID is found locally is never created again: the rows
    keep their identities and no [createEvent] is called. *)
Lemma existing_event_not_recreated calendarUrl s event uid w :
  JS.truthy (ev_uid event) = Some uid →
  db_error env (tick w) = false →
  existsb (matchesUID uid (normalizeUrl calendarUrl)) (events w) = true →
  map row_id (events (world (processEvent env calendarUrl s event w))) = map row_id (events w)
  ∧ forallb (fun c => match c with CCreateEvent _ _ => false | _ => true end)
            (trace (processEvent env calendarUrl s event w)) = true.
Proof.
  intros Huid Hdb Hex.
  unfold processEvent, eventExistsByUID, fetchEventByUID, updateEventByUID, world, trace.
  rewrite Huid. unfold_monad. simpl. rewrite Hdb, Hex. simpl.
  destruct (db_error env (S (tick w))); simpl; [done|].
  destruct (maybeSingle _) as [existing|]; simpl; [|done].
  destruct (hasUpdates (computeUpdates existing event)); simpl; [|done].
  destruct (db_error env (S (S (tick w)))); simpl; [done|].
  split; [|done]. by apply updateWhere_ids.
Qed.

(** When none of the six fields differs the event is counted as skipped
    and the store is left as it was. *)
Lemma unchanged_event_skipped calendarUrl s event uid existing w :
  JS.truthy (ev_uid event) = Some uid →
  db_error env (tick w) = false →
  db_error env (S (tick w)) = false →
  List.filter (matchesUID uid (normalizeUrl calendarUrl)) (events w) = [existing] →
  hasUpdates (computeUpdates existing event) = false →
  outcome (processEvent env calendarUrl s event w) = Returned (skipped (seen uid s))
  ∧ events (world (processEvent env calendarUrl s event w)) = events w.
Proof.
  intros Huid Hdb1 Hdb2 Hrows Hsame.
  assert (Hex : existsb (matchesUID uid (normalizeUrl calendarUrl)) (events w) = true).
  { apply existsb_exists. exists existing.
    apply filter_In. rewrite Hrows. by left. }
  unfold processEvent, eventExistsByUID, fetchEventByUID, outcome, world.
  rewrite Huid. unfold_monad. simpl. rewrite Hdb1, Hex. simpl.
  rewrite Hdb2, Hrows. simpl. rewrite Hsame. done.
Qed.

End ExistingEvent.

(** ** The proxy's [deleteEvent] *)

Section ProxyTheorems.
Import Proxy.
Context (base64Encode : string → string).

Lemma append_assoc_string (a b c : string) : (a +:+ b) +:+ c = a +:+ (b +:+ c).
Proof.
  induction a as [|x a IH]; [done|].
  change (String x ((a +:+ b) +:+ c) = String x (a +:+ (b +:+ c))). by f_equal.
Qed.

(** The resource lies under the calendar. *)
Lemma resourceUrl_under_calendar calendarUrl eventUid :
  ∃ name, resourceUrl calendarUrl eventUid = calendarUrl +:+ name.
Proof.
  unfold resourceUrl. destruct (JS.endsWith calendarUrl "/"); eexists; [reflexivity|].
  apply append_assoc_string.
Qed.


End ProxyTheorems.

(** ** The codec

    *** Texts and the search for a property *)

Section TextLemmas.
Import Text Canonical Codec.
Lemma append_cons c (a b : string) : String c a +:+ b = String c (a +:+ b).
Proof. reflexivity. Qed.

Lemma append_nil (b : string) : "" +:+ b = b.
Proof. reflexivity. Qed.

Lemma allChars_app p (a b : string) : allChars p (a +:+ b) = allChars p a && allChars p b.
Proof.
  induction a as [|x a IH]; [done|]. rewrite append_cons. simpl. rewrite IH.
  by rewrite andb_assoc.
Qed.

Lemma allChars_impl (p q : ascii → bool) s :
  (∀ c, p c = true → q c = true) → allChars p s = true → allChars q s = true.
Proof.
  intros Hpq. induction s as [|c s IH]; simpl; [done|].
  intros [Hc Hs]%andb_true_iff. rewrite (Hpq c Hc). by apply IH.
Qed.

Section Matching.
Context (capture : string → string).

(** Inside a text without colon no attempt can match: after the name comes
    neither a colon nor a semicolon with a colon behind it on the line. *)
Lemma lazyColon_block (S rest : string) :
  freeOfColon S = true → lazyColon capture (S +:+ CRLF +:+ rest) = None.
Proof.
  induction S as [|c S IH]; intros Hfree.
  - reflexivity.
  - simpl in Hfree. apply andb_true_iff in Hfree as [Hc HS].
    rewrite append_cons. simpl.
    destruct (isLineBreak c); [done|].
    unfold notColon in Hc. apply negb_true_iff, bool_decide_eq_false in Hc.
    destruct (decide (c = ":"%char)); [done|]. by apply IH.
Qed.

Lemma afterName_block (S rest : string) :
  freeOfColon S = true → afterName capture (S +:+ CRLF +:+ rest) = None.
Proof.
  destruct S as [|c S]; intros Hfree; [reflexivity|].
  simpl in Hfree. apply andb_true_iff in Hfree as [Hc HS].
  rewrite append_cons. simpl.
  unfold notColon in Hc. apply negb_true_iff, bool_decide_eq_false in Hc.
  destruct (decide (c = ";"%char)); [by apply lazyColon_block|].
  by destruct (decide (c = ":"%char)).
Qed.

Lemma matchHere_block (name S rest : string) :
  allChars nameChar name = true → freeOfColon S = true →
  matchHere capture name (S +:+ CRLF +:+ rest) = None.
Proof.
  unfold matchHere. revert S.
  induction name as [|a name IH]; intros S Hname Hfree.
  - simpl. by apply afterName_block.
  - simpl in Hname. apply andb_true_iff in Hname as [Ha Hname].
    destruct S as [|b S].
    + simpl. destruct (decide (a = CR)) as [->|]; [done|]. done.
    + simpl in Hfree. apply andb_true_iff in Hfree as [Hb HS].
      rewrite append_cons. simpl. destruct (decide (a = b)); [|done]. by apply IH.
Qed.

Lemma matchProperty_cons (name : string) c (text : string) :
  matchProperty capture name (String c text)
  = match matchHere capture name (String c text) with
    | Some v => Some v
    | None => matchProperty capture name text
    end.
Proof. reflexivity. Qed.

(** A block of text without colon, up to the end of its last line, is passed
    over by the search. *)
Lemma matchProperty_skip_block (name B rest : string) :
  name ≠ "" → allChars nameChar name = true → freeOfColon B = true →
  matchProperty capture name (B +:+ CRLF +:+ rest) = matchProperty capture name rest.
Proof.
  intros Hne Hname. induction B as [|c B IH]; intros Hfree.
  - destruct name as [|a name]; [done|].
    simpl in Hname. apply andb_true_iff in Hname as [Ha _].
    unfold nameChar, isLineBreak in Ha.
    apply andb_true_iff in Ha as [Ha _]. apply andb_true_iff in Ha as [Ha _].
    apply negb_true_iff, orb_false_iff in Ha as [H1 H2].
    apply bool_decide_eq_false in H1, H2.
    change ("" +:+ CRLF +:+ rest) with (String CR (String LF rest)).
    rewrite !matchProperty_cons. unfold matchHere. simpl.
    destruct (decide (a = CR)); [done|]. destruct (decide (a = LF)); [done|]. done.
  - rewrite append_cons, matchProperty_cons.
    change (String c (B +:+ CRLF +:+ rest)) with (String c B +:+ CRLF +:+ rest).
    rewrite (matchHere_block name (String c B) rest Hname Hfree).
    apply IH. simpl in Hfree. by apply andb_true_iff in Hfree as [_ ?].
Qed.

Lemma clash_stripPrefix (name S rest : string) :
  clash name S = true → stripPrefix name (S +:+ rest) = None.
Proof.
  revert S. induction name as [|a name IH]; intros [|b S]; simpl; try done.
  destruct (decide (a = b)); [apply IH | done].
Qed.

Lemma matchProperty_skip_prefix (name P rest : string) :
  noStart name P = true →
  matchProperty capture name (P +:+ rest) = matchProperty capture name rest.
Proof.
  induction P as [|c P IH]; [done|]. intros [Hc HP]%andb_true_iff.
  rewrite append_cons, matchProperty_cons.
  change (String c (P +:+ rest)) with (String c P +:+ rest).
  unfold matchHere. rewrite (clash_stripPrefix name (String c P) rest Hc). simpl.
  by apply IH.
Qed.

End Matching.

Lemma restOfLine_app (v rest : string) :
  allChars (fun c => negb (isLineBreak c)) v = true →
  restOfLine (v +:+ CRLF +:+ rest) = v.
Proof.
  induction v as [|c v IH]; [done|]. intros H. simpl in H.
  apply andb_true_iff in H as [Hc Hv].
  rewrite append_cons. simpl. apply negb_true_iff in Hc. rewrite Hc. by rewrite IH.
Qed.

End TextLemmas.

(** *** Civil dates and time values *)

Section Dates.
Import JSDate Codec.
Lemma isLeap_mod400 y k : isLeap (y + 400 * k) = isLeap y.
Proof.
  unfold isLeap.
  replace ((y + 400 * k) mod 4) with (y mod 4) by (Z.to_euclidean_division_equations; lia).
  replace ((y + 400 * k) mod 100) with (y mod 100) by (Z.to_euclidean_division_equations; lia).
  replace ((y + 400 * k) mod 400) with (y mod 400) by (Z.to_euclidean_division_equations; lia).
  reflexivity.
Qed.

(* day of era <-> (year of era, day of year) *)
Lemma yoe_of_doe yoe doy :
  0 <= yoe < 400 -> 0 <= doy -> doy < (if isLeap (yoe+1) then 366 else 365) ->
  let doe := yoe * 365 + yoe / 4 - yoe / 100 + doy in
  (doe - doe / 1460 + doe / 36524 - doe / 146096) / 365 = yoe /\ 0 <= doe < 146097.
Proof.
  intros Hy Hd Hl doe. subst doe.
  unfold isLeap in Hl.
  destruct ((yoe+1) mod 4 =? 0) eqn:E1; destruct ((yoe+1) mod 100 =? 0) eqn:E2; destruct ((yoe+1) mod 400 =? 0) eqn:E3; simpl in Hl;
  rewrite ?Z.eqb_eq, ?Z.eqb_neq in *; Z.to_euclidean_division_equations; lia.
Qed.

(* month/day from the day of the year counted from March 1 *)

Lemma md_of_doy m d y :
  1 <= m <= 12 -> 1 <= d <= daysInMonth y m ->
  let mp := mpOf m in
  let doy := (153 * mp + 2) / 5 + d - 1 in
  (5 * doy + 2) / 153 = mp /\ doy - (153 * mp + 2) / 5 + 1 = d
  /\ 0 <= doy /\ doy < (if m <=? 2 then (if isLeap y then 366 else 365) else 365).
Proof.
  intros Hm Hd.
  assert (m = 1 \/ m = 2 \/ m = 3 \/ m = 4 \/ m = 5 \/ m = 6 \/ m = 7 \/ m = 8 \/ m = 9
          \/ m = 10 \/ m = 11 \/ m = 12) as Hcases by lia.
  unfold daysInMonth in Hd.
  repeat (destruct Hcases as [->|Hcases]); try subst m; cbn in Hd |- *;
    destruct (isLeap y); cbn in Hd |- *; repeat split;
      try (Z.to_euclidean_division_equations; lia).
Qed.

Lemma civil_roundtrip y m d :
  1 <= m <= 12 -> 1 <= d <= daysInMonth y m ->
  civilFromDays (daysFromCivil y m d) = (y, m, d).
Proof.
  intros Hm Hd.
  destruct (md_of_doy m d y Hm Hd) as (Hmp & Hdd & Hdoy0 & Hdoy1).
  unfold civilFromDays, daysFromCivil.
  fold (mpOf m).
  set (y' := if m <=? 2 then y - 1 else y).
  set (era := y' / 400). set (yoe := y' - era * 400).
  set (mp := mpOf m) in *. set (doy := (153 * mp + 2) / 5 + d - 1) in *.
  assert (Hyoe : 0 <= yoe < 400) by (subst yoe era; Z.to_euclidean_division_equations; lia).
  assert (Hleap : doy < (if isLeap (yoe + 1) then 366 else 365)).
  { replace (yoe + 1) with ((y' + 1) + 400 * (- era)) by (subst yoe; lia).
    rewrite isLeap_mod400. subst y'.
    destruct (m <=? 2); [replace (y - 1 + 1) with y by lia; exact Hdoy1|].
    destruct (isLeap (y + 1)); lia. }
  destruct (yoe_of_doe yoe doy Hyoe Hdoy0 Hleap) as [Hy Hdoe].
  set (doe := yoe * 365 + yoe / 4 - yoe / 100 + doy) in *.
  replace (era * 146097 + doe - 719468 + 719468) with (doe + era * 146097) by lia.
  assert (He : (doe + era * 146097) / 146097 = era).
  { rewrite Z.div_add by lia. rewrite Z.div_small by lia. lia. }
  rewrite He.
  replace (doe + era * 146097 - era * 146097) with doe by lia.
  rewrite Hy.
  replace (doe - (365 * yoe + yoe / 4 - yoe / 100)) with doy by (subst doe; lia).
  rewrite Hmp, Hdd.
  assert (Hm' : (if mp <? 10 then mp + 3 else mp - 9) = m).
  { subst mp. unfold mpOf. destruct (2 <? m) eqn:E.
    - apply Z.ltb_lt in E. destruct (m - 3 <? 10) eqn:E2; [lia|]. apply Z.ltb_ge in E2. lia.
    - apply Z.ltb_ge in E. destruct (m + 9 <? 10) eqn:E2; [|lia]. apply Z.ltb_lt in E2. lia. }
  rewrite Hm'. subst yoe y'.
  destruct (m <=? 2); f_equal; f_equal; lia.
Qed.

Lemma MakeDay_civil y m d : 1 <= m <= 12 -> MakeDay y (m - 1) d = daysFromCivil y m d.
Proof.
  intros Hm. unfold MakeDay.
  replace ((m - 1) / 12) with 0 by (Z.to_euclidean_division_equations; lia).
  replace ((m - 1) mod 12 + 1) with m by (Z.to_euclidean_division_equations; lia).
  replace (y + 0) with y by lia. unfold daysFromCivil. lia.
Qed.

Lemma UTC_civil y m d h mi :
  1 <= m <= 12 ->
  UTC y (m - 1) d h mi = daysFromCivil y m d * msPerDay + (h * 3600000 + mi * msPerMinute).
Proof. intros Hm. unfold UTC. rewrite MakeDay_civil by done. lia. Qed.

Lemma Day_within D r : 0 <= r < msPerDay -> Day (D * msPerDay + r) = D.
Proof. unfold Day, msPerDay. intros Hr. Z.to_euclidean_division_equations. lia. Qed.

Lemma TimeWithinDay_within D r : 0 <= r < msPerDay -> TimeWithinDay (D * msPerDay + r) = r.
Proof. unfold TimeWithinDay, msPerDay. intros Hr. Z.to_euclidean_division_equations. lia. Qed.

Lemma daysFromCivil_next y m d :
  1 <= m <= 12 -> 1 <= d <= daysInMonth y m ->
  let '(y', m', d') := nextCivil y m d in
  daysFromCivil y' m' d' = daysFromCivil y m d + 1
  /\ 1 <= m' <= 12 /\ 1 <= d' <= daysInMonth y' m' /\ y <= y' <= y + 1.
Proof.
  intros Hm Hd. unfold nextCivil.
  destruct (d <? daysInMonth y m) eqn:E1.
  - apply Z.ltb_lt in E1. split; [unfold daysFromCivil; lia | lia].
  - apply Z.ltb_ge in E1. assert (d = daysInMonth y m) as -> by lia.
    destruct (m <? 12) eqn:E2.
    + apply Z.ltb_lt in E2.
      assert (m = 1 \/ m = 2 \/ m = 3 \/ m = 4 \/ m = 5 \/ m = 6 \/ m = 7 \/ m = 8 \/ m = 9
              \/ m = 10 \/ m = 11) as Hcases by lia.
      unfold daysFromCivil, daysInMonth, isLeap.
      repeat (destruct Hcases as [->|Hcases]); try subst m; simpl;
        destruct (y mod 4 =? 0) eqn:E4; destruct (y mod 100 =? 0) eqn:E100;
        destruct (y mod 400 =? 0) eqn:E400; simpl;
        rewrite ?Z.eqb_eq, ?Z.eqb_neq in *;
        (split; [Z.to_euclidean_division_equations; lia | lia]).
    + apply Z.ltb_ge in E2. assert (m = 12) as -> by lia.
      unfold daysFromCivil, daysInMonth. simpl.
      replace (y + 1 - 1) with y by lia.
      split; [Z.to_euclidean_division_equations; lia | lia].
Qed.

Lemma civil_next y m d :
  1 <= m <= 12 -> 1 <= d <= daysInMonth y m ->
  civilFromDays (daysFromCivil y m d + 1) = nextCivil y m d.
Proof.
  intros Hm Hd. pose proof (daysFromCivil_next y m d Hm Hd) as H.
  destruct (nextCivil y m d) as [[y' m'] d'].
  destruct H as (<- & Hm' & Hd' & _). by apply civil_roundtrip.
Qed.

Lemma daysFromCivil_bounds y m d :
  1000 <= y <= 9999 -> 1 <= m <= 12 -> 1 <= d <= 31 ->
  -400000 <= daysFromCivil y m d <= 3000000.
Proof.
  intros Hy Hm Hd. unfold daysFromCivil.
  destruct (m <=? 2); destruct (2 <? m) eqn:E; rewrite ?Z.ltb_lt, ?Z.ltb_ge in E;
    Z.to_euclidean_division_equations; lia.
Qed.

Lemma daysInMonth_le y m : daysInMonth y m <= 31.
Proof.
  unfold daysInMonth.
  destruct (m =? 2); [destruct (isLeap y); lia|].
  destruct ((m =? 4) || (m =? 6) || (m =? 9) || (m =? 11)); lia.
Qed.

End Dates.

(** *** Decimal digits *)

Section Digits.
Import Text Canonical Codec.

Lemma digitOf_digitChar k : 0 ≤ k ≤ 9 → digitOf (digitChar k) = Some k.
Proof. intros Hk. digit_cases k; reflexivity. Qed.

Lemma digitChar_like k : digitLike (digitChar k) = true.
Proof.
  destruct k as [|p|p]; [reflexivity| |reflexivity].
  do 4 (destruct p as [p|p|]; try reflexivity).
Qed.

Lemma readDigits_digit acc k s :
  0 ≤ k ≤ 9 → readDigits acc (String (digitChar k) s) = readDigits (10 * acc + k) s.
Proof. intros Hk. simpl. by rewrite digitOf_digitChar. Qed.

Lemma parseInt_digits k s :
  0 ≤ k ≤ 9 → parseInt (String (digitChar k) s) = Some (readDigits k s).
Proof.
  intros Hk. unfold parseInt.
  pose proof (digitChar_like k) as Hl. unfold digitLike in Hl.
  repeat (apply andb_true_iff in Hl as [Hl ?]).
  repeat match goal with H : negb _ = true |- _ => apply negb_true_iff in H end.
  repeat match goal with H : bool_decide _ = false |- _ => apply bool_decide_eq_false in H end.
  simpl. rewrite Hl.
  destruct (decide (digitChar k = "-"%char)); [done|].
  destruct (decide (digitChar k = "+"%char)); [done|].
  by rewrite digitOf_digitChar.
Qed.

Lemma digits_of n : 0 ≤ n ≤ 99 → 0 ≤ n / 10 ≤ 9 ∧ 0 ≤ n mod 10 ≤ 9.
Proof. intros. Z.to_euclidean_division_equations. lia. Qed.

Lemma parseInt_pad2 n : 0 ≤ n ≤ 99 → parseInt (pad2 n) = Some n.
Proof.
  intros Hn. destruct (digits_of n Hn) as [H1 H2]. unfold pad2.
  rewrite parseInt_digits by done. rewrite readDigits_digit by done. simpl.
  f_equal. Z.to_euclidean_division_equations. lia.
Qed.

Lemma twoDigits_pad2 n : 0 ≤ n ≤ 99 → Encoder.twoDigits (pad2 n) = Some n.
Proof.
  intros Hn. destruct (digits_of n Hn) as [H1 H2]. unfold pad2, Encoder.twoDigits.
  rewrite !digitOf_digitChar by done. simpl. f_equal. Z.to_euclidean_division_equations. lia.
Qed.

Lemma parseInt_pad4 y : 0 ≤ y ≤ 9999 → parseInt (pad4 y) = Some y.
Proof.
  intros Hy. unfold pad4.
  assert (0 ≤ y / 1000 ≤ 9 ∧ 0 ≤ y / 100 mod 10 ≤ 9 ∧ 0 ≤ y / 10 mod 10 ≤ 9 ∧ 0 ≤ y mod 10 ≤ 9)
    as (H1 & H2 & H3 & H4) by (Z.to_euclidean_division_equations; lia).
  rewrite parseInt_digits by done. rewrite !readDigits_digit by done. simpl.
  f_equal. Z.to_euclidean_division_equations. lia.
Qed.

Lemma allChars_pad2 p n : (∀ k, p (digitChar k) = true) → allChars p (pad2 n) = true.
Proof. intros Hp. unfold pad2. simpl. by rewrite !Hp. Qed.

Lemma allChars_pad4 p y : (∀ k, p (digitChar k) = true) → allChars p (pad4 y) = true.
Proof. intros Hp. unfold pad4. simpl. by rewrite !Hp. Qed.

End Digits.

(** *** What the encoder reads in a canonical event *)

Section EncoderLemmas.
Import Text Canonical JSDate Codec.
Lemma pad4_digits y :
  0 ≤ y ≤ 9999 →
  0 ≤ y / 1000 ≤ 9 ∧ 0 ≤ y / 100 mod 10 ≤ 9 ∧ 0 ≤ y / 10 mod 10 ≤ 9 ∧ 0 ≤ y mod 10 ≤ 9.
Proof. intros. Z.to_euclidean_division_equations. lia. Qed.

Lemma validDate_ranges y m d :
  validDate y m d → 0 ≤ y ≤ 9999 ∧ 0 ≤ m ≤ 99 ∧ 0 ≤ d ≤ 99 ∧ 1 ≤ d ≤ 31.
Proof.
  intros (Hy & Hm & Hd). pose proof (daysInMonth_le y m). lia.
Qed.

Lemma parseISODate_isoDate y m d :
  validDate y m d → Encoder.parseISODate (isoDate y m d) = Some (y, m, d).
Proof.
  intros Hv. destruct (validDate_ranges y m d Hv) as (Hy & Hm & Hd & _).
  destruct Hv as (_ & Hm' & Hd').
  destruct (pad4_digits y Hy) as (H1 & H2 & H3 & H4).
  destruct (digits_of m Hm) as [Hm1 Hm2]. destruct (digits_of d Hd) as [Hd1 Hd2].
  unfold Encoder.parseISODate.
  destruct (decide _) as [_|Hn]; [|exfalso; apply Hn; done].
  unfold isoDate, pad4, pad2, Encoder.twoDigits. simpl.
  rewrite !digitOf_digitChar by done. simpl.
  replace (100 * (10 * (y / 1000) + y / 100 mod 10) + (10 * (y / 10 mod 10) + y mod 10))
    with y by (Z.to_euclidean_division_equations; lia).
  replace (10 * (m / 10) + m mod 10) with m by (Z.to_euclidean_division_equations; lia).
  replace (10 * (d / 10) + d mod 10) with d by (Z.to_euclidean_division_equations; lia).
  replace ((1 <=? m) && (m <=? 12) && (1 <=? d) && (d <=? daysInMonth y m)) with true; [done|].
  symmetry. rewrite !andb_true_iff, !Z.leb_le. lia.
Qed.

Lemma parseClock_clockText hm :
  validClock hm → Encoder.parseClock (clockText hm) = Some (hm.1, hm.2, 0).
Proof.
  destruct hm as [h mi]. intros [Hh Hmi]. simpl in *.
  assert (Hh' : 0 ≤ h ≤ 99) by lia. assert (Hmi' : 0 ≤ mi ≤ 99) by lia.
  destruct (digits_of h Hh') as [Hh1 Hh2]. destruct (digits_of mi Hmi') as [Hm1 Hm2].
  unfold Encoder.parseClock, clockText, pad2, Encoder.twoDigits. simpl.
  rewrite !digitOf_digitChar by done. simpl.
  replace (10 * (h / 10) + h mod 10) with h by (Z.to_euclidean_division_equations; lia).
  replace (10 * (mi / 10) + mi mod 10) with mi by (Z.to_euclidean_division_equations; lia).
  replace ((h <=? 23) && (mi <=? 59)) with true; [done|].
  symmetry. rewrite !andb_true_iff, !Z.leb_le. lia.
Qed.

(** The fields of local time at the instant that stands for a local date
    and clock time. *)
Lemma fromJSDate_local tz y m d h mi :
  1 ≤ m ≤ 12 → 1 ≤ d ≤ daysInMonth y m → 0 ≤ h ≤ 23 → 0 ≤ mi ≤ 59 →
  ICAL.fromJSDate tz (toUTC tz (UTC y (m - 1) d h mi + 0 * 1000))
  = ICAL.mkTime y m d h mi 0 false.
Proof.
  intros Hm Hd Hh Hmi. unfold ICAL.fromJSDate, getFullYear, getMonth, getDate, getHours,
    getMinutes, getSeconds, LocalTime, toUTC.
  replace (UTC y (m - 1) d h mi + 0 * 1000 - tz * msPerMinute + tz * msPerMinute)
    with (daysFromCivil y m d * msPerDay + (h * 3600000 + mi * msPerMinute))
    by (rewrite UTC_civil by done; lia).
  assert (Hr : 0 ≤ h * 3600000 + mi * msPerMinute < msPerDay) by (unfold msPerMinute, msPerDay; lia).
  rewrite Day_within, TimeWithinDay_within by done. rewrite civil_roundtrip by done.
  cbn [fst snd].
  f_equal; unfold msPerMinute; Z.to_euclidean_division_equations; lia.
Qed.

(** The fields of local time at midnight UTC of a date, on a host that is
    not behind UTC. *)
Lemma fromJSDate_midnight tz y m d :
  0 ≤ tz < 1440 → 1 ≤ m ≤ 12 → 1 ≤ d ≤ daysInMonth y m →
  ICAL.asDate (ICAL.fromJSDate tz (UTC y (m - 1) d 0 0))
  = ICAL.mkTime y m d (tz / 60) (tz mod 60) 0 true.
Proof.
  intros Htz Hm Hd. unfold ICAL.asDate, ICAL.fromJSDate, getFullYear, getMonth, getDate,
    getHours, getMinutes, getSeconds, LocalTime. cbn [ICAL.year ICAL.month ICAL.day ICAL.hour ICAL.minute ICAL.second].
  replace (UTC y (m - 1) d 0 0 + tz * msPerMinute)
    with (daysFromCivil y m d * msPerDay + tz * msPerMinute)
    by (rewrite UTC_civil by done; lia).
  assert (Hr : 0 ≤ tz * msPerMinute < msPerDay) by (unfold msPerMinute, msPerDay; lia).
  rewrite Day_within, TimeWithinDay_within by done. rewrite civil_roundtrip by done.
  cbn [fst snd].
  f_equal; unfold msPerMinute; Z.to_euclidean_division_equations; lia.
Qed.

(** The following day, as the encoder computes it. *)
Lemma fromJSDate_nextDay tz y m d :
  0 ≤ tz < 1440 → 1 ≤ m ≤ 12 → 1 ≤ d ≤ daysInMonth y m →
  ICAL.asDate (ICAL.fromJSDate tz (setDate tz (UTC y (m - 1) d 0 0)
                                          (getDate tz (UTC y (m - 1) d 0 0) + 1)))
  = ICAL.mkTime (nextCivil y m d).1.1 (nextCivil y m d).1.2 (nextCivil y m d).2
                (tz / 60) (tz mod 60) 0 true.
Proof.
  intros Htz Hm Hd.
  pose proof (civil_next y m d Hm Hd) as Hnext.
  assert (Hr : 0 ≤ tz * msPerMinute < msPerDay) by (unfold msPerMinute, msPerDay; lia).
  assert (Hlocal : LocalTime tz (UTC y (m - 1) d 0 0)
                   = daysFromCivil y m d * msPerDay + tz * msPerMinute).
  { unfold LocalTime. rewrite UTC_civil by done. lia. }
  unfold ICAL.asDate, ICAL.fromJSDate, setDate, getFullYear, getMonth, getDate, getHours,
    getMinutes, getSeconds.
  cbn [ICAL.year ICAL.month ICAL.day ICAL.hour ICAL.minute ICAL.second].
  rewrite !Hlocal. rewrite !Day_within, !TimeWithinDay_within by done.
  rewrite !civil_roundtrip by done. cbn [fst snd].
  rewrite MakeDay_civil by done.
  replace (daysFromCivil y m (d + 1)) with (daysFromCivil y m d + 1)
    by (unfold daysFromCivil; lia).
  unfold LocalTime, toUTC.
  replace ((daysFromCivil y m d + 1) * msPerDay + tz * msPerMinute - tz * msPerMinute
           + tz * msPerMinute)
    with ((daysFromCivil y m d + 1) * msPerDay + tz * msPerMinute) by lia.
  rewrite !Day_within, !TimeWithinDay_within by done. rewrite Hnext.
  f_equal; unfold msPerMinute; Z.to_euclidean_division_equations; lia.
Qed.

(** The same on a host behind UTC: midnight UTC is the evening of the day
    before. *)
Lemma fromJSDate_midnight_west tz y m d :
  -1440 < tz < 0 → 1 ≤ m ≤ 12 → 2 ≤ d ≤ daysInMonth y m →
  ICAL.asDate (ICAL.fromJSDate tz (UTC y (m - 1) d 0 0))
  = ICAL.mkTime y m (d - 1) ((1440 + tz) / 60) ((1440 + tz) mod 60) 0 true.
Proof.
  intros Htz Hm Hd. unfold ICAL.asDate, ICAL.fromJSDate, getFullYear, getMonth, getDate,
    getHours, getMinutes, getSeconds, LocalTime.
  cbn [ICAL.year ICAL.month ICAL.day ICAL.hour ICAL.minute ICAL.second].
  replace (UTC y (m - 1) d 0 0 + tz * msPerMinute)
    with (daysFromCivil y m (d - 1) * msPerDay + (1440 + tz) * msPerMinute)
    by (rewrite UTC_civil by done; unfold daysFromCivil, msPerDay, msPerMinute; lia).
  assert (Hr : 0 ≤ (1440 + tz) * msPerMinute < msPerDay)
    by (unfold msPerMinute, msPerDay; lia).
  rewrite Day_within, TimeWithinDay_within by done. rewrite civil_roundtrip by lia.
  cbn [fst snd].
  f_equal; unfold msPerMinute; Z.to_euclidean_division_equations; lia.
Qed.

Lemma fromJSDate_nextDay_west tz y m d :
  -1440 < tz < 0 → 1 ≤ m ≤ 12 → 2 ≤ d ≤ daysInMonth y m →
  ICAL.asDate (ICAL.fromJSDate tz (setDate tz (UTC y (m - 1) d 0 0)
                                          (getDate tz (UTC y (m - 1) d 0 0) + 1)))
  = ICAL.mkTime y m d ((1440 + tz) / 60) ((1440 + tz) mod 60) 0 true.
Proof.
  intros Htz Hm Hd.
  assert (Hr : 0 ≤ (1440 + tz) * msPerMinute < msPerDay)
    by (unfold msPerMinute, msPerDay; lia).
  assert (Hlocal : LocalTime tz (UTC y (m - 1) d 0 0)
                   = daysFromCivil y m (d - 1) * msPerDay + (1440 + tz) * msPerMinute).
  { unfold LocalTime. rewrite UTC_civil by done.
    unfold daysFromCivil, msPerDay, msPerMinute. lia. }
  unfold ICAL.asDate, ICAL.fromJSDate, setDate, getFullYear, getMonth, getDate, getHours,
    getMinutes, getSeconds.
  cbn [ICAL.year ICAL.month ICAL.day ICAL.hour ICAL.minute ICAL.second].
  rewrite !Hlocal. rewrite !Day_within, !TimeWithinDay_within by done.
  rewrite !civil_roundtrip by lia. cbn [fst snd].
  rewrite MakeDay_civil by done.
  replace (d - 1 + 1) with d by lia.
  unfold LocalTime, toUTC.
  replace (daysFromCivil y m d * msPerDay + (1440 + tz) * msPerMinute - tz * msPerMinute
           + tz * msPerMinute)
    with (daysFromCivil y m d * msPerDay + (1440 + tz) * msPerMinute) by lia.
  rewrite !Day_within, !TimeWithinDay_within by done. rewrite civil_roundtrip by lia.
  cbn [fst snd].
  f_equal; unfold msPerMinute; Z.to_euclidean_division_equations; lia.
Qed.

End EncoderLemmas.

(** *** The lines of DTSTART and DTEND *)

Section Lines.
Import Text Canonical JSDate Codec.
Lemma yearString_four y : 1000 ≤ y ≤ 9999 → ICAL.yearString y = pad4 y.
Proof.
  intros Hy. unfold ICAL.yearString.
  replace ((1000 <=? y) && (y <=? 9999)) with true; [done|].
  symmetry. rewrite andb_true_iff, !Z.leb_le. lia.
Qed.

Lemma dateTime_line (name : string) y m d h mi :
  1000 ≤ y ≤ 9999 →
  ICAL.timeProperty name (ICAL.mkTime y m d h mi 0 false)
  = name +:+ ":" +:+ dateTimeToken y m d h mi.
Proof.
  intros Hy. unfold ICAL.timeProperty, ICAL.toString. cbn [ICAL.isDate ICAL.year ICAL.month ICAL.day ICAL.hour ICAL.minute ICAL.second].
  rewrite yearString_four by done. reflexivity.
Qed.

Lemma date_line (name : string) y m d h mi :
  1000 ≤ y ≤ 9999 →
  ICAL.timeProperty name (ICAL.mkTime y m d h mi 0 true)
  = name +:+ ";VALUE=DATE:" +:+ dateToken y m d.
Proof.
  intros Hy. unfold ICAL.timeProperty, ICAL.toString. cbn [ICAL.isDate ICAL.year ICAL.month ICAL.day ICAL.hour ICAL.minute ICAL.second].
  rewrite yearString_four by done. reflexivity.
Qed.

Lemma fold_DTSTART_dateTime y m d h mi :
  ICAL.foldline ("DTSTART" +:+ ":" +:+ dateTimeToken y m d h mi)
  = "DTSTART:" +:+ dateTimeToken y m d h mi.
Proof. reflexivity. Qed.

Lemma fold_DTEND_dateTime y m d h mi :
  ICAL.foldline ("DTEND" +:+ ":" +:+ dateTimeToken y m d h mi)
  = "DTEND:" +:+ dateTimeToken y m d h mi.
Proof. reflexivity. Qed.

Lemma fold_DTSTART_date y m d :
  ICAL.foldline ("DTSTART" +:+ ";VALUE=DATE:" +:+ dateToken y m d)
  = "DTSTART;VALUE=DATE:" +:+ dateToken y m d.
Proof. reflexivity. Qed.

Lemma fold_DTEND_date y m d :
  ICAL.foldline ("DTEND" +:+ ";VALUE=DATE:" +:+ dateToken y m d)
  = "DTEND;VALUE=DATE:" +:+ dateToken y m d.
Proof. reflexivity. Qed.

End Lines.

(** *** What the decoder reads in a token *)

Section DecoderLemmas.
Import Text Canonical JSDate Codec.
Lemma DateUTC_valid y m d h mi :
  1000 ≤ y ≤ 9999 → 1 ≤ m ≤ 12 → 1 ≤ d ≤ 31 → 0 ≤ h ≤ 23 → 0 ≤ mi ≤ 59 →
  Decoder.DateUTC (Some y) (Some (m - 1)) (Some d) (Some h) (Some mi)
  = Some (UTC y (m - 1) d h mi).
Proof.
  intros Hy Hm Hd Hh Hmi. unfold Decoder.DateUTC. cbv [mbind option_bind].
  replace ((0 <=? y) && (y <=? 99)) with false
    by (symmetry; apply andb_false_iff; right; apply Z.leb_gt; lia).
  replace (Z.abs (UTC y (m - 1) d h mi) <=? 8640000000000000) with true; [done|].
  symmetry. apply Z.leb_le. rewrite UTC_civil by done.
  pose proof (daysFromCivil_bounds y m d Hy Hm Hd). unfold msPerDay, msPerMinute. lia.
Qed.

Lemma validDate_day y m d : validDate y m d → 1 ≤ d ≤ 31.
Proof. intros (_ & _ & Hd). pose proof (daysInMonth_le y m). lia. Qed.

Lemma parseStamp_date y m d :
  validDate y m d →
  Decoder.parseStamp (dateToken y m d) = Some (Some (UTC y (m - 1) d 0 0)).
Proof.
  intros Hv. pose proof (validDate_day y m d Hv) as Hd31. destruct Hv as (Hy & Hm & Hd).
  unfold Decoder.parseStamp.
  change (substring 0 4 (dateToken y m d)) with (pad4 y).
  change (substring 4 6 (dateToken y m d)) with (pad2 m).
  change (substring 6 8 (dateToken y m d)) with (pad2 d).
  rewrite parseInt_pad4 by lia. rewrite !parseInt_pad2 by lia.
  destruct (decide _) as [_|Hn]; [|by exfalso; apply Hn].
  f_equal. apply DateUTC_valid; lia.
Qed.

Lemma parseStamp_dateTime y m d hm :
  validDate y m d → validClock hm →
  Decoder.parseStamp (dateTimeToken y m d hm.1 hm.2)
  = Some (Some (UTC y (m - 1) d hm.1 hm.2)).
Proof.
  intros Hv [Hh Hmi]. pose proof (validDate_day y m d Hv) as Hd31.
  destruct Hv as (Hy & Hm & Hd). destruct hm as [h mi]. cbn [fst snd] in *.
  unfold Decoder.parseStamp.
  change (substring 0 4 (dateTimeToken y m d h mi)) with (pad4 y).
  change (substring 4 6 (dateTimeToken y m d h mi)) with (pad2 m).
  change (substring 6 8 (dateTimeToken y m d h mi)) with (pad2 d).
  change (substring 9 11 (dateTimeToken y m d h mi)) with (pad2 h).
  change (substring 11 13 (dateTimeToken y m d h mi)) with (pad2 mi).
  rewrite parseInt_pad4 by lia.
  assert (Ho : ∀ n, Decoder.orZero (pad2 n) = pad2 n).
  { intros n. unfold Decoder.orZero. by destruct (decide _). }
  rewrite !Ho. rewrite !parseInt_pad2 by lia.
  destruct (decide (String.length (dateTimeToken y m d h mi) = 8%nat)) as [Hn|_];
    [by exfalso|].
  destruct (decide _) as [_|Hn]; [|exfalso; apply Hn; cbv; lia].
  f_equal. apply DateUTC_valid; lia.
Qed.

Lemma toISODate_UTC y m d hm :
  validDate y m d → validClock hm →
  Decoder.toISODate (UTC y (m - 1) d hm.1 hm.2) = isoDate y m d.
Proof.
  intros (Hy & Hm & Hd) [Hh Hmi]. unfold Decoder.toISODate.
  rewrite UTC_civil by done.
  rewrite Day_within by (unfold msPerDay, msPerMinute; lia).
  rewrite civil_roundtrip by done.
  replace ((0 <=? y) && (y <=? 9999)) with true; [done|].
  symmetry. rewrite andb_true_iff, !Z.leb_le. lia.
Qed.

Lemma toClock_UTC y m d hm :
  1 ≤ m ≤ 12 → validClock hm →
  Decoder.toClock (Some (UTC y (m - 1) d hm.1 hm.2)) = clockText hm.
Proof.
  intros Hm [Hh Hmi]. unfold Decoder.toClock, clockText, getUTCHours, getUTCMinutes.
  rewrite UTC_civil by done.
  rewrite TimeWithinDay_within by (unfold msPerDay, msPerMinute; lia).
  f_equal; [|f_equal]; f_equal; unfold msPerMinute; Z.to_euclidean_division_equations; lia.
Qed.

Lemma tokenChar_digit k : tokenChar (digitChar k) = true.
Proof.
  pose proof (digitChar_like k) as H. unfold digitLike in H. unfold tokenChar.
  repeat (apply andb_true_iff in H as [H ?]). by rewrite H, !andb_true_l, andb_true_iff.
Qed.

Lemma dateToken_chars y m d : allChars tokenChar (dateToken y m d) = true.
Proof.
  unfold dateToken. rewrite !allChars_app.
  rewrite allChars_pad4, !allChars_pad2 by apply tokenChar_digit. done.
Qed.

Lemma dateTimeToken_chars y m d h mi : allChars tokenChar (dateTimeToken y m d h mi) = true.
Proof.
  unfold dateTimeToken. rewrite !allChars_app.
  rewrite allChars_pad4, !allChars_pad2 by apply tokenChar_digit. done.
Qed.

Lemma trimEnd_id s : allChars (fun c => negb (isSpace c)) s = true → trimEnd s = s.
Proof.
  induction s as [|c s IH]; [done|]. intros H. simpl in H.
  apply andb_true_iff in H as [Hc Hs]. apply negb_true_iff in Hc.
  simpl. rewrite (IH Hs). rewrite Hc. by destruct s.
Qed.

Lemma trim_id s : allChars (fun c => negb (isSpace c)) s = true → trim s = s.
Proof.
  intros H. unfold trim.
  assert (trimStart s = s) as ->.
  { destruct s as [|c s]; [done|]. simpl in *. apply andb_true_iff in H as [Hc _].
    apply negb_true_iff in Hc. by rewrite Hc. }
  by apply trimEnd_id.
Qed.

Lemma tokenChar_facts s :
  allChars tokenChar s = true →
  allChars (fun c => negb (isSpace c)) s = true
  ∧ allChars (fun c => negb (isLineBreak c)) s = true
  ∧ freeOfColon s = true.
Proof.
  intros H. repeat split; revert H; apply allChars_impl; intros c Hc; unfold tokenChar in Hc;
    repeat (apply andb_true_iff in Hc as [Hc ?]); done.
Qed.

End DecoderLemmas.

(** *** Escaping, folding and joining *)

Section Assembly.
Import Text Canonical JSDate Codec.
(** *** The text of an encoded event *)

Lemma escapeText_plain s : allChars uidChar s = true → ICAL.escapeText s = s.
Proof.
  induction s as [|c s IH]; [done|]. intros H. simpl in H.
  apply andb_true_iff in H as [Hc Hs]. unfold uidChar, isLineBreak in Hc.
  repeat (apply andb_true_iff in Hc as [Hc ?]).
  repeat match goal with H : negb _ = true |- _ => apply negb_true_iff in H end.
  apply orb_false_iff in Hc as [_ Hlf].
  repeat match goal with H : bool_decide _ = false |- _ => apply bool_decide_eq_false in H end.
  simpl. destruct (decide _) as [[?|[?|?]]|_]; [done..|].
  destruct (decide (c = LF)); [done|]. by rewrite IH.
Qed.

Lemma foldFrom_short col s :
  (col + String.length s ≤ 75)%nat → ICAL.foldFrom col s = s.
Proof.
  revert col. induction s as [|c s IH]; intros col Hlen; [done|]. simpl in *.
  destruct (col <? 75)%nat eqn:E; [|apply Nat.ltb_ge in E; lia].
  rewrite IH by lia. done.
Qed.

Lemma freeOfColon_escapeText s : freeOfColon s = true → freeOfColon (ICAL.escapeText s) = true.
Proof.
  unfold freeOfColon. induction s as [|c s IH]; [done|]. intros H. simpl in H.
  apply andb_true_iff in H as [Hc Hs]. simpl.
  destruct (decide _); [simpl; by rewrite Hc, IH|].
  destruct (decide (c = LF)); simpl; [by rewrite IH | by rewrite Hc, IH].
Qed.

Lemma freeOfColon_foldFrom col s : freeOfColon s = true → freeOfColon (ICAL.foldFrom col s) = true.
Proof.
  unfold freeOfColon. revert col. induction s as [|c s IH]; intros col H; [done|].
  simpl in H. apply andb_true_iff in H as [Hc Hs]. simpl.
  destruct (col <? 75)%nat; simpl; by rewrite Hc, IH.
Qed.

Lemma joinLines_prepend (a b : string) (ls : list string) :
  foldl (fun acc x => acc +:+ CRLF +:+ x) (a +:+ b) ls
  = a +:+ foldl (fun acc x => acc +:+ CRLF +:+ x) b ls.
Proof.
  revert b. induction ls as [|x ls IH]; intros b; [done|].
  cbn [foldl]. rewrite append_assoc_string. apply IH.
Qed.

Lemma joinLines_cons (l l2 : string) (ls : list string) :
  Encoder.joinLines (l :: l2 :: ls) = l +:+ CRLF +:+ Encoder.joinLines (l2 :: ls).
Proof.
  unfold Encoder.joinLines. cbn [foldl].
  rewrite joinLines_prepend. f_equal. apply (joinLines_prepend CRLF l2 ls).
Qed.

Lemma joinLines_one (l : string) : Encoder.joinLines [l] = l.
Proof. done. Qed.

End Assembly.

(** *** Texts the search passes over *)

Section Quiet.
Import Text Canonical Codec.
Lemma wordChar_facts c :
  wordChar c = true →
  c ≠ CR ∧ c ≠ LF ∧ c ≠ ":"%char ∧ c ≠ ";"%char ∧ c ≠ " "%char ∧ c ≠ "\"%char
  ∧ c ≠ ","%char ∧ c ≠ "n"%char.
Proof.
  unfold wordChar, nameChar, isLineBreak. intros H.
  repeat (apply andb_true_iff in H as [H ?]).
  repeat match goal with H : negb _ = true |- _ => apply negb_true_iff in H end.
  apply orb_false_iff in H as [? ?].
  repeat match goal with H : bool_decide _ = false |- _ => apply bool_decide_eq_false in H end.
  done.
Qed.

Lemma wordChar_nameChar name : allChars wordChar name = true → allChars nameChar name = true.
Proof.
  apply allChars_impl. unfold wordChar. intros c H.
  by do 4 (apply andb_true_iff in H as [H _]).
Qed.

Lemma stripPrefix_line (name S rest : string) :
  allChars nameChar name = true →
  stripPrefix name (S +:+ CRLF +:+ rest) = (fun r => r +:+ CRLF +:+ rest) <$> stripPrefix name S.
Proof.
  revert S. induction name as [|a name IH]; intros S Hname; [done|].
  simpl in Hname. apply andb_true_iff in Hname as [Ha Hname].
  destruct S as [|b S].
  - unfold nameChar, isLineBreak in Ha.
    apply andb_true_iff in Ha as [Ha _]. apply andb_true_iff in Ha as [Ha _].
    apply negb_true_iff, orb_false_iff in Ha as [H1 _]. apply bool_decide_eq_false in H1.
    simpl. by destruct (decide (a = CR)).
  - rewrite append_cons. simpl. destruct (decide (a = b)); [by apply IH | done].
Qed.

Lemma stripPrefix_self (name rest : string) : stripPrefix name (name +:+ rest) = Some rest.
Proof.
  induction name as [|a name IH]; [done|]. rewrite append_cons. simpl.
  by destruct (decide (a = a)).
Qed.

Lemma stripPrefix_foldFrom (name s R : string) col :
  allChars wordChar name = true →
  stripPrefix name (ICAL.foldFrom col s) = Some R →
  ∃ r col', stripPrefix name s = Some r ∧ R = ICAL.foldFrom col' r.
Proof.
  revert s col. induction name as [|a name IH]; intros s col Hname Hs.
  - simpl in Hs. injection Hs as <-. by exists s, col.
  - simpl in Hname. apply andb_true_iff in Hname as [Ha Hname].
    apply wordChar_facts in Ha. destruct s as [|c s]; [done|].
    simpl in Hs. destruct (col <? 75)%nat.
    + simpl in Hs. simpl. destruct (decide (a = c)); [|done]. by eapply IH.
    + simpl in Hs. destruct (decide (a = CR)); [tauto | done].
Qed.

Lemma stripPrefix_escapeText (name s R : string) :
  allChars wordChar name = true →
  stripPrefix name (ICAL.escapeText s) = Some R →
  ∃ r, stripPrefix name s = Some r ∧ R = ICAL.escapeText r.
Proof.
  revert s. induction name as [|a name IH]; intros s Hname Hs.
  - simpl in Hs. injection Hs as <-. by exists s.
  - simpl in Hname. apply andb_true_iff in Hname as [Ha Hname].
    apply wordChar_facts in Ha. destruct s as [|c s]; [done|].
    simpl in Hs. destruct (decide (_ ∨ _)).
    + simpl in Hs. destruct (decide (a = "\"%char)); [tauto | done].
    + destruct (decide (c = LF)).
      * simpl in Hs. destruct (decide (a = "\"%char)); [tauto | done].
      * simpl in Hs. simpl. destruct (decide (a = c)); [|done]. by eapply IH.
Qed.

Lemma quiet_cons name c s :
  quiet name (String c s)
  = from_option freeOfColon true (stripPrefix name (String c s)) && quiet name s.
Proof. reflexivity. Qed.

Lemma quiet_head name s :
  quiet name s = true → from_option freeOfColon true (stripPrefix name s) = true.
Proof. destruct s; simpl; by intros [? ?]%andb_true_iff. Qed.

Lemma stripPrefix_other a name c s : a ≠ c → stripPrefix (String a name) (String c s) = None.
Proof. intros. simpl. by destruct (decide (a = c)). Qed.

Lemma quiet_foldFrom name s col :
  name ≠ "" → allChars wordChar name = true →
  quiet name s = true → quiet name (ICAL.foldFrom col s) = true.
Proof.
  intros Hne Hname. revert col. induction s as [|c s IH]; intros col Hq.
  - destruct name; done.
  - assert (Hhead : ∀ col', from_option freeOfColon true
                      (stripPrefix name (ICAL.foldFrom col' (String c s))) = true).
    { intros col'. destruct (stripPrefix name (ICAL.foldFrom col' _)) as [R|] eqn:E; [|done].
      apply stripPrefix_foldFrom in E as (r & col'' & Hr & ->); [|done].
      apply quiet_head in Hq. rewrite Hr in Hq. simpl in *.
      by apply freeOfColon_foldFrom. }
    rewrite quiet_cons in Hq. apply andb_true_iff in Hq as [_ Hq].
    destruct name as [|a name]; [done|].
    pose proof Hname as Hname'. simpl in Hname'. apply andb_true_iff in Hname' as [Ha _].
    apply wordChar_facts in Ha as (? & ? & ? & ? & ? & ? & ? & ?).
    pose proof (Hhead col) as Hcol. pose proof (Hhead 0%nat) as Hzero.
    cbn [ICAL.foldFrom] in *. change (0 <? 75)%nat with true in Hzero. cbv iota in Hzero.
    destruct (col <? 75)%nat.
    + rewrite quiet_cons, Hcol, IH; done.
    + change (CRLF +:+ String " " (String c (ICAL.foldFrom 1 s)))
        with (String CR (String LF (String " " (String c (ICAL.foldFrom 1 s))))).
      rewrite !quiet_cons, !stripPrefix_other by done.
      rewrite (IH 1%nat Hq), Hzero. done.
Qed.

Lemma quiet_escapeText name s :
  name ≠ "" → allChars wordChar name = true →
  quiet name s = true → quiet name (ICAL.escapeText s) = true.
Proof.
  intros Hne Hname. induction s as [|c s IH]; intros Hq.
  - destruct name; done.
  - assert (Hhead : from_option freeOfColon true
                      (stripPrefix name (ICAL.escapeText (String c s))) = true).
    { destruct (stripPrefix name (ICAL.escapeText _)) as [R|] eqn:E; [|done].
      apply stripPrefix_escapeText in E as (r & Hr & ->); [|done].
      apply quiet_head in Hq. rewrite Hr in Hq. simpl in *.
      by apply freeOfColon_escapeText. }
    rewrite quiet_cons in Hq. apply andb_true_iff in Hq as [_ Hq].
    destruct name as [|a name]; [done|].
    pose proof Hname as Hname'. simpl in Hname'. apply andb_true_iff in Hname' as [Ha _].
    apply wordChar_facts in Ha as (? & ? & ? & ? & ? & ? & ? & ?).
    cbn [ICAL.escapeText] in *.
    destruct (decide (_ ∨ _)) as [Hc|_].
    + rewrite !quiet_cons, (stripPrefix_other a name "\"%char) by done.
      rewrite (stripPrefix_other a name c) by (intros ->; tauto).
      by rewrite IH.
    + destruct (decide (c = LF)).
      * rewrite !quiet_cons, !stripPrefix_other by done. by rewrite IH.
      * rewrite quiet_cons, Hhead, IH; done.
Qed.

Section Skipping.
Context (capture : string → string).

(** A block of text in which no colon comes after the name is passed over
    by the search. *)
Lemma matchProperty_skip_quiet (name B rest : string) :
  name ≠ "" → allChars nameChar name = true → quiet name B = true →
  matchProperty capture name (B +:+ CRLF +:+ rest) = matchProperty capture name rest.
Proof.
  intros Hne Hname. induction B as [|c B IH]; intros Hq.
  - apply (matchProperty_skip_block capture name "" rest); done.
  - rewrite append_cons, matchProperty_cons.
    change (String c (B +:+ CRLF +:+ rest)) with (String c B +:+ CRLF +:+ rest).
    unfold matchHere. rewrite stripPrefix_line by done.
    pose proof (quiet_head _ _ Hq) as Hhead.
    rewrite quiet_cons in Hq. apply andb_true_iff in Hq as [_ Hq].
    destruct (stripPrefix name (String c B)) as [r|]; simpl.
    + simpl in Hhead. rewrite afterName_block by done. by apply IH.
    + by apply IH.
Qed.

(** The search finds the value of a line that starts with the name. *)
Lemma matchLine_here (name v rest : string) :
  v ≠ "" → allChars (fun c => negb (isLineBreak c)) v = true →
  matchLine name (name +:+ ":" +:+ v +:+ CRLF +:+ rest) = Some v.
Proof.
  intros Hv Hline. unfold matchLine.
  assert (Hhere : matchHere restOfLine name (name +:+ ":" +:+ v +:+ CRLF +:+ rest) = Some v).
  { unfold matchHere. rewrite stripPrefix_self.
    change (afterName restOfLine (String ":" (v +:+ CRLF +:+ rest)) = Some v).
    unfold afterName.
    destruct (decide (":"%char = ";"%char)) as [E|_]; [discriminate E|].
    destruct (decide (":"%char = ":"%char)); [|done].
    rewrite restOfLine_app by done. by destruct v. }
  destruct (name +:+ _) eqn:E; simpl; rewrite Hhere; done.
Qed.

Lemma lazyColon_value (v rest : string) :
  v ≠ "" → allChars (fun c => negb (isLineBreak c)) v = true →
  lazyColon restOfLine ("VALUE=DATE:" +:+ v +:+ CRLF +:+ rest) = Some v.
Proof.
  intros Hv Hline.
  assert (Hcolon : lazyColon restOfLine (String ":" (v +:+ CRLF +:+ rest)) = Some v).
  { cbn [lazyColon]. change (isLineBreak ":") with false. cbv iota.
    destruct (decide (":"%char = ":"%char)); [|done].
    rewrite restOfLine_app by done. by destruct v. }
  exact Hcolon.
Qed.

Lemma matchLine_here_date (name v rest : string) :
  v ≠ "" → allChars (fun c => negb (isLineBreak c)) v = true →
  matchLine name (name +:+ ";VALUE=DATE:" +:+ v +:+ CRLF +:+ rest) = Some v.
Proof.
  intros Hv Hline. unfold matchLine.
  assert (Hhere : matchHere restOfLine name
                    (name +:+ ";VALUE=DATE:" +:+ v +:+ CRLF +:+ rest) = Some v).
  { unfold matchHere. rewrite stripPrefix_self.
    change (afterName restOfLine
              (String ";" ("VALUE=DATE:" +:+ v +:+ CRLF +:+ rest)) = Some v).
    unfold afterName.
    destruct (decide (";"%char = ";"%char)); [|done].
    by apply lazyColon_value. }
  destruct (name +:+ _) eqn:E; simpl; rewrite Hhere; done.
Qed.

End Skipping.

End Quiet.

(** *** The date lines of a canonical event *)

Section DateLines.
Import Text Canonical JSDate Codec.
Lemma truthy_isoDate y m d : JS.truthy (Some (isoDate y m d)) = Some (isoDate y m d).
Proof. unfold JS.truthy. by destruct (decide _). Qed.

Lemma truthy_clockText hm : JS.truthy (Some (clockText hm)) = Some (clockText hm).
Proof. unfold JS.truthy. by destruct (decide _). Qed.

Lemma newDateTime_canonical tz y m d hm :
  validDate y m d → validClock hm →
  Encoder.newDateTime tz (isoDate y m d) (clockText hm)
  = Some (toUTC tz (UTC y (m - 1) d hm.1 hm.2 + 0 * 1000)).
Proof.
  intros Hd Hc. unfold Encoder.newDateTime.
  rewrite parseISODate_isoDate, parseClock_clockText by done. reflexivity.
Qed.

Lemma timeLine_DTSTART tz y m d hm :
  validDate y m d → validClock hm →
  ICAL.foldline (ICAL.timeProperty "DTSTART"
     (ICAL.fromJSDate tz (toUTC tz (UTC y (m - 1) d hm.1 hm.2 + 0 * 1000))))
  = "DTSTART:" +:+ dateTimeToken y m d hm.1 hm.2.
Proof.
  intros (Hy & Hm & Hd) (Hh & Hmi).
  rewrite fromJSDate_local, dateTime_line by done. apply fold_DTSTART_dateTime.
Qed.

Lemma timeLine_DTEND tz y m d hm :
  validDate y m d → validClock hm →
  ICAL.foldline (ICAL.timeProperty "DTEND"
     (ICAL.fromJSDate tz (toUTC tz (UTC y (m - 1) d hm.1 hm.2 + 0 * 1000))))
  = "DTEND:" +:+ dateTimeToken y m d hm.1 hm.2.
Proof.
  intros (Hy & Hm & Hd) (Hh & Hmi).
  rewrite fromJSDate_local, dateTime_line by done. apply fold_DTEND_dateTime.
Qed.

(** The lines of an event with both clock times, whatever the offset of
    the host. *)
Lemma dateLines_timed tz title memo uid y m d s e :
  validDate y m d → validClock s → validClock e →
  Encoder.dateLines tz (event title memo uid y m d (Some s) (Some e))
  = Some ["DTSTART:" +:+ dateTimeToken y m d s.1 s.2;
          "DTEND:" +:+ dateTimeToken y m d e.1 e.2].
Proof.
  intros Hd Hs He. unfold Encoder.dateLines, event.
  cbn [pe_date pe_startTime pe_endTime fmap option_fmap option_map].
  rewrite truthy_isoDate, !truthy_clockText.
  rewrite !newDateTime_canonical by done.
  cbn [mbind option_bind].
  by rewrite timeLine_DTSTART, timeLine_DTEND.
Qed.

Lemma nextCivil_cases y m d :
  validDate y m d →
  (1000 ≤ (nextCivil y m d).1.1 ≤ 9999)
  ∨ nextCivil y m d = (10000, 1, 1).
Proof.
  intros (Hy & Hm & Hd). unfold nextCivil.
  destruct (d <? daysInMonth y m); [left; simpl; lia|].
  destruct (m <? 12) eqn:E; [left; simpl; lia|].
  destruct (decide (y = 9999)) as [->|]; [by right | left; simpl; lia].
Qed.

(** An event without both clock times is written as an all-day event, on
    the next two branches of [dateLines]. *)
Lemma dateLines_dateOnly tz e date :
  JS.truthy (pe_date e) = Some date →
  JS.truthy (pe_startTime e) = None ∨ JS.truthy (pe_endTime e) = None →
  Encoder.dateLines tz e
  = (start ← Encoder.newDateOnly date;
     let nextDay := setDate tz start (getDate tz start + 1) in
     Some [ICAL.foldline (ICAL.timeProperty "DTSTART" (ICAL.asDate (ICAL.fromJSDate tz start)));
           ICAL.foldline (ICAL.timeProperty "DTEND" (ICAL.asDate (ICAL.fromJSDate tz nextDay)))]).
Proof.
  intros Hdate Htimes. unfold Encoder.dateLines. rewrite Hdate.
  destruct (JS.truthy (pe_startTime e)), (JS.truthy (pe_endTime e)); try reflexivity.
  by destruct Htimes.
Qed.

(** The lines of an all-day event on a host at or ahead of UTC: the date,
    and as DTEND the following day, a value that is no date-time. *)
Lemma dateLines_allDay tz e y m d :
  validDate y m d → 0 ≤ tz < 1440 →
  pe_date e = Some (isoDate y m d) →
  JS.truthy (pe_startTime e) = None ∨ JS.truthy (pe_endTime e) = None →
  ∃ v, Encoder.dateLines tz e
       = Some ["DTSTART;VALUE=DATE:" +:+ dateToken y m d; "DTEND;VALUE=DATE:" +:+ v]
     ∧ allChars tokenChar v = true ∧ v ≠ ""
     ∧ ((String.length v ≤ 8)%nat ∨ Decoder.parseStamp v = None)
     ∧ ((nextCivil y m d).1.1 ≤ 9999 →
        v = dateToken (nextCivil y m d).1.1 (nextCivil y m d).1.2 (nextCivil y m d).2).
Proof.
  intros Hd Htz Hdate Htimes. pose proof Hd as (Hy & Hm & Hday).
  rewrite (dateLines_dateOnly tz e (isoDate y m d))
    by (done || rewrite Hdate; apply truthy_isoDate).
  unfold Encoder.newDateOnly. rewrite parseISODate_isoDate by done.
  cbn [mbind option_bind].
  rewrite fromJSDate_midnight, fromJSDate_nextDay by done.
  rewrite date_line, fold_DTSTART_date by done.
  destruct (nextCivil_cases y m d Hd) as [Hnext|Hnext].
  - exists (dateToken (nextCivil y m d).1.1 (nextCivil y m d).1.2 (nextCivil y m d).2).
    rewrite date_line, fold_DTEND_date by done.
    split; [done|]. split; [apply dateToken_chars|]. split; [done|]. split; [by left|done].
  - rewrite Hnext. exists "10000-01-01".
    split; [done|]. split; [done|]. split; [done|]. split; [by right|]. simpl. lia.
Qed.

(** On a host behind UTC the same event is written a day early. *)
Lemma dateLines_allDay_west tz e y m d :
  validDate y m d → 2 ≤ d → -1440 < tz < 0 →
  pe_date e = Some (isoDate y m d) →
  JS.truthy (pe_startTime e) = None ∨ JS.truthy (pe_endTime e) = None →
  Encoder.dateLines tz e
  = Some ["DTSTART;VALUE=DATE:" +:+ dateToken y m (d - 1);
          "DTEND;VALUE=DATE:" +:+ dateToken y m d].
Proof.
  intros Hd Hd2 Htz Hdate Htimes. pose proof Hd as (Hy & Hm & Hday).
  rewrite (dateLines_dateOnly tz e (isoDate y m d))
    by (done || rewrite Hdate; apply truthy_isoDate).
  unfold Encoder.newDateOnly. rewrite parseISODate_isoDate by done.
  cbn [mbind option_bind].
  rewrite fromJSDate_midnight_west, fromJSDate_nextDay_west by lia.
  by rewrite !date_line, fold_DTSTART_date, fold_DTEND_date by done.
Qed.

End DateLines.

(** *** The encoded text and the three searches *)

Section RoundTrip.
Import Text Canonical JSDate Codec.
Lemma textProperty_SUMMARY t :
  ICAL.textProperty "SUMMARY" t = "SUMMARY:" +:+ ICAL.foldFrom 8 (ICAL.escapeText t).
Proof. reflexivity. Qed.

Lemma textProperty_DESCRIPTION t :
  ICAL.textProperty "DESCRIPTION" t = "DESCRIPTION:" +:+ ICAL.foldFrom 12 (ICAL.escapeText t).
Proof. reflexivity. Qed.

Lemma plainUid_facts uid :
  plainUid uid = true →
  uid ≠ "" ∧ (String.length uid ≤ 71)%nat ∧ allChars uidChar uid = true ∧ trim uid = uid.
Proof.
  unfold plainUid. intros H. repeat (apply andb_true_iff in H as [H ?]).
  apply negb_true_iff, bool_decide_eq_false in H.
  repeat match goal with H : bool_decide _ = true |- _ => apply bool_decide_eq_true in H end.
  done.
Qed.

Lemma textProperty_UID uid : plainUid uid = true → ICAL.textProperty "UID" uid = "UID:" +:+ uid.
Proof.
  intros (_ & Hlen & Hchars & _)%plainUid_facts.
  unfold ICAL.textProperty, ICAL.foldline. rewrite escapeText_plain by done.
  change (ICAL.foldFrom 0 ("UID" +:+ ":" +:+ uid)) with ("UID:" +:+ ICAL.foldFrom 4 uid).
  rewrite foldFrom_short by lia. done.
Qed.

Lemma truthy_plainUid uid : plainUid uid = true → JS.truthy (Some uid) = Some uid.
Proof.
  intros (Hne & _)%plainUid_facts. unfold JS.truthy. by destruct (decide _).
Qed.

(** The text written for an event whose date lines are [startLine] and
    [endLine]. *)
Lemma serialize_text tz now generatedUid (e : PartialEvent) uid startLine endLine :
  pe_caldavUid e = Some uid → plainUid uid = true →
  Encoder.dateLines tz e = Some [startLine; endLine] →
  ∃ tail,
    Encoder.serializeEventToICS tz now generatedUid e
    = Some (encodedText (writtenTitle (pe_title e)) (writtenMemo (pe_memo e)) uid
                        startLine endLine tail).
Proof.
  intros Hu Huid Hlines. unfold Encoder.serializeEventToICS.
  rewrite Hlines, Hu. cbn [mbind option_bind]. rewrite truthy_plainUid by done.
  cbn [default from_option id app].
  rewrite textProperty_UID, textProperty_SUMMARY, textProperty_DESCRIPTION by done.
  eexists. apply (f_equal Some). rewrite !joinLines_cons, joinLines_one.
  unfold encodedText, prelude, writtenTitle, writtenMemo.
  rewrite !append_assoc_string. reflexivity.
Qed.

Lemma search_UID B1 B2 uid startLine endLine tail :
  quiet "UID" B1 = true → quiet "UID" B2 = true →
  uid ≠ "" → allChars (fun c => negb (isLineBreak c)) uid = true →
  matchLine "UID" (encodedText B1 B2 uid startLine endLine tail) = Some uid.
Proof.
  intros HB1 HB2 Hne Hline. unfold encodedText, matchLine.
  rewrite (matchProperty_skip_prefix restOfLine "UID" prelude) by reflexivity.
  rewrite (matchProperty_skip_quiet restOfLine "UID" B1) by done.
  rewrite (matchProperty_skip_prefix restOfLine "UID" "DESCRIPTION:") by reflexivity.
  rewrite (matchProperty_skip_quiet restOfLine "UID" B2) by done.
  by apply (matchLine_here "UID" uid).
Qed.

Lemma search_DTSTART B1 B2 uid startLine endLine tail :
  quiet "DTSTART" B1 = true → quiet "DTSTART" B2 = true → freeOfColon uid = true →
  matchLine "DTSTART" (encodedText B1 B2 uid startLine endLine tail)
  = matchLine "DTSTART" (startLine +:+ CRLF +:+ endLine +:+ CRLF +:+ tail).
Proof.
  intros HB1 HB2 Hfree. unfold encodedText, matchLine.
  rewrite (matchProperty_skip_prefix restOfLine "DTSTART" prelude) by reflexivity.
  rewrite (matchProperty_skip_quiet restOfLine "DTSTART" B1) by done.
  rewrite (matchProperty_skip_prefix restOfLine "DTSTART" "DESCRIPTION:") by reflexivity.
  rewrite (matchProperty_skip_quiet restOfLine "DTSTART" B2) by done.
  rewrite (matchProperty_skip_prefix restOfLine "DTSTART" "UID:") by reflexivity.
  by rewrite (matchProperty_skip_block restOfLine "DTSTART" uid).
Qed.

Lemma search_DTEND B1 B2 uid (P v : string) endLine tail :
  quiet "DTEND" B1 = true → quiet "DTEND" B2 = true → freeOfColon uid = true →
  noStart "DTEND" P = true → freeOfColon v = true →
  matchLine "DTEND" (encodedText B1 B2 uid (P +:+ v) endLine tail)
  = matchLine "DTEND" (endLine +:+ CRLF +:+ tail).
Proof.
  intros HB1 HB2 Hfree HP Hv. unfold encodedText, matchLine.
  rewrite (matchProperty_skip_prefix restOfLine "DTEND" prelude) by reflexivity.
  rewrite (matchProperty_skip_quiet restOfLine "DTEND" B1) by done.
  rewrite (matchProperty_skip_prefix restOfLine "DTEND" "DESCRIPTION:") by reflexivity.
  rewrite (matchProperty_skip_quiet restOfLine "DTEND" B2) by done.
  rewrite (matchProperty_skip_prefix restOfLine "DTEND" "UID:") by reflexivity.
  rewrite (matchProperty_skip_block restOfLine "DTEND" uid) by done.
  rewrite append_assoc_string.
  rewrite (matchProperty_skip_prefix restOfLine "DTEND" P) by done.
  by rewrite (matchProperty_skip_block restOfLine "DTEND" v).
Qed.

Lemma plainText_written name (t : string) col :
  name ≠ "" → allChars wordChar name = true →
  quiet name t = true → quiet name (ICAL.foldFrom col (ICAL.escapeText t)) = true.
Proof. intros. by apply quiet_foldFrom, quiet_escapeText. Qed.

Lemma plainText_facts s :
  plainText s = true → quiet "UID" s = true ∧ quiet "DTSTART" s = true ∧ quiet "DTEND" s = true.
Proof.
  unfold plainText. intros H. apply andb_true_iff in H as [H ?].
  by apply andb_true_iff in H as [? ?].
Qed.

Lemma plainText_title title :
  plainText (JS.orEmpty title) = true →
  plainText (default "새로운 일정" (JS.truthy title)) = true.
Proof.
  destruct title as [t|]; [|done]. unfold JS.truthy. simpl.
  by destruct (decide (t = "")).
Qed.

Lemma written_quiet name title memo :
  name ≠ "" → allChars wordChar name = true →
  quiet name (default "새로운 일정" (JS.truthy title)) = true →
  quiet name (JS.orEmpty memo) = true →
  quiet name (writtenTitle title) = true ∧ quiet name (writtenMemo memo) = true.
Proof. intros. split; by apply plainText_written. Qed.

Lemma uidChar_facts uid :
  allChars uidChar uid = true →
  allChars (fun c => negb (isLineBreak c)) uid = true ∧ freeOfColon uid = true.
Proof.
  intros H. split; revert H; apply allChars_impl; unfold uidChar; intros c H;
    repeat (apply andb_true_iff in H as [H ?]); done.
Qed.

Lemma length_dateToken y m d : String.length (dateToken y m d) = 8%nat.
Proof. reflexivity. Qed.

Lemma length_dateTimeToken y m d h mi : String.length (dateTimeToken y m d h mi) = 15%nat.
Proof. reflexivity. Qed.

Lemma truthy_nonempty v : v ≠ "" → JS.truthy (Some v) = Some v.
Proof. intros. unfold JS.truthy. by destruct (decide _). Qed.

End RoundTrip.

(** *** Decoding the encoded text *)

Section RoundTripTheorems.
Import Text Canonical JSDate Codec.
Lemma matchLine_DTSTART v rest :
  v ≠ "" → allChars (fun c => negb (isLineBreak c)) v = true →
  matchLine "DTSTART" ("DTSTART:" +:+ v +:+ CRLF +:+ rest) = Some v.
Proof. apply (matchLine_here "DTSTART"). Qed.

Lemma matchLine_DTEND v rest :
  v ≠ "" → allChars (fun c => negb (isLineBreak c)) v = true →
  matchLine "DTEND" ("DTEND:" +:+ v +:+ CRLF +:+ rest) = Some v.
Proof. apply (matchLine_here "DTEND"). Qed.

Lemma matchLine_DTSTART_date v rest :
  v ≠ "" → allChars (fun c => negb (isLineBreak c)) v = true →
  matchLine "DTSTART" ("DTSTART;VALUE=DATE:" +:+ v +:+ CRLF +:+ rest) = Some v.
Proof. apply (matchLine_here_date "DTSTART"). Qed.

Lemma matchLine_DTEND_date v rest :
  v ≠ "" → allChars (fun c => negb (isLineBreak c)) v = true →
  matchLine "DTEND" ("DTEND;VALUE=DATE:" +:+ v +:+ CRLF +:+ rest) = Some v.
Proof. apply (matchLine_here_date "DTEND"). Qed.

Lemma dateTimeToken_nonempty y m d h mi : dateTimeToken y m d h mi ≠ "".
Proof. done. Qed.

Lemma dateToken_nonempty y m d : dateToken y m d ≠ "".
Proof. done. Qed.

Lemma decode_timed B1 B2 uid y m d s e tail defaultColor :
  plainUid uid = true → validDate y m d → validClock s → validClock e →
  quiet "UID" B1 = true → quiet "DTSTART" B1 = true → quiet "DTEND" B1 = true →
  quiet "UID" B2 = true → quiet "DTSTART" B2 = true → quiet "DTEND" B2 = true →
  ∃ decoded,
    Decoder.parseICalEvent
      (encodedText B1 B2 uid ("DTSTART:" +:+ dateTimeToken y m d s.1 s.2)
                   ("DTEND:" +:+ dateTimeToken y m d e.1 e.2) tail) defaultColor
    = Some decoded
    ∧ ev_uid decoded = Some uid ∧ ev_date decoded = isoDate y m d
    ∧ ev_startTime decoded = Some (clockText s) ∧ ev_endTime decoded = Some (clockText e).
Proof.
  intros Huid Hd Hs He U1 S1 E1 U2 S2 E2.
  destruct (plainUid_facts _ Huid) as (Hne & _ & Hchars & Htrim).
  destruct (uidChar_facts _ Hchars) as [Hline Hfree].
  pose proof (tokenChar_facts _ (dateTimeToken_chars y m d s.1 s.2)) as (Hsp1 & Hlb1 & Hfc1).
  pose proof (tokenChar_facts _ (dateTimeToken_chars y m d e.1 e.2)) as (Hsp2 & Hlb2 & Hfc2).
  unfold Decoder.parseICalEvent.
  rewrite search_UID, search_DTSTART by done.
  rewrite (search_DTEND B1 B2 uid "DTSTART:") by done.
  rewrite (append_assoc_string "DTSTART:"), (append_assoc_string "DTEND:").
  rewrite matchLine_DTSTART, matchLine_DTEND by (done || apply dateTimeToken_nonempty).
  lazy zeta iota beta.
  cbn [fmap option_fmap option_map].
  rewrite Htrim, !trim_id by done.
  rewrite (truthy_nonempty (dateTimeToken y m d e.1 e.2)) by apply dateTimeToken_nonempty.
  rewrite parseStamp_dateTime by done.
  cbn [mbind option_bind]. rewrite parseStamp_dateTime by done.
  rewrite !length_dateTimeToken.
  destruct (decide (8 < 15)%nat); [|lia].
  eexists. split; [reflexivity|]. cbn [ev_uid ev_date ev_startTime ev_endTime].
  destruct Hd as (Hy & Hm & Hday).
  rewrite toISODate_UTC, !toClock_UTC by done. done.
Qed.

Lemma decode_allDay B1 B2 uid y m d v tail defaultColor :
  plainUid uid = true → validDate y m d →
  allChars tokenChar v = true → v ≠ "" →
  (String.length v ≤ 8)%nat ∨ Decoder.parseStamp v = None →
  quiet "UID" B1 = true → quiet "DTSTART" B1 = true → quiet "DTEND" B1 = true →
  quiet "UID" B2 = true → quiet "DTSTART" B2 = true → quiet "DTEND" B2 = true →
  ∃ decoded,
    Decoder.parseICalEvent
      (encodedText B1 B2 uid ("DTSTART;VALUE=DATE:" +:+ dateToken y m d)
                   ("DTEND;VALUE=DATE:" +:+ v) tail) defaultColor
    = Some decoded
    ∧ ev_uid decoded = Some uid ∧ ev_date decoded = isoDate y m d
    ∧ ev_startTime decoded = None ∧ ev_endTime decoded = None.
Proof.
  intros Huid Hd Hv Hvne Hend U1 S1 E1 U2 S2 E2.
  destruct (plainUid_facts _ Huid) as (Hne & _ & Hchars & Htrim).
  destruct (uidChar_facts _ Hchars) as [Hline Hfree].
  pose proof (tokenChar_facts _ (dateToken_chars y m d)) as (Hsp1 & Hlb1 & Hfc1).
  pose proof (tokenChar_facts _ Hv) as (Hsp2 & Hlb2 & Hfc2).
  unfold Decoder.parseICalEvent.
  rewrite search_UID, search_DTSTART by done.
  rewrite (search_DTEND B1 B2 uid "DTSTART;VALUE=DATE:") by done.
  rewrite (append_assoc_string "DTSTART;VALUE=DATE:"), (append_assoc_string "DTEND;VALUE=DATE:").
  rewrite matchLine_DTSTART_date, matchLine_DTEND_date by (done || apply dateToken_nonempty).
  lazy zeta iota beta.
  cbn [fmap option_fmap option_map].
  rewrite Htrim, !trim_id by done.
  rewrite (truthy_nonempty v) by done.
  rewrite parseStamp_date by done.
  cbn [mbind option_bind].
  rewrite length_dateToken.
  destruct (decide (8 < 8)%nat); [lia|].
  eexists. split; [reflexivity|]. cbn [ev_uid ev_date ev_startTime ev_endTime].
  split; [done|]. split; [apply (toISODate_UTC y m d (0, 0)); [done|unfold validClock; simpl; lia]|].
  split; [done|].
  destruct Hend as [Hlen|Hnone].
  - destruct (Decoder.parseStamp v); [|done]. destruct (decide (8 < String.length v)%nat); [lia|done].
  - by rewrite Hnone.
Qed.


Lemma validDate_sample : validDate 2024 1 29.
Proof. unfold validDate. change (daysInMonth 2024 1) with 31. lia. Qed.

(** The all-day event of the encoder's test on a host that is not behind
    UTC: the date and the following day. *)
Lemma allDayEvent_ahead_of_UTC tz :
  0 ≤ tz < 1440 →
  Encoder.dateLines tz Sample.allDayEvent
  = Some ["DTSTART;VALUE=DATE:20240129"; "DTEND;VALUE=DATE:20240130"].
Proof.
  intros Htz.
  destruct (dateLines_allDay tz Sample.allDayEvent 2024 1 29 validDate_sample Htz eq_refl
              (or_introl eq_refl)) as (v & -> & _ & _ & _ & Hv).
  rewrite Hv by (by vm_compute). reflexivity.
Qed.

(** C8 (a defect of the code): on every host behind UTC the all-day event
    dated 2024-01-29 is written with the date tokens 20240128 for DTSTART
    and 20240129 for DTEND, a day before the tokens 20240129 and 20240130
    that the encoder's own test expects: [new Date(event.date)] is midnight
    UTC, and [ICAL.Time.fromJSDate] reads its fields in local time. *)
Theorem C8_all_day_event_a_day_early tz :
  -1440 < tz < 0 →
  Encoder.dateLines tz Sample.allDayEvent
  = Some ["DTSTART;VALUE=DATE:20240128"; "DTEND;VALUE=DATE:20240129"].
Proof.
  intros Htz.
  by rewrite (dateLines_allDay_west tz Sample.allDayEvent 2024 1 29 validDate_sample)
    by (done || by left).
Qed.

End RoundTripTheorems.

(** * More of the code *)

Section Hoare.

Lemma hoare_ret {A} (P : World → Prop) (a : A) (Q : A → World → Prop) E :
  (∀ w, P w → Q a w) → hoare P (mret a) Q E.
Proof. intros H w Hw. by apply H. Qed.

Lemma hoare_bind {A B} (P : World → Prop) (m : M A) (k : A → M B)
    (R : A → World → Prop) (Q : B → World → Prop) E :
  hoare P m R E → (∀ a, hoare (R a) (k a) Q E) → hoare P (m ≫= k) Q E.
Proof.
  intros Hm Hk w Hw. specialize (Hm w Hw). unfold mbind, M_bind, bind.
  destruct (m w) as [[[a|e] w1] t1]; [|done].
  specialize (Hk a w1 Hm). by destruct (k a w1) as [[[b|e] w2] t2].
Qed.

Lemma hoare_conseq {A} (P P' : World → Prop) (m : M A) (Q Q' : A → World → Prop)
    (E E' : World → Prop) :
  hoare P' m Q' E' → (∀ w, P w → P' w) → (∀ a w, Q' a w → Q a w) → (∀ w, E' w → E w) →
  hoare P m Q E.
Proof.
  intros Hm HP HQ HE w Hw. specialize (Hm w (HP w Hw)).
  destruct (m w) as [[[a|e] w1] t1]; auto.
Qed.

Lemma hoare_get P E : hoare P get (fun w0 w => w = w0 ∧ P w) E.
Proof. intros w Hw. done. Qed.

Lemma hoare_modify (P : World → Prop) (f : World → World) (Q : unit → World → Prop) E :
  (∀ w, P w → Q tt (f w)) → hoare P (modify f) Q E.
Proof. intros H w Hw. by apply H. Qed.

Lemma hoare_emit (P : World → Prop) c E : hoare P (emit c) (fun _ w => P w) E.
Proof. intros w Hw. done. Qed.

Lemma hoare_throw {A} (P : World → Prop) msg (Q : A → World → Prop) :
  hoare P (throw msg) Q P.
Proof. intros w Hw. done. Qed.

(** Reading the logical time moves nothing but the time. *)
Lemma hoare_next (P : World → Prop) (Q : nat → World → Prop) E :
  (∀ w, P w → Q (tick w) (mkWorld (events w) (localStorage w) (syncInFlight w) (S (tick w)))) →
  hoare P next Q E.
Proof. intros H w Hw. by apply H. Qed.

Lemma hoare_foldM {A S} (I : S → World → Prop) (f : S → A → M S) (l : list A) (s : S) E :
  (∀ s a, In a l → hoare (I s) (f s a) I E) → hoare (I s) (foldM f l s) I E.
Proof.
  revert s. induction l as [|a l IH]; intros s Hf.
  - by apply hoare_ret.
  - simpl. eapply hoare_bind; [apply Hf; by left|].
    intros s'. apply IH. intros s0 a0 Hin. apply Hf. by right.
Qed.

Lemma hoare_tryCatch {A} (P : World → Prop) (m : M A) (h : string → M A)
    (Q : A → World → Prop) (E E' : World → Prop) :
  hoare P m Q E' → (∀ e, hoare E' (h e) Q E) → hoare P (tryCatch m h) Q E.
Proof.
  intros Hm Hh w Hw. specialize (Hm w Hw). unfold tryCatch.
  destruct (m w) as [[[a|e] w1] t1]; [done|].
  specialize (Hh e w1 Hm). by destruct (h e w1) as [[[b|e'] w2] t2].
Qed.

Lemma hoare_tryFinally {A} (P : World → Prop) (m : M A) (f : World → World)
    (Q Q' : A → World → Prop) (E E' : World → Prop) :
  hoare P m Q' E' → (∀ a w, Q' a w → Q a (f w)) → (∀ w, E' w → E (f w)) →
  hoare P (tryFinally m f) Q E.
Proof.
  intros Hm HQ HE w Hw. specialize (Hm w Hw). unfold tryFinally.
  destruct (m w) as [[[a|e] w1] t1]; auto.
Qed.

End Hoare.

Section LocalRows.
Context (env : Env) (L : list Row).
Hypothesis fresh_ids : ∀ t, ¬ In (db_new_id env t) (map row_id L).

Lemma localRowsAre_tick w t :
  localRowsAre L w → localRowsAre L (mkWorld (events w) (localStorage w) (syncInFlight w) t).
Proof. done. Qed.

Lemma localRowsAre_events w w' : events w' = events w → localRowsAre L w → localRowsAre L w'.
Proof. unfold localRowsAre. by intros ->. Qed.

Lemma local_id_in r rows : In r rows → isLocalRow r = true → In (row_id r) (map row_id (localRows rows)).
Proof. intros Hin Hl. apply in_map, filter_In. done. Qed.

Lemma localRows_updateWhere p f rows :
  (∀ r, In r rows → p r = true → isLocalRow r = false ∧ isLocalRow (f r) = false) →
  localRows (updateWhere p f rows) = localRows rows.
Proof.
  intros H. induction rows as [|r rows IH]; [done|]. simpl.
  rewrite IH by (intros; apply H; [by right|done]).
  destruct (p r) eqn:Hp; [|done].
  destruct (H r (or_introl eq_refl) Hp) as [-> ->]. done.
Qed.

Lemma localRowsAre_updateWhere p f w :
  (∀ r, In r (events w) → p r = true →
        isLocalRow r = false ∧ isLocalRow (f r) = false ∧ row_id (f r) = row_id r) →
  localRowsAre L w → localRowsAre L (setEvents (updateWhere p f (events w)) w).
Proof.
  intros H [HL Hids]. split; simpl.
  - rewrite localRows_updateWhere; [done|]. intros r Hr Hp. destruct (H r Hr Hp) as (? & ? & ?). done.
  - intros r' Hin Hl. unfold updateWhere in Hin. apply in_map_iff in Hin as (r & <- & Hr).
    destruct (p r) eqn:Hp.
    + destruct (H r Hr Hp) as (Hr1 & Hr2 & ->). by apply Hids.
    + by apply Hids.
Qed.

Lemma localRows_deleteIds batch rows :
  (∀ i, In i batch → ¬ In i (map row_id (localRows rows))) →
  localRows (deleteIds batch rows) = localRows rows.
Proof.
  intros H. unfold deleteIds, localRows. induction rows as [|r rows IH]; [done|].
  assert (IH' : List.filter isLocalRow
                  (List.filter (fun r => negb (bool_decide (row_id r ∈ batch))) rows)
                = List.filter isLocalRow rows).
  { apply IH. intros i Hi Hin. apply (H i Hi). simpl.
    destruct (isLocalRow r); [by right|done]. }
  simpl. destruct (bool_decide (row_id r ∈ batch)) eqn:Eb; simpl.
  - apply bool_decide_eq_true in Eb. destruct (isLocalRow r) eqn:El; [|done].
    exfalso. apply (H (row_id r)); [by apply list_elem_of_In|]. simpl. rewrite El. by left.
  - by rewrite IH'.
Qed.

Lemma localRowsAre_deleteIds batch w :
  (∀ i, In i batch → ¬ In i (map row_id L)) →
  localRowsAre L w → localRowsAre L (setEvents (deleteIds batch (events w)) w).
Proof.
  intros H [HL Hids]. split; simpl.
  - rewrite localRows_deleteIds; [done|]. by rewrite HL.
  - intros r Hin. apply Hids. unfold deleteIds in Hin. by apply filter_In in Hin as [? _].
Qed.

Lemma localRowsAre_append row w :
  isLocalRow row = false → ¬ In (row_id row) (map row_id L) →
  localRowsAre L w → localRowsAre L (setEvents (events w ++ [row]) w).
Proof.
  intros Hrow Hid [HL Hids]. split; simpl.
  - unfold localRows. rewrite List.filter_app. simpl. rewrite Hrow. by rewrite app_nil_r.
  - intros r [Hin|[<-|[]]]%in_app_or; [by apply Hids | done].
Qed.

(** The calls that only read the store. *)
Lemma eventExistsByUID_local uid url :
  hoare (localRowsAre L) (eventExistsByUID env uid url) (fun _ => localRowsAre L) (localRowsAre L).
Proof. intros w Hw. unfold eventExistsByUID. unfold_monad. simpl. done. Qed.

Lemma fetchEventByUID_local uid url :
  hoare (localRowsAre L) (fetchEventByUID env uid url) (fun _ => localRowsAre L) (localRowsAre L).
Proof. intros w Hw. unfold fetchEventByUID. unfold_monad. simpl. done. Qed.

Lemma eventExists_local event url source :
  hoare (localRowsAre L) (eventExists env event url source) (fun _ => localRowsAre L)
        (localRowsAre L).
Proof. intros w Hw. unfold eventExists. unfold_monad. simpl. done. Qed.

(** The row found by its details is no row made by hand. *)
Lemma findEventByDetails_local event url :
  hoare (localRowsAre L) (findEventByDetails env event url)
        (fun res w => localRowsAre L w ∧ ∀ id, res = Some id → ¬ In id (map row_id L))
        (localRowsAre L).
Proof.
  intros w Hw. unfold findEventByDetails. unfold_monad. simpl.
  split; [done|]. intros id Hid.
  destruct (db_error env (tick w)); [done|].
  destruct (List.filter _ (events w)) as [|r rest] eqn:Ef; [done|].
  assert (Hr : In r (List.filter (matchesDetails event (normalizeUrl url)) (events w)))
    by (rewrite Ef; by left).
  apply filter_In in Hr as [Hr Hm].
  unfold JS.truthy in Hid. destruct (decide (row_id r = "")); [done|]. injection Hid as <-.
  destruct Hw as [_ Hids]. apply Hids; [done|].
  unfold matchesDetails in Hm. repeat (apply andb_true_iff in Hm as [Hm ?]).
  unfold isLocalRow.
  match goal with H : bool_decide (row_source r = _) = true |- _ => rewrite H end.
  by rewrite andb_false_r.
Qed.

Lemma updateEventByUID_local uid url updates :
  hoare (localRowsAre L) (updateEventByUID env uid url updates) (fun _ => localRowsAre L)
        (localRowsAre L).
Proof.
  intros w Hw. unfold updateEventByUID. unfold_monad. simpl.
  destruct (db_error env (tick w)); simpl; [done|].
  apply (localRowsAre_updateWhere _ _
           (mkWorld (events w) (localStorage w) (syncInFlight w) (S (tick w)))); [|done].
  simpl. intros r _ Hm. unfold matchesUID in Hm. apply andb_true_iff in Hm as [Hu _].
  apply bool_decide_eq_true in Hu. unfold isLocalRow, applyPayload. simpl. rewrite Hu. done.
Qed.

Lemma updateEventUID_local id uid url :
  ¬ In id (map row_id L) →
  hoare (localRowsAre L) (updateEventUID env id uid url) (fun _ => localRowsAre L)
        (localRowsAre L).
Proof.
  intros Hid w Hw. unfold updateEventUID. unfold_monad. simpl.
  destruct (db_error env (tick w)); simpl; [done|].
  apply (localRowsAre_updateWhere _ _
           (mkWorld (events w) (localStorage w) (syncInFlight w) (S (tick w)))); [|done].
  simpl. intros r Hr Heq. apply bool_decide_eq_true in Heq. subst id.
  split; [|done]. destruct (isLocalRow r) eqn:El; [|done].
  exfalso. apply Hid. destruct Hw as [<- _]. by apply local_id_in.
Qed.

Lemma createEvent_local event caldavUid url :
  hoare (localRowsAre L) (createEvent env event caldavUid url (Some "caldav"))
        (fun _ => localRowsAre L) (localRowsAre L).
Proof.
  intros w Hw. unfold createEvent. unfold_monad. simpl.
  destruct (db_error env (tick w)); simpl; [done|].
  apply (localRowsAre_append _
           (mkWorld (events w) (localStorage w) (syncInFlight w) (S (tick w)))); [| |done].
  - unfold isLocalRow, newRow. simpl. by rewrite andb_false_r.
  - apply fresh_ids.
Qed.

Lemma processEvent_local url s event :
  hoare (localRowsAre L) (processEvent env url s event) (fun _ => localRowsAre L)
        (localRowsAre L).
Proof.
  unfold processEvent. destruct (JS.truthy (ev_uid event)) as [uid|].
  - eapply hoare_bind; [apply eventExistsByUID_local|]. intros [|].
    + eapply hoare_bind; [apply fetchEventByUID_local|]. intros [existing|].
      * destruct (hasUpdates _).
        -- eapply hoare_bind; [apply updateEventByUID_local|]. intros b. by apply hoare_ret.
        -- by apply hoare_ret.
      * by apply hoare_ret.
    + eapply hoare_bind; [apply findEventByDetails_local|]. intros [id|].
      * intros w [Hw Hid]. specialize (Hid id eq_refl). revert w Hw.
        change (hoare (localRowsAre L)
                  (updateEventUID env id uid url ≫= fun _ => mret (skipped (seen uid s)))
                  (fun _ => localRowsAre L) (localRowsAre L)).
        eapply hoare_bind; [by apply updateEventUID_local|]. intros b. by apply hoare_ret.
      * eapply hoare_bind.
        { eapply hoare_conseq; [apply createEvent_local| |done|done]. by intros w [? _]. }
        intros r. by apply hoare_ret.
  - eapply hoare_bind; [apply eventExists_local|]. intros [|].
    + by apply hoare_ret.
    + eapply hoare_bind; [apply createEvent_local|]. intros r. by apply hoare_ret.
Qed.

End LocalRows.

Lemma hoare_world {A} (P Q : World → Prop) (m : M A) w :
  hoare P m (fun _ => Q) Q → P w → Q (world (m w)).
Proof.
  intros Hm Hw. specialize (Hm w Hw). unfold world.
  by destruct (m w) as [[[a|e] w1] t1].
Qed.

Lemma batchesFrom_In fuel n (l b : list string) i :
  In b (batchesFrom fuel n l) → In i b → In i l.
Proof.
  revert l. induction fuel as [|fuel IH]; intros l Hb Hi; [done|].
  simpl in Hb. destruct l as [|x l]; [done|].
  destruct Hb as [<-|Hb].
  - rewrite <- (take_drop n (x :: l)). apply in_or_app. by left.
  - rewrite <- (take_drop n (x :: l)). apply in_or_app. right. by apply IH.
Qed.

Lemma batches_In n (l b : list string) i : In b (batches n l) → In i b → In i l.
Proof. apply batchesFrom_In. Qed.

Section LocalRowsEngine.
Context (env : Env) (L : list Row).
Hypothesis fresh_ids : ∀ t, ¬ In (db_new_id env t) (map row_id L).

#[local] Abbreviation kept := (fun _ => localRowsAre L).

Lemma deleteBatch_local n batch :
  (∀ i, In i batch → ¬ In i (map row_id L)) →
  hoare (localRowsAre L) (deleteBatch env n batch) kept (localRowsAre L).
Proof.
  intros Hb w Hw. unfold deleteBatch. unfold_monad. simpl.
  destruct (db_error env (tick w)); simpl; [done|].
  by apply (localRowsAre_deleteIds L _
              (mkWorld (events w) (localStorage w) (syncInFlight w) (S (tick w)))).
Qed.

(** The candidates for deletion are rows of source ['caldav']. *)
Lemma toDelete_not_local uids evs url w i :
  localRowsAre L w →
  In i (toDelete uids evs (caldavRowsOf (calendarUrlVariants url) (events w))) →
  ¬ In i (map row_id L).
Proof.
  intros [_ Hids] Hi. unfold toDelete in Hi. apply in_map_iff in Hi as (r & <- & Hr).
  apply filter_In in Hr as [Hr _]. unfold caldavRowsOf in Hr. apply filter_In in Hr as [Hr Hc].
  apply Hids; [done|]. unfold isCaldavRowOf in Hc. apply andb_true_iff in Hc as [_ Hs].
  unfold isLocalRow. rewrite Hs. by rewrite andb_false_r.
Qed.

Lemma deleteRemovedEvents_local url uids evs :
  hoare (localRowsAre L) (deleteRemovedEvents env url uids evs) kept (localRowsAre L).
Proof.
  unfold deleteRemovedEvents. eapply hoare_bind with (R := fun _ => localRowsAre L).
  2: { intros n. eapply hoare_bind; [apply hoare_emit|]. intros []. by apply hoare_ret. }
  unfold deleteRemovedEvents_body.
  destruct (decide (_ ∧ _)); [by apply hoare_ret|].
  intros w Hw. unfold_monad. simpl.
  destruct (db_error env (tick w)); [done|].
  destruct (decide (_ ∧ _)); [done|].
  destruct (runawayGuard _ _); [done|].
  destruct (decide (0 < _)%nat); [|done].
  set (w1 := mkWorld (events w) (localStorage w) (syncInFlight w) (S (tick w))).
  set (ids := toDelete uids evs (caldavRowsOf (calendarUrlVariants url) (events w))).
  assert (Hfold : hoare (localRowsAre L) (foldM (deleteBatch env) (batches 50 ids) 0)
                        kept (localRowsAre L)).
  { apply (hoare_foldM (fun _ => localRowsAre L)). intros count b Hb.
    apply deleteBatch_local. intros i Hi.
    apply (toDelete_not_local uids evs url w); [done|]. by apply (batches_In 50 _ b). }
  specialize (Hfold w1 Hw).
  by destruct (foldM (deleteBatch env) (batches 50 ids) 0 w1) as [[[a|e] w2] t2].
Qed.

Lemma fetchSyncCollection_local config url token :
  hoare (localRowsAre L) (fetchSyncCollection env config url token) kept (localRowsAre L).
Proof.
  intros w Hw. unfold fetchSyncCollection. unfold_monad. simpl.
  by destruct (net_syncCollection env (tick w) url token).
Qed.

Lemma attemptIncremental_local config tokens url :
  hoare (localRowsAre L) (attemptIncremental env config tokens url) kept (localRowsAre L).
Proof.
  unfold attemptIncremental. destruct (JS.truthy (tokens !! url)) as [token|];
    [|by apply hoare_ret].
  eapply hoare_tryCatch.
  - eapply hoare_bind; [apply fetchSyncCollection_local|]. intros r. by apply hoare_ret.
  - intros e. by apply hoare_ret.
Qed.

Lemma fullFetch_local config url :
  hoare (localRowsAre L) (fullFetch env config url) kept (localRowsAre L).
Proof.
  intros w Hw. unfold fullFetch, newDate, fetchCalendarEvents. unfold_monad. simpl.
  by destruct (net_fetchEvents env _ url _ _).
Qed.

Lemma nextSyncTokens_local config tokens url syncResult usedFullFetch :
  hoare (localRowsAre L) (nextSyncTokens env config tokens url syncResult usedFullFetch)
        kept (localRowsAre L).
Proof.
  unfold nextSyncTokens.
  destruct (syncResult ≫= fun r => JS.truthy (sr_syncToken r)); [by apply hoare_ret|].
  destruct usedFullFetch; [|by apply hoare_ret].
  intros w Hw. unfold fetchSyncToken. unfold_monad. done.
Qed.

Lemma syncCalendar_local config tokens rawUrl :
  hoare (localRowsAre L) (syncCalendar env config tokens rawUrl) kept (localRowsAre L).
Proof.
  unfold syncCalendar.
  eapply hoare_bind; [apply attemptIncremental_local|]. intros res. cbv zeta.
  eapply hoare_bind with (R := fun _ => localRowsAre L).
  { destruct (discardOnDeletions res); [by apply hoare_ret|].
    eapply hoare_bind; [apply fullFetch_local|]. intros evs. by apply hoare_ret. }
  intros [usedFullFetch eventsToProcess].
  eapply hoare_bind.
  { apply (hoare_foldM (fun _ => localRowsAre L)). intros s0 ev _.
    by apply processEvent_local. }
  intros s. eapply hoare_bind with (R := fun _ => localRowsAre L).
  { destruct usedFullFetch; [apply deleteRemovedEvents_local | by apply hoare_ret]. }
  intros deleted. eapply hoare_bind; [apply nextSyncTokens_local|].
  intros tokens'. by apply hoare_ret.
Qed.

Lemma syncOne_local config acc rawUrl :
  hoare (localRowsAre L) (syncOne env config acc rawUrl) kept (localRowsAre L).
Proof.
  unfold syncOne. eapply hoare_tryCatch.
  - eapply hoare_bind; [apply syncCalendar_local|]. intros r. by apply hoare_ret.
  - intros e. by apply hoare_ret.
Qed.

Lemma syncPass_local config urls :
  hoare (localRowsAre L) (syncPass env config urls) kept (localRowsAre L).
Proof.
  unfold syncPass.
  eapply hoare_bind with (R := fun _ => localRowsAre L).
  { intros w Hw. unfold readSyncTokens. unfold_monad. done. }
  intros tokens. eapply hoare_bind.
  { apply (hoare_foldM (fun _ => localRowsAre L)). intros acc url _. apply syncOne_local. }
  intros acc. eapply hoare_bind with (R := fun _ => localRowsAre L).
  { intros w Hw. unfold writeSyncTokens. unfold_monad. simpl.
    by destruct (storage_full env (tick w)). }
  intros []. destruct (0 <? deletedCount acc); by apply hoare_ret.
Qed.

Lemma syncSelectedCalendars_local config urls :
  hoare (localRowsAre L) (syncSelectedCalendars env config urls) kept (localRowsAre L).
Proof.
  unfold syncSelectedCalendars.
  eapply hoare_bind; [apply hoare_get|]. intros w0.
  destruct (syncInFlight w0).
  - apply hoare_ret. by intros w [_ ?].
  - eapply hoare_bind with (R := fun _ => localRowsAre L).
    { apply hoare_modify. by intros w [_ ?]. }
    intros []. eapply hoare_tryFinally; [apply syncPass_local|done..].
Qed.

End LocalRowsEngine.

(** X1.  A call of [syncSelectedCalendars] leaves the rows made by hand as
    they are: the rows without CalDAV UID whose source is not ['caldav'] are
    after the call what they were before it, in number, order and content,
    whatever the network answers and the store does.  The ids are those of
    a primary key: no other row bears the id of a row made by hand, and the
    store gives no such id to a new row. *)
Theorem sync_keeps_rows_made_by_hand (env : Env) (config : CalDAVConfig)
    (selectedCalendarUrls : list string) (w : World) :
  (∀ r, In r (events w) → isLocalRow r = false →
        ¬ In (row_id r) (map row_id (localRows (events w)))) →
  (∀ t, ¬ In (db_new_id env t) (map row_id (localRows (events w)))) →
  localRows (events (world (syncSelectedCalendars env config selectedCalendarUrls w)))
  = localRows (events w).
Proof.
  intros Hids Hfresh.
  pose proof (hoare_world (localRowsAre (localRows (events w)))
                (localRowsAre (localRows (events w)))
                (syncSelectedCalendars env config selectedCalendarUrls) w
                (syncSelectedCalendars_local env _ Hfresh config selectedCalendarUrls)) as H.
  by destruct H as [H _].
Qed.

Section Tokens.
Context (env : Env) (S0 : gmap string (gmap string string)).

#[local] Abbreviation same := (fun _ => (storageIs S0)).

Lemma hoare_session {A} (m : M A) :
  (∀ w, ∃ a w' t, m w = (Returned a, w', t) ∧ sameSession w w') →
  hoare (storageIs S0) m same (storageIs S0).
Proof.
  intros H w Hw. destruct (H w) as (a & w' & t & -> & _ & Hs). unfold storageIs in *. congruence.
Qed.

Lemma processEvents_storage url evs s :
  hoare (storageIs S0) (foldM (processEvent env url) evs s) same (storageIs S0).
Proof.
  apply hoare_session. intros w.
  destruct (reconcile_all env url evs s w) as (s' & w' & t & Heq & _ & _ & Hs). eauto.
Qed.

Lemma deleteRemovedEvents_storage url uids evs :
  hoare (storageIs S0) (deleteRemovedEvents env url uids evs) same (storageIs S0).
Proof.
  apply hoare_session. intros w.
  destruct (deleteRemovedEvents_spec env url uids evs w) as (n & w' & Heq & _ & Hs). eauto.
Qed.

Lemma attemptIncremental_storage config tokens url :
  hoare (storageIs S0) (attemptIncremental env config tokens url) same (storageIs S0).
Proof.
  unfold attemptIncremental. destruct (JS.truthy (tokens !! url)) as [token|];
    [|by apply hoare_ret].
  intros w Hw. unfold tryCatch, fetchSyncCollection. unfold_monad. simpl.
  by destruct (net_syncCollection env (tick w) url token).
Qed.

Lemma fullFetch_storage config url :
  hoare (storageIs S0) (fullFetch env config url) same (storageIs S0).
Proof.
  intros w Hw. unfold fullFetch, newDate, fetchCalendarEvents. unfold_monad. simpl.
  by destruct (net_fetchEvents env _ url _ _).
Qed.

(** The token map handed on differs from the one received at the calendar's
    own URL only. *)
Lemma nextSyncTokens_storage config tokens url syncResult usedFullFetch :
  hoare (storageIs S0) (nextSyncTokens env config tokens url syncResult usedFullFetch)
        (fun tokens' w => storageIs S0 w ∧ ∀ k, k ≠ url → tokens' !! k = tokens !! k)
        (storageIs S0).
Proof.
  unfold nextSyncTokens.
  destruct (syncResult ≫= fun r => JS.truthy (sr_syncToken r)).
  { apply hoare_ret. intros w Hw. split; [done|]. intros k Hk. by rewrite lookup_insert_ne. }
  destruct usedFullFetch; [|by apply hoare_ret].
  intros w Hw. unfold fetchSyncToken. unfold_monad. simpl. split; [done|].
  intros k Hk. destruct (match net_getSyncToken env (tick w) url with
                         | Some tok => JS.truthy tok | None => None end); [|done].
  by rewrite lookup_insert_ne.
Qed.

Lemma syncCalendar_storage config tokens rawUrl :
  hoare (storageIs S0) (syncCalendar env config tokens rawUrl)
        (fun cr w => storageIs S0 w
                     ∧ ∀ k, k ≠ JS.stripTrailingSlashes rawUrl → cr_tokens cr !! k = tokens !! k)
        (storageIs S0).
Proof.
  unfold syncCalendar.
  eapply hoare_bind; [apply attemptIncremental_storage|]. intros res. cbv zeta.
  eapply hoare_bind with (R := fun _ => (storageIs S0)).
  { destruct (discardOnDeletions res); [by apply hoare_ret|].
    eapply hoare_bind; [apply fullFetch_storage|]. intros evs. by apply hoare_ret. }
  intros [usedFullFetch eventsToProcess].
  eapply hoare_bind; [apply processEvents_storage|].
  intros s. eapply hoare_bind with (R := fun _ => (storageIs S0)).
  { destruct usedFullFetch; [apply deleteRemovedEvents_storage | by apply hoare_ret]. }
  intros deleted. eapply hoare_bind; [apply nextSyncTokens_storage|].
  intros tokens'. by apply hoare_ret.
Qed.

Lemma syncOne_storage config acc rawUrl :
  hoare (storageIs S0) (syncOne env config acc rawUrl)
        (fun acc' w => storageIs S0 w
                       ∧ ∀ k, k ≠ JS.stripTrailingSlashes rawUrl →
                              syncTokens acc' !! k = syncTokens acc !! k)
        (storageIs S0).
Proof.
  unfold syncOne. eapply hoare_tryCatch.
  - eapply hoare_bind; [apply syncCalendar_storage|]. intros r. by apply hoare_ret.
  - intros e. by apply hoare_ret.
Qed.

Lemma syncAll_storage config urls (T0 : gmap string string) acc :
  hoare (fun w => storageIs S0 w
                  ∧ ∀ k, ¬ In k (map JS.stripTrailingSlashes urls) → syncTokens acc !! k = T0 !! k)
        (foldM (syncOne env config) urls acc)
        (fun acc' w => storageIs S0 w
                       ∧ ∀ k, ¬ In k (map JS.stripTrailingSlashes urls) →
                              syncTokens acc' !! k = T0 !! k)
        (storageIs S0).
Proof.
  eapply hoare_conseq with (E' := fun w => storageIs S0 w ∧ True).
  - apply (hoare_foldM (fun acc' w =>
             storageIs S0 w ∧ ∀ k, ¬ In k (map JS.stripTrailingSlashes urls) →
                                 syncTokens acc' !! k = T0 !! k)).
    intros acc1 url Hin w [Hw HT]. pose proof (syncOne_storage config acc1 url w Hw) as H.
    destruct (syncOne env config acc1 url w) as [[[acc2|e] w2] t2]; [|done].
    destruct H as [Hw2 Hrel]. split; [done|]. intros k Hk. rewrite Hrel; [by apply HT|].
    intros ->. apply Hk. by apply in_map.
  - done.
  - done.
  - by intros w [? _].
Qed.
Lemma tokensKept_same config urls w : storageIs S0 w → tokensKept S0 config urls w.
Proof. unfold storageIs, tokensKept, storedTokens. by intros ->. Qed.

Lemma syncPass_tokens config urls :
  hoare (storageIs S0) (syncPass env config urls)
        (fun _ => tokensKept S0 config urls) (tokensKept S0 config urls).
Proof.
  unfold syncPass.
  eapply hoare_bind with
    (R := fun tokens w => storageIs S0 w ∧ tokens = default ∅ (S0 !! getSyncTokenStorageKey config)).
  { intros w Hw. unfold readSyncTokens. unfold_monad. simpl. split; [done|].
    unfold storageIs in Hw. by rewrite Hw. }
  intros tokens.
  eapply hoare_bind with
    (R := fun acc w => storageIs S0 w
                       ∧ ∀ k, ¬ In k (map JS.stripTrailingSlashes urls) →
                              syncTokens acc !! k
                              = default ∅ (S0 !! getSyncTokenStorageKey config) !! k).
  { eapply hoare_conseq; [apply (syncAll_storage config urls
                                   (default ∅ (S0 !! getSyncTokenStorageKey config)))| | |].
    - intros w [Hw ->]. done.
    - done.
    - intros w Hw. by apply tokensKept_same. }
  intros acc.
  eapply hoare_bind with (R := fun _ => tokensKept S0 config urls).
  { intros w [Hw HT]. unfold writeSyncTokens. unfold_monad. simpl.
    destruct (storage_full env (tick w)); simpl; [by apply tokensKept_same|].
    unfold tokensKept, storedTokens. simpl. unfold storageIs in Hw. rewrite Hw. split.
    - intros k Hk. rewrite lookup_insert.
      destruct (decide _); [|done]. cbn [default]. by apply HT.
    - intros key Hkey. by rewrite lookup_insert_ne. }
  intros []. destruct (0 <? deletedCount acc); by apply hoare_ret.
Qed.

Lemma syncSelectedCalendars_tokens config urls :
  hoare (storageIs S0) (syncSelectedCalendars env config urls)
        (fun _ => tokensKept S0 config urls) (tokensKept S0 config urls).
Proof.
  unfold syncSelectedCalendars.
  eapply hoare_bind; [apply hoare_get|]. intros w0.
  destruct (syncInFlight w0).
  - apply hoare_ret. intros w [_ ?]. by apply tokensKept_same.
  - eapply hoare_bind with (R := fun _ => (storageIs S0)).
    { apply hoare_modify. by intros w [_ ?]. }
    intros []. eapply hoare_tryFinally; [apply syncPass_tokens|done..].
Qed.

End Tokens.

(** X2.  Whatever a call of [syncSelectedCalendars] does, the sync token
    stored for a calendar that is not among the selected ones (trailing
    slashes apart) is after the call what it was before, and so is
    everything stored under other keys of [localStorage]. *)
Theorem sync_keeps_other_tokens (env : Env) (config : CalDAVConfig)
    (selectedCalendarUrls : list string) (w : World) (calendarUrl : string) :
  ¬ In calendarUrl (map JS.stripTrailingSlashes selectedCalendarUrls) →
  let w' := world (syncSelectedCalendars env config selectedCalendarUrls w) in
  storedTokens config w' !! calendarUrl = storedTokens config w !! calendarUrl
  ∧ ∀ key, key ≠ getSyncTokenStorageKey config → localStorage w' !! key = localStorage w !! key.
Proof.
  intros Hk w'.
  pose proof (hoare_world (storageIs (localStorage w))
                (tokensKept (localStorage w) config selectedCalendarUrls)
                (syncSelectedCalendars env config selectedCalendarUrls) w
                (syncSelectedCalendars_tokens env _ config selectedCalendarUrls) eq_refl)
    as [HT HS].
  split; [by apply HT | exact HS].
Qed.

Section Reprocessing.
Context (env : Env).
Hypothesis no_error : ∀ t, db_error env t = false.

Lemma existsb_updateWhere_kept (q p : Row → bool) f rows :
  (∀ r, q r = true → q (f r) = true) →
  existsb q rows = true → existsb q (updateWhere p f rows) = true.
Proof.
  intros Hq. induction rows as [|r rows IH]; [done|]. simpl.
  intros [Hr|Hr]%orb_true_iff; apply orb_true_iff.
  - left. destruct (p r); [by apply Hq | done].
  - right. by apply IH.
Qed.

Lemma existsb_updateWhere_made (q p : Row → bool) f rows r :
  In r rows → p r = true → q (f r) = true → existsb q (updateWhere p f rows) = true.
Proof.
  intros Hin Hp Hq. apply existsb_exists. exists (f r). split; [|done].
  unfold updateWhere. apply in_map_iff. exists r. by rewrite Hp.
Qed.

Lemma truthy_Some (o : option string) s : JS.truthy o = Some s → o = Some s ∧ s ≠ "".
Proof. unfold JS.truthy. destruct o as [x|]; [|done]. by destruct (decide (x = "")); intros [= ->]. Qed.

Lemma truthy_None (o : option string) : JS.truthy o = None → o ≠ Some "" → o = None.
Proof. unfold JS.truthy. destruct o as [x|]; [|done]. destruct (decide (x = "")); [by subst|done]. Qed.

Lemma normalizeUrl_strip url : normalizeUrl url ≠ "" → normalizeUrl url = JS.stripTrailingSlashes url.
Proof.
  unfold normalizeUrl, normalizeCalendarUrl, JS.truthy. by destruct (decide (url = "")).
Qed.

(** The row made for a fetched event with a UID is found under that UID. *)
Lemma newRow_matchesUID id event uid url :
  uid ≠ "" → normalizeUrl url ≠ "" →
  matchesUID uid (normalizeUrl url) (newRow id (withoutUid event) (Some uid) (Some url) (Some "caldav"))
  = true.
Proof.
  intros Hu Hn. unfold matchesUID, newRow. simpl.
  assert (Hurl : url ≠ "") by (intros ->; by apply Hn).
  unfold normalizeUrl, normalizeCalendarUrl in *. unfold JS.truthy in *.
  rewrite (decide_False (P := url = "")) in Hn by done. simpl in Hn.
  repeat (rewrite decide_False by done; simpl).
  by rewrite !bool_decide_eq_true_2.
Qed.

(** The row made for a fetched event without UID is found by its details. *)
Lemma newRow_matchesEvent id event url :
  JS.truthy (ev_uid event) = None →
  ev_startTime event ≠ Some "" → ev_endTime event ≠ Some "" →
  matchesEvent event (normalizeCalendarUrl (Some url)) "caldav"
               (newRow id event None (Some url) (Some "caldav")) = true.
Proof.
  intros Hu Hs He. unfold matchesEvent, newRow. simpl.
  rewrite !bool_decide_eq_true_2 by done. simpl.
  assert (Hst : match JS.truthy (ev_startTime event) with
                | Some s => bool_decide (ev_startTime event = Some s)
                | None => bool_decide (ev_startTime event = None)
                end = true).
  { destruct (JS.truthy (ev_startTime event)) as [x|] eqn:E.
    - apply truthy_Some in E as [-> _]. by apply bool_decide_eq_true_2.
    - apply bool_decide_eq_true_2. by apply truthy_None. }
  assert (Het : match JS.truthy (ev_endTime event) with
                | Some s => bool_decide (ev_endTime event = Some s)
                | None => bool_decide (ev_endTime event = None)
                end = true).
  { destruct (JS.truthy (ev_endTime event)) as [x|] eqn:E.
    - apply truthy_Some in E as [-> _]. by apply bool_decide_eq_true_2.
    - apply bool_decide_eq_true_2. by apply truthy_None. }
  rewrite Hst, Het. simpl.
  unfold normalizeCalendarUrl, JS.truthy.
  destruct (decide (url = "")) as [->|Hurl]; [done|]. simpl.
  rewrite !(decide_False (P := url = "")) by done.
  destruct (decide (JS.stripTrailingSlashes url = "")); simpl; [done|].
  by apply bool_decide_eq_true_2.
Qed.

Lemma world_bind {A B} (m : M A) (k : A → M B) w a w1 t1 :
  m w = (Returned a, w1, t1) → world ((m ≫= k) w) = world (k a w1).
Proof.
  intros H. rewrite (bind_returned _ _ _ _ _ _ H). unfold world.
  by destruct (k a w1) as [[??]?].
Qed.

Lemma world_ret {A} (a : A) w : world ((mret a : M A) w) = w.
Proof. done. Qed.

(** The adapter calls on a store that answers without errors. *)
Lemma eventExistsByUID_run uid url w :
  eventExistsByUID env uid url w
  = (Returned (existsb (matchesUID uid (normalizeUrl url)) (events w)), ticked w,
     [CEventExistsByUID uid url (existsb (matchesUID uid (normalizeUrl url)) (events w))]).
Proof. unfold eventExistsByUID. unfold_monad. simpl. by rewrite no_error. Qed.

Lemma fetchEventByUID_run uid url w :
  fetchEventByUID env uid url w
  = (Returned (maybeSingle (List.filter (matchesUID uid (normalizeUrl url)) (events w))),
     ticked w,
     [CFetchEventByUID uid url
        (maybeSingle (List.filter (matchesUID uid (normalizeUrl url)) (events w)))]).
Proof. unfold fetchEventByUID. unfold_monad. simpl. by rewrite no_error. Qed.

Lemma updateEventByUID_run uid url updates w :
  updateEventByUID env uid url updates w
  = (Returned true,
     setEvents (updateWhere (matchesUID uid (normalizeUrl url)) (applyPayload updates) (events w))
               (ticked w),
     [CUpdateEventByUID uid url updates true]).
Proof. unfold updateEventByUID. unfold_monad. simpl. by rewrite no_error. Qed.

Lemma findEventByDetails_run event url w :
  findEventByDetails env event url w
  = (Returned (foundByDetails event url (events w)), ticked w,
     [CFindEventByDetails event url (foundByDetails event url (events w))]).
Proof. unfold findEventByDetails, foundByDetails. unfold_monad. simpl. by rewrite no_error. Qed.

Lemma updateEventUID_run id uid url w :
  updateEventUID env id uid url w
  = (Returned true,
     setEvents (updateWhere (fun r => bool_decide (row_id r = id))
                            (attachUID uid (normalizeUrl url)) (events w)) (ticked w),
     [CUpdateEventUID id uid url true]).
Proof. unfold updateEventUID. unfold_monad. simpl. by rewrite no_error. Qed.

Lemma createEvent_run event caldavUid url source w :
  createEvent env event caldavUid url source w
  = (Returned (Some (newRow (db_new_id env (tick w)) event caldavUid url source)),
     setEvents (events w ++ [newRow (db_new_id env (tick w)) event caldavUid url source])
               (ticked w),
     [CCreateEvent (newRow (db_new_id env (tick w)) event caldavUid url source) true]).
Proof. unfold createEvent. unfold_monad. simpl. by rewrite no_error. Qed.

Lemma eventExists_run event url source w :
  eventExists env event url source w
  = (Returned (existsb (matchesEvent event (normalizeCalendarUrl (Some url)) source) (events w)),
     ticked w,
     [CEventExists event url
        (existsb (matchesEvent event (normalizeCalendarUrl (Some url)) source) (events w))]).
Proof. unfold eventExists. unfold_monad. simpl. by rewrite no_error. Qed.

Lemma foundByDetails_In event url rows id :
  foundByDetails event url rows = Some id → ∃ r, In r rows ∧ row_id r = id.
Proof.
  unfold foundByDetails. destruct (List.filter _ rows) as [|r rest] eqn:Ef; [done|].
  intros [[= <-] _]%truthy_Some. exists r. split; [|done].
  assert (H : In r (List.filter (matchesDetails event (normalizeUrl url)) rows))
    by (rewrite Ef; by left).
  by apply filter_In in H as [? _].
Qed.

Lemma known_after url s event w :
  normalizeUrl url ≠ "" → ev_startTime event ≠ Some "" → ev_endTime event ≠ Some "" →
  known url event (events (world (processEvent env url s event w))) = true.
Proof.
  intros Hn Hs He. unfold known, processEvent.
  destruct (JS.truthy (ev_uid event)) as [uid|] eqn:Eu.
  - apply truthy_Some in Eu as [_ Huid].
    rewrite (world_bind _ _ _ _ _ _ (eventExistsByUID_run uid url w)).
    destruct (existsb (matchesUID uid (normalizeUrl url)) (events w)) eqn:Ex.
    + rewrite (world_bind _ _ _ _ _ _ (fetchEventByUID_run uid url _)).
      destruct (maybeSingle _) as [existing|]; [|done].
      destruct (hasUpdates _); [|done].
      rewrite (world_bind _ _ _ _ _ _ (updateEventByUID_run uid url _ _)).
      rewrite world_ret. simpl. apply existsb_updateWhere_kept; [|done].
      intros r Hr. unfold matchesUID, applyPayload in *. done.
    + rewrite (world_bind _ _ _ _ _ _ (findEventByDetails_run event url _)).
      destruct (foundByDetails event url (events (ticked w))) as [id|] eqn:Ef.
      * destruct (foundByDetails_In _ _ _ _ Ef) as (r0 & Hr0 & Hid).
        rewrite (world_bind _ _ _ _ _ _ (updateEventUID_run id uid url _)).
        rewrite world_ret. simpl.
        apply (existsb_updateWhere_made _ _ _ _ r0); [done|by apply bool_decide_eq_true_2|].
        unfold matchesUID, attachUID. simpl. by rewrite !bool_decide_eq_true_2.
      * rewrite (world_bind _ _ _ _ _ _ (createEvent_run _ _ _ _ _)).
        rewrite world_ret. simpl. rewrite existsb_app. simpl.
        rewrite newRow_matchesUID by done. by rewrite orb_true_r.
  - rewrite (world_bind _ _ _ _ _ _ (eventExists_run event url "caldav" w)).
    destruct (existsb _ (events w)) eqn:Ex; [done|].
    rewrite (world_bind _ _ _ _ _ _ (createEvent_run _ _ _ _ _)).
    rewrite world_ret. simpl. rewrite existsb_app. simpl.
    rewrite newRow_matchesEvent by done. by rewrite orb_true_r.
Qed.

Lemma known_creates_nothing url s event w :
  known url event (events w) = true →
  map row_id (events (world (processEvent env url s event w))) = map row_id (events w)
  ∧ forallb (fun c => negb (isCreateEvent c)) (trace (processEvent env url s event w)) = true.
Proof.
  unfold known. destruct (JS.truthy (ev_uid event)) as [uid|] eqn:Eu; intros Hk.
  - destruct (existing_event_not_recreated env url s event uid w Eu (no_error _) Hk) as [H1 H2].
    split; [done|]. revert H2.
    generalize (trace (processEvent env url s event w)). intros t.
    induction t as [|c t IH]; simpl; [done|].
    intros [Hc Ht]%andb_true_iff. rewrite IH by done. by destruct c.
  - unfold processEvent, world, trace. rewrite Eu.
    unfold eventExists. unfold_monad. simpl. rewrite !no_error, Hk. done.
Qed.

End Reprocessing.

(** X3.  Fetching an event twice makes one row: after [processEvent] has
    dealt with a fetched event, dealing with the same event again creates
    nothing and leaves the rows of the store the same in number and ids,
    when the store answers without errors, the calendar URL is not blank
    and the times of the event are no empty texts. *)
Theorem reprocessing_creates_nothing (env : Env) (calendarUrl : string) (s s' : PassState)
    (event : RemoteEvent) (w : World) :
  (∀ t, db_error env t = false) →
  normalizeUrl calendarUrl ≠ "" →
  ev_startTime event ≠ Some "" → ev_endTime event ≠ Some "" →
  let w1 := world (processEvent env calendarUrl s event w) in
  map row_id (events (world (processEvent env calendarUrl s' event w1))) = map row_id (events w1)
  ∧ forallb (fun c => negb (isCreateEvent c))
            (trace (processEvent env calendarUrl s' event w1)) = true.
Proof.
  intros Herr Hn Hs He w1. apply known_creates_nothing; [done|].
  by apply known_after.
Qed.

Section Slashes.

Lemma stripTrailingSlashes_cons c s :
  JS.stripTrailingSlashes (String c s)
  = if decide (JS.stripTrailingSlashes s = "" ∧ c = "/"%char) then ""
    else String c (JS.stripTrailingSlashes s).
Proof. reflexivity. Qed.

Lemma stripTrailingSlashes_slash s :
  JS.stripTrailingSlashes (s +:+ "/") = JS.stripTrailingSlashes s.
Proof.
  induction s as [|c s IH]; [done|].
  change (String c s +:+ "/") with (String c (s +:+ "/")).
  by rewrite !stripTrailingSlashes_cons, IH.
Qed.

Lemma stripTrailingSlashes_ends s : endsInSlash (JS.stripTrailingSlashes s) = false.
Proof.
  induction s as [|c s IH]; [done|]. rewrite stripTrailingSlashes_cons.
  destruct (decide _) as [|Hn]; [done|].
  destruct (JS.stripTrailingSlashes s) as [|c' r] eqn:E.
  - simpl. apply bool_decide_eq_false. intros ->. by apply Hn.
  - exact IH.
Qed.

Lemma stripTrailingSlashes_fixed s : endsInSlash s = false → JS.stripTrailingSlashes s = s.
Proof.
  induction s as [|c s IH]; [done|]. intros H. rewrite stripTrailingSlashes_cons.
  destruct s as [|c' s'].
  - simpl in *. apply bool_decide_eq_false in H. rewrite decide_False; [done|]. by intros [_ ?].
  - rewrite IH by exact H. rewrite decide_False; [done|]. by intros [? _].
Qed.

Lemma stripTrailingSlashes_idem s :
  JS.stripTrailingSlashes (JS.stripTrailingSlashes s) = JS.stripTrailingSlashes s.
Proof. apply stripTrailingSlashes_fixed, stripTrailingSlashes_ends. Qed.

Lemma endsWith_slash_cons c s :
  JS.endsWith (String c s) "/"
  = match s with EmptyString => bool_decide (c = "/"%char) | _ => JS.endsWith s "/" end.
Proof.
  unfold JS.endsWith. destruct s as [|c' s'].
  - simpl. destruct (Ascii.eqb_spec c "/"%char) as [->|Hc].
    + by rewrite bool_decide_eq_true_2.
    + by rewrite bool_decide_eq_false_2.
  - change (String.length (String c (String c' s'))) with (S (String.length (String c' s'))).
    change (String.length "/") with 1%nat.
    change (String.length (String c' s')) with (S (String.length s')).
    replace (S (S (String.length s')) - 1)%nat with (S (String.length s')) by lia.
    replace (S (String.length s') - 1)%nat with (String.length s') by lia.
    reflexivity.
Qed.

Lemma endsWith_slash s : JS.endsWith s "/" = endsInSlash s.
Proof.
  induction s as [|c s IH]; [done|]. rewrite endsWith_slash_cons.
  destruct s; [done|]. rewrite IH. done.
Qed.

End Slashes.

(** X4.  [normalizeCalendarUrl] yields a normal form: applied twice it gives
    what it gives applied once, a URL with a slash added at the end has the
    normal form of the URL without it, and no normal form ends in a slash. *)
Theorem normalizeCalendarUrl_normal_form (url : option string) (u : string) :
  normalizeCalendarUrl (normalizeCalendarUrl url) = normalizeCalendarUrl url
  ∧ normalizeCalendarUrl (Some (u +:+ "/")) = normalizeCalendarUrl (Some u)
  ∧ JS.endsWith (JS.orEmpty (normalizeCalendarUrl url)) "/" = false.
Proof.
  split; [|split].
  - unfold normalizeCalendarUrl. destruct (JS.truthy url) as [v|] eqn:E; [|by rewrite E].
    unfold JS.truthy at 1. destruct (decide (JS.stripTrailingSlashes v = "")) as [->|]; [done|].
    by rewrite stripTrailingSlashes_idem.
  - unfold normalizeCalendarUrl, JS.truthy.
    destruct (decide (u +:+ "/" = "")) as [H|_]; [by destruct u|].
    rewrite stripTrailingSlashes_slash. by destruct (decide (u = "")) as [->|].
  - rewrite endsWith_slash. unfold normalizeCalendarUrl.
    destruct (JS.truthy url) as [v|] eqn:E; simpl; [apply stripTrailingSlashes_ends|].
    destruct url as [x|]; [|done]. unfold JS.truthy in E.
    destruct (decide (x = "")) as [->|]; done.
Qed.

Lemma outcome_bind {A B} (m : M A) (k : A → M B) w a w1 t1 :
  m w = (Returned a, w1, t1) → outcome ((m ≫= k) w) = outcome (k a w1).
Proof.
  intros H. rewrite (bind_returned _ _ _ _ _ _ H). unfold outcome.
  by destruct (k a w1) as [[??]?].
Qed.

(** X5.  What [createEvent] stores for a UID and a calendar is found by
    [eventExistsByUID] under that UID and every spelling of the calendar's
    URL that has the same normal form, when the UID and the normal form are
    not empty and the store answers without errors. *)
Theorem created_event_is_found (env : Env) (event : RemoteEvent) (uid calendarUrl spelling : string)
    (source : option string) (w : World) :
  (∀ t, db_error env t = false) →
  uid ≠ "" → normalizeUrl calendarUrl ≠ "" →
  normalizeUrl spelling = normalizeUrl calendarUrl →
  outcome ((createEvent env (withoutUid event) (Some uid) (Some calendarUrl) source;;
            eventExistsByUID env uid spelling) w)
  = Returned true.
Proof.
  intros Herr Hu Hn Hs.
  rewrite (outcome_bind _ _ _ _ _ _ (createEvent_run env Herr _ _ _ _ w)).
  rewrite (eventExistsByUID_run env Herr). unfold outcome. simpl. f_equal.
  rewrite existsb_app. simpl. rewrite Hs.
  assert (H : matchesUID uid (normalizeUrl calendarUrl)
                (newRow (db_new_id env (tick w)) (withoutUid event) (Some uid)
                        (Some calendarUrl) source) = true).
  { rewrite <- (newRow_matchesUID (db_new_id env (tick w)) event uid calendarUrl Hu Hn).
    unfold matchesUID, newRow. done. }
  rewrite H. by rewrite orb_true_r.
Qed.

Section Deletion.
Context (env : Env).

Lemma NoDup_map_eq {A B} (f : A → B) (l : list A) a b :
  List.NoDup (map f l) → In a l → In b l → f a = f b → a = b.
Proof.
  induction l as [|x l IH]; [done|]. simpl. intros Hnd Ha Hb Hf.
  apply List.NoDup_cons_iff in Hnd as [Hx Hnd].
  destruct Ha as [->|Ha], Hb as [->|Hb]; [done| | |by apply IH].
  - exfalso. apply Hx. rewrite Hf. by apply in_map.
  - exfalso. apply Hx. rewrite <- Hf. by apply in_map.
Qed.

Lemma In_deleteIds r batch rows :
  In r rows → ¬ In (row_id r) batch → In r (deleteIds batch rows).
Proof.
  intros Hr Hb. unfold deleteIds. apply filter_In. split; [done|].
  apply negb_true_iff, bool_decide_eq_false. by rewrite list_elem_of_In.
Qed.

Lemma deleteBatch_spares r n batch :
  ¬ In (row_id r) batch →
  hoare (fun w => In r (events w)) (deleteBatch env n batch)
        (fun _ w => In r (events w)) (fun w => In r (events w)).
Proof.
  intros Hb w Hw. unfold deleteBatch. unfold_monad. simpl.
  destruct (db_error env (tick w)); simpl; [done|]. by apply In_deleteIds.
Qed.

Lemma deleteRemovedEvents_spares_row url uids evs r w :
  In r (events w) →
  ¬ In (row_id r) (toDelete uids evs (caldavRowsOf (calendarUrlVariants url) (events w))) →
  In r (events (world (deleteRemovedEvents env url uids evs w))).
Proof.
  intros Hw Hr.
  assert (Hbody : In r (events (world (deleteRemovedEvents_body env url uids evs w)))).
  { unfold deleteRemovedEvents_body, world.
    destruct (decide (_ ∧ _)); [done|].
    unfold_monad. simpl.
    destruct (db_error env (tick w)); [done|].
    destruct (decide (_ ∧ _)); [done|].
    destruct (runawayGuard _ _); [done|].
    destruct (decide (0 < _)%nat); [|done].
    set (w1 := mkWorld (events w) (localStorage w) (syncInFlight w) (S (tick w))).
    set (ids := toDelete uids evs (caldavRowsOf (calendarUrlVariants url) (events w))).
    assert (Hfold : hoare (fun w => In r (events w)) (foldM (deleteBatch env) (batches 50 ids) 0)
                          (fun _ w => In r (events w)) (fun w => In r (events w))).
    { apply (hoare_foldM (fun _ w => In r (events w))). intros count b Hb.
      apply deleteBatch_spares. intros Hi. apply Hr. by apply (batches_In 50 _ b). }
    specialize (Hfold w1 Hw).
    by destruct (foldM (deleteBatch env) (batches 50 ids) 0 w1) as [[[a|e] w2] t2]. }
  revert Hbody. unfold deleteRemovedEvents, world. unfold_monad.
  by destruct (deleteRemovedEvents_body env url uids evs w) as [[[a|e] w2] t2].
Qed.

End Deletion.

(** X6.  [deleteRemovedEvents] removes nothing but candidates: a row that
    is not a row of source ['caldav'] stored under the calendar's URL, or
    whose UID is among the fetched UIDs, or that has no UID and bears the
    title, date and times of a fetched event, is in the store after the
    call.  The ids are those of a primary key. *)
Theorem deleteRemovedEvents_spares (env : Env) (calendarUrl : string) (currentUids : gset string)
    (currentEvents : list RemoteEvent) (w : World) (r : Row) :
  List.NoDup (map row_id (events w)) →
  In r (events w) →
  isCaldavRowOf (calendarUrlVariants calendarUrl) r = false
  ∨ shouldDelete currentUids (currentEventKeys currentEvents) r = false →
  In r (events (world (deleteRemovedEvents env calendarUrl currentUids currentEvents w))).
Proof.
  intros Hnd Hr Hkeep.
  assert (Hid : ¬ In (row_id r) (toDelete currentUids currentEvents
                                   (caldavRowsOf (calendarUrlVariants calendarUrl) (events w)))).
  { unfold toDelete. intros (c & Hc & Hin)%in_map_iff.
    apply filter_In in Hin as [Hin Hdel]. unfold caldavRowsOf in Hin.
    apply filter_In in Hin as [Hin Hcal].
    assert (c = r) as -> by (by apply (NoDup_map_eq row_id (events w))).
    destruct Hkeep; congruence. }
  by apply deleteRemovedEvents_spares_row.
Qed.

Section Batches.
Context (env : Env).

Lemma deleteIds_app b1 b2 rows : deleteIds b2 (deleteIds b1 rows) = deleteIds (b1 ++ b2) rows.
Proof.
  unfold deleteIds. induction rows as [|r rows IH]; [done|]. simpl.
  destruct (bool_decide (row_id r ∈ b1)) eqn:E1; simpl.
  - apply bool_decide_eq_true in E1.
    rewrite (bool_decide_eq_true_2 (row_id r ∈ b1 ++ b2)) by (apply elem_of_app; by left).
    simpl. exact IH.
  - apply bool_decide_eq_false in E1.
    destruct (bool_decide (row_id r ∈ b2)) eqn:E2; simpl.
    + apply bool_decide_eq_true in E2.
      rewrite (bool_decide_eq_true_2 (row_id r ∈ b1 ++ b2)) by (apply elem_of_app; by right).
      simpl. exact IH.
    + apply bool_decide_eq_false in E2.
      rewrite (bool_decide_eq_false_2 (row_id r ∈ b1 ++ b2))
        by (rewrite elem_of_app; tauto).
      simpl. by rewrite IH.
Qed.

Lemma deleteIds_nil rows : deleteIds [] rows = rows.
Proof.
  unfold deleteIds. apply filter_all. intros r _.
  apply negb_true_iff, bool_decide_eq_false, not_elem_of_nil.
Qed.

(** The loop over the batches, whatever the store does with each. *)
Lemma deleteBatches_run bs n w :
  foldM (deleteBatch env) bs n w
  = (Returned (n + Z.of_nat (length (succeeded env (tick w) bs))),
     mkWorld (deleteIds (succeeded env (tick w) bs) (events w)) (localStorage w) (syncInFlight w)
             (tick w + length bs),
     []).
Proof.
  revert n w. induction bs as [|b bs IH]; intros n w.
  - simpl. unfold ret. rewrite deleteIds_nil, Z.add_0_r, Nat.add_0_r. by destruct w.
  - cbn [foldM succeeded].
    assert (Hb : deleteBatch env n b w
                 = (Returned (n + Z.of_nat (length (if db_error env (tick w) then [] else b))),
                    mkWorld (deleteIds (if db_error env (tick w) then [] else b) (events w))
                            (localStorage w) (syncInFlight w) (S (tick w)), [])).
    { unfold deleteBatch. unfold_monad. simpl.
      destruct (db_error env (tick w)); simpl; [|done].
      by rewrite deleteIds_nil, Z.add_0_r. }
    rewrite (bind_returned _ _ _ _ _ _ Hb), IH. simpl.
    rewrite deleteIds_app, length_app, Nat2Z.inj_add.
    do 2 f_equal; [f_equal; lia | f_equal; lia].
Qed.

Lemma succeeded_incl t bs : incl (succeeded env t bs) (concat bs).
Proof.
  revert t. induction bs as [|b bs IH]; intros t i; simpl; [done|].
  intros [Hi|Hi]%in_app_or; apply in_or_app.
  - left. by destruct (db_error env t).
  - right. by apply (IH (S t)).
Qed.

Lemma succeeded_NoDup t bs : List.NoDup (concat bs) → List.NoDup (succeeded env t bs).
Proof.
  revert t. induction bs as [|b bs IH]; intros t; simpl; [done|].
  intros Hnd. apply NoDup_app_remove_l in Hnd as Hbs.
  destruct (db_error env t); simpl; [by apply IH|].
  induction b as [|i b IHb]; simpl in *; [by apply IH|].
  apply List.NoDup_cons_iff in Hnd as [Hi Hnd]. apply List.NoDup_cons_iff. split.
  - intros [H|H]%in_app_or; apply Hi, in_or_app; [by left|right].
    by apply (succeeded_incl (S t)).
  - by apply IHb.
Qed.

Lemma succeeded_all t bs : (∀ t, db_error env t = false) → succeeded env t bs = concat bs.
Proof.
  intros Herr. revert t. induction bs as [|b bs IH]; intros t; simpl; [done|].
  by rewrite Herr, IH.
Qed.

End Batches.

Section Counting.

Lemma deleteIds_In r D rows : In r (deleteIds D rows) ↔ In r rows ∧ ¬ In (row_id r) D.
Proof.
  unfold deleteIds. rewrite filter_In, negb_true_iff, bool_decide_eq_false, list_elem_of_In. done.
Qed.

Lemma deleteIds_ids D rows :
  List.NoDup (map row_id rows) → List.NoDup (map row_id (deleteIds D rows)).
Proof.
  unfold deleteIds. induction rows as [|r rows IH]; simpl; [done|].
  intros [Hr Hnd]%List.NoDup_cons_iff.
  destruct (negb _); simpl; [|by apply IH].
  apply List.NoDup_cons_iff. split; [|by apply IH].
  intros (r' & Hid & Hin)%in_map_iff. apply Hr. apply in_map_iff. exists r'.
  apply filter_In in Hin as [? _]. done.
Qed.

Lemma length_deleteIds_one i rows :
  List.NoDup (map row_id rows) → In i (map row_id rows) →
  S (length (deleteIds [i] rows)) = length rows.
Proof.
  unfold deleteIds. induction rows as [|r rows IH]; simpl; [done|].
  intros [Hr Hnd]%List.NoDup_cons_iff Hi.
  destruct (decide (row_id r = i)) as [<-|Hne].
  - rewrite bool_decide_eq_true_2 by (apply list_elem_of_singleton; done). simpl. f_equal.
    fold (deleteIds [row_id r] rows).
    assert (H : deleteIds [row_id r] rows = rows); [|by rewrite H].
    unfold deleteIds. apply filter_all. intros x Hx.
    apply negb_true_iff, bool_decide_eq_false. rewrite list_elem_of_singleton.
    intros Heq. apply Hr. rewrite <- Heq. by apply in_map.
  - rewrite bool_decide_eq_false_2 by (rewrite list_elem_of_singleton; done). simpl. f_equal.
    apply IH; [done|]. by destruct Hi.
Qed.

(** Deleting by distinct ids that are in the table removes as many rows as
    there are ids. *)
Lemma length_deleteIds D rows :
  List.NoDup (map row_id rows) → List.NoDup D → incl D (map row_id rows) →
  (length (deleteIds D rows) + length D = length rows)%nat.
Proof.
  revert rows. induction D as [|i D IH]; intros rows Hnd HD Hincl.
  - rewrite deleteIds_nil. simpl. lia.
  - apply List.NoDup_cons_iff in HD as [Hi HD].
    change (i :: D) with ([i] ++ D). rewrite <- deleteIds_app.
    specialize (IH (deleteIds [i] rows)). simpl.
    rewrite <- (length_deleteIds_one i rows Hnd) by (apply Hincl; by left).
    rewrite <- IH; [lia| by apply deleteIds_ids | done |].
    intros j Hj. assert (Hjr : In j (map row_id rows)) by (apply Hincl; by right).
    apply in_map_iff in Hjr as (r & <- & Hr). apply in_map, deleteIds_In. split; [done|].
    intros [Heq|[]]. apply Hi. by rewrite Heq.
Qed.

Lemma batchesFrom_concat fuel n (l : list string) :
  (0 < n)%nat → (length l ≤ fuel)%nat → concat (batchesFrom fuel n l) = l.
Proof.
  intros Hn. revert l. induction fuel as [|fuel IH]; intros l Hl.
  - destruct l; [done|]. simpl in Hl. lia.
  - simpl. destruct l as [|x l]; [done|]. simpl concat.
    rewrite IH; [apply take_drop|]. rewrite length_drop. simpl in *. lia.
Qed.

Lemma batches_concat n (l : list string) : (0 < n)%nat → concat (batches n l) = l.
Proof. intros Hn. by apply batchesFrom_concat. Qed.

Lemma toDelete_NoDup uids evs rows :
  List.NoDup (map row_id rows) → List.NoDup (toDelete uids evs rows).
Proof.
  unfold toDelete. generalize (shouldDelete uids (currentEventKeys evs)). intros p.
  induction rows as [|r rows IH]; simpl; [done|]. intros [Hr Hnd]%List.NoDup_cons_iff.
  destruct (p r); simpl; [|by apply IH]. apply List.NoDup_cons_iff. split; [|by apply IH].
  intros (r' & Hid & Hin)%in_map_iff. apply Hr, in_map_iff. exists r'.
  by apply filter_In in Hin as [? _].
Qed.

Lemma caldavRowsOf_NoDup urls rows :
  List.NoDup (map row_id rows) → List.NoDup (map row_id (caldavRowsOf urls rows)).
Proof.
  unfold caldavRowsOf. generalize (isCaldavRowOf urls). intros p.
  induction rows as [|r rows IH]; simpl; [done|]. intros [Hr Hnd]%List.NoDup_cons_iff.
  destruct (p r); simpl; [|by apply IH]. apply List.NoDup_cons_iff. split; [|by apply IH].
  intros (r' & Hid & Hin)%in_map_iff. apply Hr, in_map_iff. exists r'.
  by apply filter_In in Hin as [? _].
Qed.

Lemma toDelete_incl uids evs urls rows :
  incl (toDelete uids evs (caldavRowsOf urls rows)) (map row_id rows).
Proof.
  intros i (r & <- & Hin)%in_map_iff. apply in_map.
  apply filter_In in Hin as [Hin _]. by apply filter_In in Hin as [? _].
Qed.

End Counting.

(** X7.  The number [deleteRemovedEvents] answers is the number of rows it
    has removed from the store, batches that failed included in neither;
    the ids are those of a primary key. *)
Theorem deleteRemovedEvents_counts (env : Env) (calendarUrl : string) (currentUids : gset string)
    (currentEvents : list RemoteEvent) (w : World) :
  List.NoDup (map row_id (events w)) →
  let run := deleteRemovedEvents env calendarUrl currentUids currentEvents w in
  outcome run
  = Returned (Z.of_nat (length (events w)) - Z.of_nat (length (events (world run)))).
Proof.
  intros Hnd run. subst run.
  assert (Hbody :
    let body := deleteRemovedEvents_body env calendarUrl currentUids currentEvents w in
    outcome body
    = Returned (Z.of_nat (length (events w)) - Z.of_nat (length (events (world body))))).
  { unfold deleteRemovedEvents_body, outcome, world.
    destruct (decide (_ ∧ _)); [simpl; f_equal; lia|].
    unfold_monad. simpl.
    destruct (db_error env (tick w)); [simpl; f_equal; lia|].
    destruct (decide (_ ∧ _)); [simpl; f_equal; lia|].
    destruct (runawayGuard _ _); [simpl; f_equal; lia|].
    destruct (decide (0 < _)%nat); [|simpl; f_equal; lia].
    rewrite deleteBatches_run. simpl. f_equal.
    set (ids := toDelete currentUids currentEvents
                  (caldavRowsOf (calendarUrlVariants calendarUrl) (events w))).
    set (D := succeeded env (S (tick w)) (batches 50 ids)).
    assert (HD : List.NoDup D).
    { apply succeeded_NoDup. rewrite batches_concat by lia.
      by apply toDelete_NoDup, caldavRowsOf_NoDup. }
    assert (Hincl : incl D (map row_id (events w))).
    { intros i Hi. apply succeeded_incl in Hi. rewrite batches_concat in Hi by lia.
      by apply toDelete_incl in Hi. }
    pose proof (length_deleteIds D (events w) Hnd HD Hincl). lia. }
  revert Hbody. unfold deleteRemovedEvents, outcome, world. unfold_monad.
  by destruct (deleteRemovedEvents_body env calendarUrl currentUids currentEvents w)
    as [[[a|e] w2] t2].
Qed.

Section DuplicateLemmas.

Lemma firstOfEachKey_incl seen l : incl (firstOfEachKey seen l) l.
Proof.
  revert seen. induction l as [|x l IH]; intros seen r; simpl; [done|].
  destruct (decide _); [right; by apply (IH seen)|].
  intros [->|Hr]; [by left | right; by eapply IH].
Qed.

Lemma findDuplicates_incl seen l : incl (findDuplicates seen l) (map row_id l).
Proof.
  revert seen. induction l as [|x l IH]; intros seen i; simpl; [done|].
  destruct (decide _).
  - intros [<-|Hi]; [by left | right; by apply (IH seen)].
  - intros Hi. right. by eapply IH.
Qed.

Lemma findDuplicates_NoDup seen l :
  List.NoDup (map row_id l) → List.NoDup (findDuplicates seen l).
Proof.
  revert seen. induction l as [|x l IH]; intros seen; simpl; [done|].
  intros [Hx Hnd]%List.NoDup_cons_iff. destruct (decide _); [|by apply IH].
  apply List.NoDup_cons_iff. split; [|by apply IH].
  intros Hi. by apply Hx, (findDuplicates_incl seen).
Qed.

(** With ids of a primary key, a row is pushed or is the first of its key. *)
Lemma pushed_or_first seen l r :
  List.NoDup (map row_id l) → In r l →
  (In (row_id r) (findDuplicates seen l) ↔ ¬ In r (firstOfEachKey seen l)).
Proof.
  revert seen. induction l as [|x l IH]; intros seen Hnd Hr; [done|].
  simpl in Hnd. apply List.NoDup_cons_iff in Hnd as [Hx Hnd]. simpl.
  destruct Hr as [->|Hr].
  - destruct (decide _).
    + split; [|by left]. intros _ Hin. apply Hx, in_map. by apply (firstOfEachKey_incl seen).
    + split; [|intros H; exfalso; apply H; by left].
      intros Hin. exfalso. by apply Hx, (findDuplicates_incl ({[duplicateKey r]} ∪ seen)).
  - assert (Hne : row_id x ≠ row_id r) by (intros Heq; apply Hx; rewrite Heq; by apply in_map).
    destruct (decide _).
    + rewrite <- (IH seen Hnd Hr). simpl. split; [by intros [?|?]|by right].
    + rewrite (IH _ Hnd Hr). simpl. split; [intros H [->|?]; by auto | intros H ?; apply H; by right].
Qed.

Lemma firstOfEachKey_keys seen l :
  List.NoDup (map duplicateKey (firstOfEachKey seen l))
  ∧ ∀ r, In r (firstOfEachKey seen l) → duplicateKey r ∉ seen.
Proof.
  revert seen. induction l as [|x l IH]; intros seen; simpl.
  - split; [constructor|done].
  - destruct (decide (duplicateKey x ∈ seen)) as [Hin|Hout]; [apply IH|].
    destruct (IH ({[duplicateKey x]} ∪ seen)) as [Hnd Hkeys]. split.
    + simpl. apply List.NoDup_cons_iff. split; [|done].
      intros (r & Hk & Hr)%in_map_iff. apply (Hkeys r Hr). rewrite Hk.
      apply elem_of_union. left. by apply elem_of_singleton.
    + intros r [<-|Hr]; [done|]. intros Hs. apply (Hkeys r Hr).
      apply elem_of_union. by right.
Qed.

Lemma key_has_first seen l r :
  In r l → duplicateKey r ∈ seen ∨ ∃ r', In r' (firstOfEachKey seen l) ∧ duplicateKey r' = duplicateKey r.
Proof.
  revert seen. induction l as [|x l IH]; intros seen Hr; [done|]. simpl.
  destruct Hr as [->|Hr].
  - destruct (decide _); [by left|]. right. exists r. split; [by left|done].
  - destruct (decide (duplicateKey x ∈ seen)); [by apply IH|].
    destruct (IH ({[duplicateKey x]} ∪ seen) Hr) as [Hs|(r' & Hr' & Hk)].
    + apply elem_of_union in Hs as [Hs|Hs]; [|by left].
      apply elem_of_singleton in Hs. right. exists x. split; [by left|done].
    + right. exists r'. split; [by right|done].
Qed.

Lemma findDuplicates_none seen l :
  List.NoDup (map duplicateKey l) → (∀ r, In r l → duplicateKey r ∉ seen) →
  findDuplicates seen l = [].
Proof.
  revert seen. induction l as [|x l IH]; intros seen Hnd Hs; [done|]. simpl.
  simpl in Hnd. apply List.NoDup_cons_iff in Hnd as [Hx Hnd].
  destruct (decide _) as [Hin|_]; [exfalso; by apply (Hs x (or_introl eq_refl))|].
  apply IH; [done|]. intros r Hr [Hk|Hk]%elem_of_union.
  - apply elem_of_singleton in Hk. apply Hx. rewrite <- Hk. by apply in_map.
  - by apply (Hs r (or_intror Hr)).
Qed.

End DuplicateLemmas.

Section DuplicateTheorems.
Context (env : Env) (orderByDate : list Row → list Row).
Hypothesis order_permutes : ∀ rows, Permutation (orderByDate rows) rows.

(** What a run leaves and answers, whatever the store does. *)
Lemma deleteDuplicateEvents_run w :
  ∃ D, incl D (findDuplicates ∅ (orderByDate (events w)))
       ∧ (List.NoDup (map row_id (events w)) → List.NoDup D)
       ∧ ((∀ t, db_error env t = false) → D = findDuplicates ∅ (orderByDate (events w)))
       ∧ outcome (deleteDuplicateEvents env orderByDate w) = Returned (Z.of_nat (length D))
       ∧ events (world (deleteDuplicateEvents env orderByDate w)) = deleteIds D (events w).
Proof.
  unfold deleteDuplicateEvents, outcome, world. unfold_monad. simpl.
  set (dups := findDuplicates ∅ (orderByDate (events w))).
  assert (Hdups : List.NoDup (map row_id (events w)) → List.NoDup dups).
  { intros Hnd. apply findDuplicates_NoDup.
    apply (Permutation_NoDup (l := map row_id (events w))); [|done].
    apply Permutation_map. symmetry. apply order_permutes. }
  destruct (db_error env (tick w)) eqn:Err.
  - exists []. simpl. rewrite deleteIds_nil.
    split; [by intros i []|]. split; [intros _; constructor|].
    split; [intros Herr; by rewrite Herr in Err|]. done.
  - destruct (decide (0 < length dups)%nat) as [Hpos|Hzero].
    + rewrite deleteBatches_run. simpl.
      exists (succeeded env (S (tick w)) (batches 50 dups)).
      split; [|split; [|split; [|done]]].
      * intros i Hi. apply succeeded_incl in Hi. by rewrite batches_concat in Hi by lia.
      * intros Hnd. apply succeeded_NoDup. rewrite batches_concat by lia. by apply Hdups.
      * intros Herr. rewrite succeeded_all by done. by rewrite batches_concat by lia.
    + exists []. simpl. rewrite deleteIds_nil.
      split; [by intros i []|]. split; [intros _; constructor|].
      split; [|done]. intros _. destruct dups; [done|]. simpl in Hzero. lia.
Qed.

Lemma ordered_ids w :
  List.NoDup (map row_id (events w)) → List.NoDup (map row_id (orderByDate (events w))).
Proof.
  intros Hnd. apply (Permutation_NoDup (l := map row_id (events w))); [|done].
  apply Permutation_map. symmetry. apply order_permutes.
Qed.

Lemma ordered_In rows r : In r (orderByDate rows) ↔ In r rows.
Proof.
  split; apply Permutation_in; [apply order_permutes | symmetry; apply order_permutes].
Qed.

(** The first row of each key is not pushed, hence never deleted. *)
Lemma first_row_stays w D r :
  List.NoDup (map row_id (events w)) →
  incl D (findDuplicates ∅ (orderByDate (events w))) →
  In r (firstOfEachKey ∅ (orderByDate (events w))) →
  In r (deleteIds D (events w)).
Proof.
  intros Hnd HD Hr. apply deleteIds_In.
  assert (Hord : In r (orderByDate (events w))) by (by apply (firstOfEachKey_incl ∅)).
  split; [by apply ordered_In|].
  intros Hi. apply HD in Hi.
  by apply (pushed_or_first ∅ _ r (ordered_ids w Hnd) Hord) in Hi.
Qed.

Lemma survivors_are_firsts w r :
  List.NoDup (map row_id (events w)) →
  (In r (deleteIds (findDuplicates ∅ (orderByDate (events w))) (events w))
   ↔ In r (firstOfEachKey ∅ (orderByDate (events w)))).
Proof.
  intros Hnd. split.
  - intros [Hr Hi]%deleteIds_In. apply ordered_In in Hr.
    destruct (in_dec (fun a b : Row => decide (a = b)) r
                     (firstOfEachKey ∅ (orderByDate (events w)))) as [|Hn]; [done|].
    exfalso. apply Hi. by apply (pushed_or_first ∅ _ r (ordered_ids w Hnd) Hr).
  - intros Hr. apply first_row_stays; [done| |done]. by intros i Hi.
Qed.

End DuplicateTheorems.

(** X8.  [deleteDuplicateEvents] takes away nothing but duplicates: for
    every row of the store there is after the run a row with the same key,
    the rows that remain are rows of before, and the answer is the number of
    rows removed; whatever the store does with each batch.  The ids are
    those of a primary key, and the store hands out the rows it has. *)
Theorem deleteDuplicateEvents_keeps_a_row_of_each_key (env : Env)
    (orderByDate : list Row → list Row) (w : World) :
  (∀ rows, Permutation (orderByDate rows) rows) →
  List.NoDup (map row_id (events w)) →
  let run := deleteDuplicateEvents env orderByDate w in
  (∀ r, In r (events w) →
        ∃ r', In r' (events (world run)) ∧ duplicateKey r' = duplicateKey r)
  ∧ (∀ r, In r (events (world run)) → In r (events w))
  ∧ outcome run
    = Returned (Z.of_nat (length (events w)) - Z.of_nat (length (events (world run)))).
Proof.
  intros Hperm Hnd run. subst run.
  destruct (deleteDuplicateEvents_run env orderByDate Hperm w) as (D & HD & HDnd & _ & -> & ->).
  split; [|split].
  - intros r Hr. apply (ordered_In orderByDate Hperm) in Hr.
    destruct (key_has_first ∅ _ r Hr) as [Hs|(r' & Hr' & Hk)]; [by apply not_elem_of_empty in Hs|].
    exists r'. split; [|done]. by apply (first_row_stays orderByDate Hperm).
  - intros r Hr. by apply deleteIds_In in Hr as [? _].
  - f_equal.
    assert (Hincl : incl D (map row_id (events w))).
    { intros i Hi. apply HD, findDuplicates_incl in Hi.
      apply in_map_iff in Hi as (r & <- & Hr). apply in_map.
      by apply (ordered_In orderByDate Hperm). }
    pose proof (length_deleteIds D (events w) Hnd (HDnd Hnd) Hincl). lia.
Qed.

(** X9.  When the store carries out every deletion, [deleteDuplicateEvents]
    leaves no two rows with the same key, and a second run removes nothing
    and answers 0. *)
Theorem deleteDuplicateEvents_once_is_enough (env : Env) (orderByDate : list Row → list Row)
    (w : World) :
  (∀ rows, Permutation (orderByDate rows) rows) →
  (∀ t, db_error env t = false) →
  List.NoDup (map row_id (events w)) →
  let w1 := world (deleteDuplicateEvents env orderByDate w) in
  List.NoDup (map duplicateKey (events w1))
  ∧ outcome (deleteDuplicateEvents env orderByDate w1) = Returned 0
  ∧ events (world (deleteDuplicateEvents env orderByDate w1)) = events w1.
Proof.
  intros Hperm Herr Hnd w1.
  assert (Hkeys : List.NoDup (map duplicateKey (events w1))).
  { subst w1.
    destruct (deleteDuplicateEvents_run env orderByDate Hperm w) as (D & _ & _ & HD & _ & ->).
    rewrite (HD Herr).
    apply (Permutation_NoDup (l := map duplicateKey (firstOfEachKey ∅ (orderByDate (events w)))));
      [|apply firstOfEachKey_keys].
    apply Permutation_map. apply Permutation.NoDup_Permutation.
    - eapply NoDup_map_inv. apply (firstOfEachKey_keys ∅).
    - eapply NoDup_map_inv. by apply deleteIds_ids.
    - intros r. symmetry. by apply survivors_are_firsts. }
  split; [done|].
  destruct (deleteDuplicateEvents_run env orderByDate Hperm w1) as (D & _ & _ & HD & -> & ->).
  rewrite (HD Herr).
  rewrite findDuplicates_none; [by rewrite deleteIds_nil| |by intros r _ ?%not_elem_of_empty].
  apply (Permutation_NoDup (l := map duplicateKey (events w1))); [|done].
  apply Permutation_map. symmetry. apply Hperm.
Qed.

Section ResourceNames.
Import Text Canonical Proxy ProxyPut.

Lemma substring_all s : String.substring 0 (String.length s) s = s.
Proof. induction s as [|c s IH]; [done|]. simpl. by rewrite IH. Qed.

Lemma substring_suffix (s suffix : string) :
  String.substring (String.length s) (String.length suffix) (s +:+ suffix) = suffix.
Proof.
  induction s as [|c s IH]; [apply substring_all|].
  change (String c s +:+ suffix) with (String c (s +:+ suffix)). exact IH.
Qed.

Lemma length_append (a b : string) :
  String.length (a +:+ b) = (String.length a + String.length b)%nat.
Proof.
  induction a as [|c a IH]; [done|].
  change (String c a +:+ b) with (String c (a +:+ b)). simpl. by rewrite IH.
Qed.

Lemma endsWith_suffix (s suffix : string) : JS.endsWith (s +:+ suffix) suffix = true.
Proof.
  unfold JS.endsWith. rewrite length_append.
  replace (String.length suffix <=? String.length s + String.length suffix)%nat with true
    by (symmetry; apply Nat.leb_le; lia).
  replace (String.length s + String.length suffix - String.length suffix)%nat
    with (String.length s) by lia.
  rewrite substring_suffix. apply String.eqb_refl.
Qed.

End ResourceNames.

(** X10.  The resource of an event is named alike with and without the
    endings the code adds: a UID names the resource that the UID followed
    by [.ics] names, and a calendar URL the resource that the URL followed
    by a slash names. *)
Theorem resourceUrl_one_name (calendarUrl eventUid : string) :
  JS.endsWith calendarUrl "/" = false → JS.endsWith eventUid ".ics" = false →
  Proxy.resourceUrl calendarUrl (eventUid +:+ ".ics") = Proxy.resourceUrl calendarUrl eventUid
  ∧ Proxy.resourceUrl (calendarUrl +:+ "/") eventUid = Proxy.resourceUrl calendarUrl eventUid
  ∧ Proxy.resourceUrl calendarUrl eventUid = calendarUrl +:+ "/" +:+ eventUid +:+ ".ics".
Proof.
  intros Hc Hu. unfold Proxy.resourceUrl.
  rewrite !endsWith_suffix, Hc, Hu. rewrite !append_assoc_string. done.
Qed.

Section EntityTags.
Import Proxy ProxyPut.

Lemma removeQuotes_quoteFree s : quoteFree s = true → removeQuotes s = s.
Proof.
  induction s as [|c s IH]; [done|]. unfold quoteFree. simpl.
  intros [Hc Hs]%andb_true_iff. apply negb_true_iff, bool_decide_eq_false in Hc.
  rewrite decide_False by done. by rewrite (IH Hs).
Qed.

Lemma removeQuotes_end s :
  quoteFree s = true → removeQuotes (s +:+ String quote "") = s.
Proof.
  induction s as [|c s IH]; [done|]. unfold quoteFree. simpl.
  intros [Hc Hs]%andb_true_iff. apply negb_true_iff, bool_decide_eq_false in Hc.
  change (String c s +:+ String quote "") with (String c (s +:+ String quote "")).
  simpl. rewrite decide_False by done. by rewrite (IH Hs).
Qed.

Lemma removeQuotes_quoted s :
  quoteFree s = true → removeQuotes (String quote s +:+ String quote "") = s.
Proof. intros Hs. exact (removeQuotes_end s Hs). Qed.

End EntityTags.

(** X11.  The entity tag that [putEvent] hands back travels back to the
    server as it came: when the server answers a PUT with an [ETag]
    header that is [x] between double quotes, [putEvent] returns [x], and
    the next [putEvent] or [deleteEvent] given that [x] sends the very
    header value as [If-Match]. *)
Theorem etag_round_trip (base64Encode : string → string)
    (fetch : Proxy.Request → string → ProxyPut.FetchResult)
    (serverUrl username password calendarUrl eventUid eventData : string) (etag : option string)
    (status : Z) (statusText x : string) :
  let header := String Proxy.quote x +:+ String Proxy.quote "" in
  quoteFree x = true → x ≠ "" → Proxy.ok status = true →
  fetch (ProxyPut.putRequest base64Encode username password calendarUrl eventUid etag) eventData
  = ProxyPut.Responded (ProxyPut.mkResponse status statusText (Some header)) →
  (ProxyPut.putEvent base64Encode fetch serverUrl username password calendarUrl eventUid
                     eventData etag).2 = Returned (Some x)
  ∧ In ("If-Match", header)
       (Proxy.req_headers
          (ProxyPut.putRequest base64Encode username password calendarUrl eventUid (Some x)))
  ∧ In ("If-Match", header)
       (Proxy.req_headers
          (Proxy.deleteRequest base64Encode username password calendarUrl eventUid (Some x))).
Proof.
  intros header Hx Hne Hok Hfetch. split; [|split].
  - unfold ProxyPut.putEvent. simpl. rewrite Hfetch. simpl. rewrite Hok. simpl.
    unfold JS.truthy. destruct (decide (header = "")); [done|]. simpl.
    f_equal. f_equal. by apply removeQuotes_quoted.
  - unfold ProxyPut.putRequest. simpl. unfold JS.truthy. rewrite decide_False by done.
    do 3 right. by left.
  - unfold Proxy.deleteRequest. simpl. unfold JS.truthy. rewrite decide_False by done.
    do 2 right. by left.
Qed.

Section HandlerTheorems.
Import Handler.
Context (supabaseUrl supabaseAnonKey : option string)
        (auth : string → AuthAnswer)
        (run : Action → Outcome string).

Lemma stripPrefix_Some p s r : Text.stripPrefix p s = Some r → s = p +:+ r.
Proof.
  revert s. induction p as [|a p IH]; intros s; simpl; [by intros [= ->]|].
  destruct s as [|b s]; [done|]. destruct (decide (a = b)) as [->|]; [|done].
  intros H. by rewrite (IH s H).
Qed.

Lemma dispatch_wellFormed serverUrl username password action requestData a :
  serverUrl ≠ "" → username ≠ "" → password ≠ "" →
  dispatch serverUrl username password action requestData = inr a → wellFormed a = true.
Proof.
  intros Hs Hu Hp. unfold dispatch.
  destruct (JS.truthy (q_calendarUrl requestData)) as [calendarUrl|] eqn:Ec;
    [apply truthy_Some in Ec as [_ Hc]|].
  all: destruct (JS.truthy (q_syncToken requestData)) as [syncToken|] eqn:Et;
    [apply truthy_Some in Et as [_ Ht]|].
  all: destruct (JS.truthy (q_eventData requestData)) as [eventData|] eqn:Ed;
    [apply truthy_Some in Ed as [_ Hd]|].
  all: destruct (JS.truthy (q_eventUid requestData)) as [eventUid|] eqn:Ee;
    [apply truthy_Some in Ee as [_ He]|].
  all: repeat (destruct (decide _); [|]); try done.
  all: intros [= <-]; cbn [wellFormed]; rewrite negb_true_iff, bool_decide_eq_false; tauto.
Qed.

Lemma process_runs req a :
  In (Run a) (process run req).2 →
  (process run req).2 = [Run a] ∧ wellFormed a = true.
Proof.
  unfold process. destruct (h_body req) as [requestData|msg]; [|done].
  destruct (JS.truthy (q_serverUrl requestData)) as [serverUrl|] eqn:E1; [|done].
  destruct (JS.truthy (q_username requestData)) as [username|] eqn:E2; [|done].
  destruct (JS.truthy (q_password requestData)) as [password|] eqn:E3; [|done].
  destruct (JS.truthy (q_action requestData)) as [action|] eqn:E4; [|done].
  apply truthy_Some in E1 as [_ H1]. apply truthy_Some in E2 as [_ H2].
  apply truthy_Some in E3 as [_ H3].
  destruct (dispatch _ _ _ _ _) as [response|a'] eqn:Ed; [done|].
  pose proof (dispatch_wellFormed _ _ _ _ _ _ H1 H2 H3 Ed) as Hwf.
  destruct (run a'); simpl; intros [[= <-]|[]]; done.
Qed.

(** X12.  The handler calls a CalDAV function for authenticated requests
    only: when it does, the request bore the header [Authorization] with a
    bearer token, the check of that token was made before and answered
    [ok], nothing else left the handler, and neither server, user,
    password nor (but for the listing) calendar of the call is empty. *)
Theorem handler_runs_for_authenticated_only (req : HttpRequest) (a : Action) :
  In (Run a) (handle supabaseUrl supabaseAnonKey auth run req).2 →
  ∃ token,
    h_authorization req = Some ("Bearer " +:+ token)
    ∧ auth token = AuthOk
    ∧ (handle supabaseUrl supabaseAnonKey auth run req).2 = [AuthCheck token; Run a]
    ∧ wellFormed a = true.
Proof.
  unfold handle. destruct (decide (h_method req = "OPTIONS")); [done|].
  destruct (JS.truthy (h_authorization req)) as [header|] eqn:Eh; [|done].
  change (Some header ≫= Text.stripPrefix "Bearer ") with (Text.stripPrefix "Bearer " header).
  destruct (Text.stripPrefix "Bearer " header) as [token|] eqn:Et; [|done].
  apply truthy_Some in Eh as [Eh _]. apply stripPrefix_Some in Et as ->.
  destruct (JS.truthy supabaseUrl); [|done]. destruct (JS.truthy supabaseAnonKey); [|done].
  destruct (auth token) eqn:Ea; [|by intros [|[]]..].
  pose proof (process_runs req a) as Hp.
  destruct (process run req) as [response calls]. simpl in *.
  intros [|Hin]; [done|]. destruct (Hp Hin) as [-> Hwf]. by exists token.
Qed.

(** X13.  The status of every answer is 200, 400, 401 or 500, and 200 is
    the answer to OPTIONS (nothing leaves the handler) or the answer that
    carries the result of the one CalDAV function that was called. *)
Theorem handler_success_is_a_result (req : HttpRequest) :
  let answer := handle supabaseUrl supabaseAnonKey auth run req in
  In (status answer.1) [200; 400; 401; 500]
  ∧ (status answer.1 = 200 →
     (h_method req = "OPTIONS" ∧ answer = (mkResponse 200 NoBody, []))
     ∨ ∃ token a result,
         run a = Returned result
         ∧ answer = (mkResponse 200 (ResultBody result), [AuthCheck token; Run a])).
Proof.
  intros answer. subst answer. unfold handle.
  destruct (decide (h_method req = "OPTIONS")); [split; [by left | by left]|].
  destruct (JS.truthy (h_authorization req) ≫= Text.stripPrefix "Bearer ") as [token|];
    [|split; [simpl; tauto | done]].
  destruct (JS.truthy supabaseUrl); [|split; [simpl; tauto | done]].
  destruct (JS.truthy supabaseAnonKey); [|split; [simpl; tauto | done]].
  destruct (auth token); [|split; [simpl; tauto | done]..].
  unfold process. destruct (h_body req) as [requestData|msg]; [|split; [simpl; tauto | done]].
  destruct (JS.truthy (q_serverUrl requestData)); [|split; [simpl; tauto | done]].
  destruct (JS.truthy (q_username requestData)); [|split; [simpl; tauto | done]].
  destruct (JS.truthy (q_password requestData)); [|split; [simpl; tauto | done]].
  destruct (JS.truthy (q_action requestData)) as [action|]; [|split; [simpl; tauto | done]].
  destruct (dispatch _ _ _ _ _) as [response|a] eqn:Ed.
  - assert (status response = 400) as Hs.
    { revert Ed. unfold dispatch.
      repeat (destruct (decide _); [|]);
        repeat match goal with
          | |- context [JS.truthy ?o] => destruct (JS.truthy o)
          end; by intros [= <-]. }
    simpl. rewrite Hs. split; [tauto | done].
  - destruct (run a) as [result|msg] eqn:Er; simpl; [|split; [tauto | done]].
    split; [tauto|]. intros _. right. by exists token, a, result.
Qed.

End HandlerTheorems.

Section DecoderEdges.
Import Text Canonical Codec JSDate.

Lemma matchProperty_absent capture name s :
  occursIn name s = false → matchProperty capture name s = None.
Proof.
  induction s as [|c s IH]; simpl.
  - intros [H _]%orb_false_iff. apply bool_decide_eq_false in H.
    unfold matchHere. destruct (stripPrefix name "") eqn:E; [|done].
    exfalso. apply H. by eexists.
  - intros [H Hs]%orb_false_iff. apply bool_decide_eq_false in H.
    unfold matchHere. destruct (stripPrefix name (String c s)) eqn:E.
    + exfalso. apply H. by eexists.
    + simpl. by apply IH.
Qed.

Lemma lazyColon_params (params v rest : string) :
  freeOfColon params = true → allChars (fun c => negb (isLineBreak c)) params = true →
  v ≠ "" → allChars (fun c => negb (isLineBreak c)) v = true →
  lazyColon restOfLine (params +:+ ":" +:+ v +:+ CRLF +:+ rest) = Some v.
Proof.
  intros Hfree Hline Hv Hvl. induction params as [|c params IH].
  - change ("" +:+ ":" +:+ v +:+ CRLF +:+ rest) with (String ":" (v +:+ CRLF +:+ rest)).
    cbn [lazyColon]. change (isLineBreak ":") with false. cbv iota.
    destruct (decide (":"%char = ":"%char)); [|done].
    rewrite restOfLine_app by done. by destruct v.
  - unfold freeOfColon in Hfree. simpl in Hfree, Hline.
    apply andb_true_iff in Hfree as [Hc Hfree]. apply andb_true_iff in Hline as [Hl Hline].
    change (String c params +:+ ":" +:+ v +:+ CRLF +:+ rest)
      with (String c (params +:+ ":" +:+ v +:+ CRLF +:+ rest)).
    cbn [lazyColon]. apply negb_true_iff in Hl. rewrite Hl.
    unfold notColon in Hc. apply negb_true_iff, bool_decide_eq_false in Hc.
    destruct (decide (c = ":"%char)); [done|]. by apply IH.
Qed.

(** The search finds the value of the first line that bears the name. *)
Lemma matchLine_propertyLine name P params v rest :
  noStart name P = true →
  from_option (fun p => freeOfColon p = true
                        ∧ allChars (fun c => negb (isLineBreak c)) p = true) True params →
  v ≠ "" → allChars (fun c => negb (isLineBreak c)) v = true →
  matchLine name (P +:+ propertyLine name params v +:+ CRLF +:+ rest) = Some v.
Proof.
  intros HP Hparams Hv Hvl. unfold matchLine.
  rewrite (matchProperty_skip_prefix restOfLine name P) by done.
  unfold propertyLine. destruct params as [p|].
  - destruct Hparams as [Hfree Hline].
    rewrite !append_assoc_string.
    change (";" +:+ p +:+ ":" +:+ v +:+ CRLF +:+ rest)
      with (String ";" (p +:+ ":" +:+ v +:+ CRLF +:+ rest)).
    assert (Hhere : matchHere restOfLine name
                      (name +:+ String ";" (p +:+ ":" +:+ v +:+ CRLF +:+ rest)) = Some v).
    { unfold matchHere. rewrite stripPrefix_self.
      change (afterName restOfLine (String ";" (p +:+ ":" +:+ v +:+ CRLF +:+ rest)) = Some v).
      unfold afterName. destruct (decide (";"%char = ";"%char)); [|done].
      by apply lazyColon_params. }
    destruct (name +:+ _) eqn:E; simpl; rewrite Hhere; done.
  - rewrite !append_assoc_string. by apply (matchLine_here name v).
Qed.

End DecoderEdges.

(** X14.  A text in which [DTSTART] does not occur is no event: the decoder
    answers [null]. *)
Theorem decoder_needs_DTSTART (icalData defaultColor : string) :
  occursIn "DTSTART" icalData = false →
  Decoder.parseICalEvent icalData defaultColor = None.
Proof.
  intros H. unfold Decoder.parseICalEvent.
  assert (Hnone : Text.matchLine "DTSTART" icalData = None)
    by (unfold Text.matchLine; by apply matchProperty_absent).
  by rewrite Hnone.
Qed.


Section WrittenDigits.
Import Text Canonical Codec JSDate.

Lemma parseStamp_dateTime_more y m d hm z :
  validDate y m d → validClock hm →
  Decoder.parseStamp (dateTimeToken y m d hm.1 hm.2 +:+ z)
  = Some (Some (UTC y (m - 1) d hm.1 hm.2)).
Proof.
  intros Hv [Hh Hmi]. pose proof (validDate_day y m d Hv) as Hd31.
  destruct Hv as (Hy & Hm & Hd). destruct hm as [h mi]. cbn [fst snd] in *.
  unfold Decoder.parseStamp.
  change (substring 0 4 (dateTimeToken y m d h mi +:+ z)) with (pad4 y).
  change (substring 4 6 (dateTimeToken y m d h mi +:+ z)) with (pad2 m).
  change (substring 6 8 (dateTimeToken y m d h mi +:+ z)) with (pad2 d).
  change (substring 9 11 (dateTimeToken y m d h mi +:+ z)) with (pad2 h).
  change (substring 11 13 (dateTimeToken y m d h mi +:+ z)) with (pad2 mi).
  rewrite parseInt_pad4 by lia.
  assert (Ho : ∀ n, Decoder.orZero (pad2 n) = pad2 n).
  { intros n. unfold Decoder.orZero. by destruct (decide _). }
  rewrite !Ho. rewrite !parseInt_pad2 by lia.
  rewrite length_append, length_dateTimeToken.
  destruct (decide ((15 + String.length z)%nat = 8%nat)) as [Hn|_]; [lia|].
  destruct (decide (15 ≤ 15 + String.length z)%nat) as [_|Hn]; [|lia].
  f_equal. apply DateUTC_valid; lia.
Qed.

End WrittenDigits.


Section WrittenAndRead.
Import Text Canonical Codec JSDate.

Lemma dateLines_withUid tz e uid :
  Encoder.dateLines tz (Write.withUid e uid) = Encoder.dateLines tz e.
Proof. reflexivity. Qed.

(** What is written for a canonical event is read as an event with its
    UID and its date. *)
Lemma written_event_is_read tz now generatedUid defaultColor title memo uid y m d startTime
    endTime :
  validDate y m d →
  from_option validClock True startTime → from_option validClock True endTime →
  (is_Some startTime ∧ is_Some endTime) ∨ 0 ≤ tz < 1440 →
  plainText (JS.orEmpty title) = true → plainText (JS.orEmpty memo) = true →
  plainUid uid = true →
  ∃ text decoded,
    Encoder.serializeEventToICS tz now generatedUid
      (event title memo uid y m d startTime endTime) = Some text
    ∧ Decoder.parseICalEvent text defaultColor = Some decoded
    ∧ ev_uid decoded = Some uid ∧ ev_date decoded = isoDate y m d.
Proof.
  intros Hd Hs He Htimes Htitle Hmemo Huid.
  set (e := event title memo uid y m d startTime endTime).
  apply plainText_title, plainText_facts in Htitle as (U1 & S1 & E1).
  apply plainText_facts in Hmemo as (U2 & S2 & E2).
  destruct (written_quiet "UID" title memo) as [? ?]; [done..|].
  destruct (written_quiet "DTSTART" title memo) as [? ?]; [done..|].
  destruct (written_quiet "DTEND" title memo) as [? ?]; [done..|].
  assert (Hlack : ¬ (is_Some startTime ∧ is_Some endTime) →
    JS.truthy (pe_startTime e) = None ∨ JS.truthy (pe_endTime e) = None →
    ∃ text decoded,
      Encoder.serializeEventToICS tz now generatedUid e = Some text
      ∧ Decoder.parseICalEvent text defaultColor = Some decoded
      ∧ ev_uid decoded = Some uid ∧ ev_date decoded = isoDate y m d).
  { intros Hnot Hl. destruct Htimes as [?|Htz]; [done|].
    destruct (dateLines_allDay tz e y m d Hd Htz eq_refl Hl)
      as (v & Hlines & Hv & Hvne & Hend & _).
    destruct (serialize_text tz now generatedUid e uid _ _ eq_refl Huid Hlines) as [tail ->].
    destruct (decode_allDay (writtenTitle title) (writtenMemo memo) uid y m d v tail
                defaultColor) as (decoded & Hdec & Hu & Hdate & _); [done..|].
    eexists _, decoded. split; [reflexivity|]. done. }
  destruct startTime as [s|], endTime as [en|].
  - clear Hlack.
    destruct (serialize_text tz now generatedUid e uid _ _ eq_refl Huid
                (dateLines_timed tz title memo uid y m d s en Hd Hs He)) as [tail ->].
    destruct (decode_timed (writtenTitle title) (writtenMemo memo) uid y m d s en tail
                defaultColor) as (decoded & Hdec & Hu & Hdate & _); [done..|].
    eexists _, decoded. split; [reflexivity|]. done.
  - apply Hlack; [|by right]. intros [_ [x Hx]]. discriminate Hx.
  - apply Hlack; [|by left]. intros [[x Hx] _]. discriminate Hx.
  - apply Hlack; [|by left]. intros [[x Hx] _]. discriminate Hx.
Qed.

End WrittenAndRead.


Section ClientAndHandler.
Import Handler.
Context (supabaseUrl supabaseAnonKey : option string)
        (auth : string → AuthAnswer)
        (run : Action → Outcome string).

Lemma truthy_of (s : string) : s ≠ "" → JS.truthy (Some s) = Some s.
Proof. intros. unfold JS.truthy. by destruct (decide _). Qed.

Lemma foldl_nonempty (a : string) (ls : list string) :
  a ≠ "" → foldl (fun acc x => acc +:+ Text.CRLF +:+ x) a ls ≠ "".
Proof.
  destruct a as [|c a]; [done|]. intros _.
  change (String c a) with (String c "" +:+ a). by rewrite joinLines_prepend.
Qed.

Lemma serialize_nonempty tz now generatedUid e ics :
  Encoder.serializeEventToICS tz now generatedUid e = Some ics → ics ≠ "".
Proof.
  unfold Encoder.serializeEventToICS. destruct (Encoder.dateLines tz e); [|done].
  cbn [mbind option_bind app]. intros [= <-].
  apply foldl_nonempty. intros H. apply (f_equal String.length) in H.
  rewrite !length_append in H. cbn [String.length] in H. lia.
Qed.

(** The handler, for a request that bears a token the check accepts. *)
Lemma handle_authenticated token requestData :
  is_Some (JS.truthy supabaseUrl) → is_Some (JS.truthy supabaseAnonKey) →
  auth token = AuthOk →
  handle supabaseUrl supabaseAnonKey auth run
         (mkHttpRequest "POST" (Some ("Bearer " +:+ token)) (Returned requestData))
  = ((process run (mkHttpRequest "POST" (Some ("Bearer " +:+ token)) (Returned requestData))).1,
     AuthCheck token
     :: (process run (mkHttpRequest "POST" (Some ("Bearer " +:+ token))
                                    (Returned requestData))).2).
Proof.
  intros [u Hu] [k Hk] Hauth. unfold handle. cbn [h_method h_authorization].
  destruct (decide ("POST" = "OPTIONS")); [done|].
  change (JS.truthy (Some ("Bearer " +:+ token)) ≫= Text.stripPrefix "Bearer ")
    with (Some token).
  rewrite Hu, Hk, Hauth. by destruct (process run _).
Qed.

End ClientAndHandler.

(** X18.  What the client builds the handler runs: for a request that bears
    a token the check accepts, the body built by [deleteCalDavEvent] makes
    the handler call [deleteEvent], and a body built by
    [createCalDavEvent] makes it call [putEvent], with the server, user,
    password, calendar, UID (and text and entity tag) the client gave, when
    none of server, user, password, calendar and UID is empty. *)
Theorem handler_runs_what_the_client_builds (supabaseUrl supabaseAnonKey : option string)
    (auth : string → Handler.AuthAnswer) (run : Handler.Action → Outcome string)
    (token : string) (config : CalDAVConfig) (calendarUrl uid : string) (etag : option string)
    (tz now1 now2 : Z) (uidOfFirstText generatedUid : string) (e : PartialEvent)
    (body : Handler.CalDAVRequest) :
  let post requestData :=
    Handler.handle supabaseUrl supabaseAnonKey auth run
      (Handler.mkHttpRequest "POST" (Some ("Bearer " +:+ token)) (Returned requestData)) in
  is_Some (JS.truthy supabaseUrl) → is_Some (JS.truthy supabaseAnonKey) →
  auth token = Handler.AuthOk →
  serverUrl config ≠ "" → username config ≠ "" → password config ≠ "" →
  calendarUrl ≠ "" → uid ≠ "" → generatedUid ≠ "" →
  Write.createCalDavEvent tz now1 now2 uidOfFirstText generatedUid config calendarUrl e
  = Some body →
  (post (Write.deleteCalDavEvent config calendarUrl uid etag)).2
  = [Handler.AuthCheck token;
     Handler.Run (Handler.DeleteEvent (serverUrl config) (username config) (password config)
                                      calendarUrl uid etag)]
  ∧ ∃ ics,
      Handler.q_eventData body = Some ics
      ∧ (post body).2
        = [Handler.AuthCheck token;
           Handler.Run (Handler.PutEvent (serverUrl config) (username config) (password config)
                          calendarUrl (default generatedUid (JS.truthy (pe_caldavUid e)))
                          ics None)].
Proof.
  intros post Hurl Hkey Hauth Hs Hu Hp Hc Huid Hg Hbody. subst post. split.
  - rewrite handle_authenticated by done. unfold Handler.process, Write.deleteCalDavEvent.
    cbn [Handler.h_body Handler.q_serverUrl Handler.q_username Handler.q_password
         Handler.q_action].
    rewrite !truthy_of by done. unfold Handler.dispatch.
    cbn [Handler.q_calendarUrl Handler.q_eventUid Handler.q_etag].
    rewrite !truthy_of by done.
    repeat (destruct (decide _) as [Heq|_]; [by (discriminate Heq || destruct Heq as [Heq|Heq])|]).
    destruct (decide ("deleteEvent" = "deleteEvent")); [|done].
    by destruct (run _).
  - unfold Write.createCalDavEvent in Hbody.
    destruct (Encoder.serializeEventToICS tz now1 uidOfFirstText e); [|done].
    cbn [mbind option_bind] in Hbody.
    destruct (Encoder.serializeEventToICS tz now2 generatedUid _) as [ics|] eqn:Eics; [|done].
    cbn [mbind option_bind] in Hbody. injection Hbody as <-.
    exists ics. split; [done|].
    assert (Hics : ics ≠ "") by (by eapply serialize_nonempty).
    assert (Hname : default generatedUid (JS.truthy (pe_caldavUid e)) ≠ "").
    { destruct (JS.truthy (pe_caldavUid e)) as [x|] eqn:E; [|done].
      by apply truthy_Some in E as [_ ?]. }
    rewrite handle_authenticated by done. unfold Handler.process.
    cbn [Handler.h_body Handler.q_serverUrl Handler.q_username Handler.q_password
         Handler.q_action].
    rewrite !truthy_of by done. unfold Handler.dispatch.
    cbn [Handler.q_calendarUrl Handler.q_eventUid Handler.q_eventData Handler.q_etag].
    rewrite !truthy_of by done.
    repeat (destruct (decide (_ = _)) as [Heq|_]; [discriminate Heq|]).
    destruct (decide (_ ∨ _)) as [_|Hn]; [|exfalso; apply Hn; by left].
    by destruct (run _).
Qed.

(** ** Concrete runs *)

Section Runs.
Import Sample.

(** Twenty local events with UIDs and a full fetch of one event with
    another UID: every row is a candidate, the guard holds, nothing goes. *)
Lemma C1_twenty_rows_one_stranger :
  length (existingEvents calendarUrl (worldOf twentyRows)) = 20%nat
  ∧ (∀ r, In r (existingEvents calendarUrl (worldOf twentyRows)) →
          JS.truthy (row_caldav_uid r) ≠ Some "remote-1")
  ∧ (length (List.filter (matchedByKey (remoteEvent "remote-1"))
                         (existingEvents calendarUrl (worldOf twentyRows))) ≤ 1)%nat
  ∧ outcome (deleteRemovedEvents quietEnv calendarUrl {["remote-1"]} [remoteEvent "remote-1"]
                                 (worldOf twentyRows)) = Returned 0
  ∧ events (world (deleteRemovedEvents quietEnv calendarUrl {["remote-1"]}
                                       [remoteEvent "remote-1"] (worldOf twentyRows)))
    = twentyRows.
Proof.
  assert (H1 : length (existingEvents calendarUrl (worldOf twentyRows)) = 20%nat)
    by (vm_compute; reflexivity).
  assert (H2 : ∀ r, In r (existingEvents calendarUrl (worldOf twentyRows)) →
                    JS.truthy (row_caldav_uid r) ≠ Some "remote-1").
  { apply List.Forall_forall. vm_compute. repeat constructor; discriminate. }
  assert (H3 : (length (List.filter (matchedByKey (remoteEvent "remote-1"))
                          (existingEvents calendarUrl (worldOf twentyRows))) ≤ 1)%nat)
    by (vm_compute; lia).
  split; [exact H1|]. split; [exact H2|]. split; [exact H3|].
  exact (proj2 (C1_runaway_deletion_guard quietEnv calendarUrl (worldOf twentyRows))
               "remote-1" (remoteEvent "remote-1") H1 H2 H3).
Defined.

(** Twenty local rows of which two are legacy rows bearing the title and
    date of the one fetched event, whose UID no row bears: the two are kept
    by their key, the candidates are 18 of 20, which is not more than 90%,
    and the 18 are deleted. *)
Lemma C1_two_legacy_rows_matched_by_key :
  length (existingEvents calendarUrl (worldOf eighteenAndTwoLegacy)) = 20%nat
  ∧ (∀ r, In r (existingEvents calendarUrl (worldOf eighteenAndTwoLegacy)) →
          row_caldav_uid r ≠ Some "remote-1")
  ∧ outcome (deleteRemovedEvents quietEnv calendarUrl {["remote-1"]} [remoteEvent "remote-1"]
                                 (worldOf eighteenAndTwoLegacy)) = Returned 18
  ∧ events (world (deleteRemovedEvents quietEnv calendarUrl {["remote-1"]}
                                       [remoteEvent "remote-1"] (worldOf eighteenAndTwoLegacy)))
    = [legacyRow "id-19" calendarUrl; legacyRow "id-20" (calendarUrl +:+ "/")].
Proof.
  split; [vm_compute; reflexivity|]. split.
  - apply List.Forall_forall. vm_compute. repeat constructor; discriminate.
  - split; vm_compute; reflexivity.
Qed.

(** C6.  A stored event whose colour alone has changed on the server: the
    engine finds the difference and calls [updateEventByUID] with
    [{color: "#222222"}]; the call succeeds and the event is counted as
    synced, but the stored row keeps the colour [#111111]. *)
Theorem C6_changed_colour_is_not_stored :
  computeUpdates standup standupRecoloured
  = mkUpdates None None None None None (Some "#222222")
  ∧ processEvent quietEnv calendarUrl (mkPass ∅ 0 0) standupRecoloured (worldOf [standup])
    = (Returned (mkPass {["u1"]} 1 0),
       mkWorld [standup] ∅ false 3,
       [CEventExistsByUID "u1" calendarUrl true;
        CFetchEventByUID "u1" calendarUrl (Some standup);
        CUpdateEventByUID "u1" calendarUrl
          (mkUpdates None None None None None (Some "#222222")) true])
  ∧ row_color standup = "#111111".
Proof. split; [|split]; vm_compute; reflexivity. Qed.

(** Three local events and an empty full fetch: nothing is deleted. *)
Example empty_fetch_three_rows :
  deleteRemovedEvents quietEnv calendarUrl ∅ [] (worldOf threeRows)
  = (Returned 0, worldOf threeRows, [CDeleteRemovedEvents calendarUrl ∅ [] 0]).
Proof. reflexivity. Qed.

(** A call made while a pass is in flight. *)
Lemma C4_busy_world :
  syncInFlight (busyWorld threeRows) = true
  ∧ syncSelectedCalendars quietEnv config [calendarUrl] (busyWorld threeRows)
    = (Returned 0, busyWorld threeRows, [])
  ∧ events (world (syncSelectedCalendars quietEnv config [calendarUrl] (busyWorld threeRows)))
    = threeRows
  ∧ trace (syncSelectedCalendars quietEnv config [calendarUrl] (busyWorld threeRows)) = [].
Proof.
  split; [reflexivity|].
  exact (C4_overlapping_call_dropped quietEnv config [calendarUrl] (busyWorld threeRows) eq_refl).
Defined.


(** A pass that only creates: two new events, the call answers 2. *)
Example pass_with_two_new_events :
  outcome (syncSelectedCalendars (envOf [remoteEvent "a"; remoteEvent "b"] false) config
                                 [calendarUrl] (worldOf [])) = Returned 2.
Proof. vm_compute. reflexivity. Qed.

(** A pass that ends in an exception (the token map cannot be written):
    the flag is cleared all the same. *)
Lemma C10_pass_that_throws :
  syncInFlight (worldOf threeRows) = false
  ∧ outcome (syncSelectedCalendars (envOf [] true) config [calendarUrl] (worldOf threeRows))
    = Thrown "QuotaExceededError"
  ∧ syncInFlight (world (syncSelectedCalendars (envOf [] true) config [calendarUrl]
                                               (worldOf threeRows))) = false.
Proof.
  split; [reflexivity|]. split; [vm_compute; reflexivity|].
  exact (C10_flag_cleared (envOf [] true) config [calendarUrl] (worldOf threeRows) eq_refl).
Defined.



(** The all-day event of the encoder's test on a host five hours behind
    UTC. *)
Lemma C8_host_five_hours_behind :
  -1440 < -300 < 0
  ∧ Encoder.dateLines (-300) allDayEvent
    = Some ["DTSTART;VALUE=DATE:20240128"; "DTEND;VALUE=DATE:20240129"].
Proof. split; [lia|]. apply (C8_all_day_event_a_day_early (-300)). lia. Defined.

(** Read back, that event is dated the day before. *)
Example all_day_event_behind_UTC :
  ev_date <$> Codec.roundTrip (-300) now "vividly-1" "#3b82f6" allDayEvent = Some "2024-01-28"
  ∧ ev_date <$> Codec.roundTrip 540 now "vividly-1" "#3b82f6" allDayEvent = Some "2024-01-29".
Proof. split; vm_compute; reflexivity. Qed.

End Runs.

(** ** More concrete runs *)

Section MoreRuns.
Import Sample Cases.

(** A pass over the home calendar, in which the server no longer has the
    stand-up and has a new event: the row made by hand stays. *)
Lemma sync_keeps_the_dentist :
  isLocalRow handRow = true
  ∧ localRows (events (world (syncSelectedCalendars (envOf [remoteEvent "u9"] false) config
                                                    [calendarUrl] (worldOf [handRow; standup]))))
    = [handRow].
Proof.
  split; [reflexivity|].
  apply (sync_keeps_rows_made_by_hand (envOf [remoteEvent "u9"] false) config [calendarUrl]
                                      (worldOf [handRow; standup])).
  - intros r [<-|[<-|[]]] H; [discriminate H|]. intros [E|[]]. discriminate E.
  - intros t [E|[]]. discriminate E.
Defined.

(** A pass over the home calendar leaves the token of the work calendar. *)
Lemma sync_keeps_the_work_token :
  storedTokens config withWorkToken !! workUrl = Some "token-7"
  ∧ let w' := world (syncSelectedCalendars quietEnv config [calendarUrl +:+ "/"] withWorkToken) in
    storedTokens config w' !! workUrl = storedTokens config withWorkToken !! workUrl
    ∧ ∀ key, key ≠ getSyncTokenStorageKey config →
             localStorage w' !! key = localStorage withWorkToken !! key.
Proof.
  split; [by vm_compute|].
  apply (sync_keeps_other_tokens quietEnv config [calendarUrl +:+ "/"] withWorkToken workUrl).
  intros [E|[]]. vm_compute in E. discriminate E.
Defined.

(** An event fetched twice into an empty store. *)
Lemma fetched_twice_stored_once :
  let w1 := world (processEvent quietEnv calendarUrl (mkPass ∅ 0 0) (remoteEvent "u1")
                                (worldOf [])) in
  map row_id (events (world (processEvent quietEnv calendarUrl (mkPass ∅ 0 0)
                                          (remoteEvent "u1") w1)))
  = map row_id (events w1)
  ∧ forallb (fun c => negb (isCreateEvent c))
            (trace (processEvent quietEnv calendarUrl (mkPass ∅ 0 0) (remoteEvent "u1") w1))
    = true.
Proof.
  apply (reprocessing_creates_nothing quietEnv calendarUrl (mkPass ∅ 0 0) (mkPass ∅ 0 0)
                                      (remoteEvent "u1") (worldOf [])).
  - reflexivity.
  - vm_compute. discriminate.
  - discriminate.
  - discriminate.
Defined.

(** An event created under the calendar URL and looked up under the URL
    with a slash at its end. *)
Lemma created_then_found_with_slash :
  outcome ((createEvent quietEnv (withoutUid (remoteEvent "u1")) (Some "u1") (Some calendarUrl)
                        (Some "caldav");;
            eventExistsByUID quietEnv "u1" (calendarUrl +:+ "/")) (worldOf []))
  = Returned true.
Proof.
  apply (created_event_is_found quietEnv (remoteEvent "u1") "u1" calendarUrl
                                (calendarUrl +:+ "/") (Some "caldav") (worldOf [])).
  - reflexivity.
  - discriminate.
  - vm_compute. discriminate.
  - vm_compute. reflexivity.
Defined.

(** Of three rows of the calendar the server still has the second: it is
    in the store after the deletion. *)
Lemma kept_row_of_three :
  In (localRow 2)
     (events (world (deleteRemovedEvents quietEnv calendarUrl {["local-2"]}
                                         [remoteOf (localRow 2)] (worldOf threeRows)))).
Proof.
  apply (deleteRemovedEvents_spares quietEnv calendarUrl {["local-2"]} [remoteOf (localRow 2)]
                                    (worldOf threeRows) (localRow 2)).
  - apply NoDup_ListNoDup. apply (bool_decide_unpack _). by vm_compute.
  - right. left. reflexivity.
  - right. by vm_compute.
Defined.

(** The deletion of the other two rows answers 2. *)
Lemma two_of_three_deleted :
  let run := deleteRemovedEvents quietEnv calendarUrl {["local-2"]} [remoteOf (localRow 2)]
                                 (worldOf threeRows) in
  outcome run
  = Returned (Z.of_nat (length (events (worldOf threeRows)))
              - Z.of_nat (length (events (world run)))).
Proof.
  apply (deleteRemovedEvents_counts quietEnv calendarUrl {["local-2"]} [remoteOf (localRow 2)]
                                    (worldOf threeRows)).
  apply NoDup_ListNoDup. apply (bool_decide_unpack _). by vm_compute.
Defined.

(** The stand-up stored twice, beside a row made by hand. *)
Lemma standup_stored_twice :
  duplicateKey standupAgain = duplicateKey standup
  ∧ let run := deleteDuplicateEvents quietEnv id (worldOf [standup; handRow; standupAgain]) in
    (∀ r, In r (events (worldOf [standup; handRow; standupAgain])) →
          ∃ r', In r' (events (world run)) ∧ duplicateKey r' = duplicateKey r)
    ∧ (∀ r, In r (events (world run)) → In r (events (worldOf [standup; handRow; standupAgain])))
    ∧ outcome run
      = Returned (Z.of_nat (length (events (worldOf [standup; handRow; standupAgain])))
                  - Z.of_nat (length (events (world run)))).
Proof.
  split; [reflexivity|].
  apply (deleteDuplicateEvents_keeps_a_row_of_each_key
           quietEnv id (worldOf [standup; handRow; standupAgain])).
  - reflexivity.
  - apply NoDup_ListNoDup. apply (bool_decide_unpack _). by vm_compute.
Defined.

(** After one run a second run finds nothing to remove. *)
Lemma standup_stored_once :
  let w1 := world (deleteDuplicateEvents quietEnv id (worldOf [standup; handRow; standupAgain])) in
  List.NoDup (map duplicateKey (events w1))
  ∧ outcome (deleteDuplicateEvents quietEnv id w1) = Returned 0
  ∧ events (world (deleteDuplicateEvents quietEnv id w1)) = events w1.
Proof.
  apply (deleteDuplicateEvents_once_is_enough
           quietEnv id (worldOf [standup; handRow; standupAgain])).
  - reflexivity.
  - reflexivity.
  - apply NoDup_ListNoDup. apply (bool_decide_unpack _). by vm_compute.
Defined.

(** The resource of the event [u1] in the home calendar. *)
Lemma resource_of_u1 :
  Proxy.resourceUrl calendarUrl ("u1" +:+ ".ics") = Proxy.resourceUrl calendarUrl "u1"
  ∧ Proxy.resourceUrl (calendarUrl +:+ "/") "u1" = Proxy.resourceUrl calendarUrl "u1"
  ∧ Proxy.resourceUrl calendarUrl "u1" = calendarUrl +:+ "/" +:+ "u1" +:+ ".ics".
Proof. apply (resourceUrl_one_name calendarUrl "u1"); reflexivity. Defined.

(** The entity tag [abc123] of the tagging server. *)
Lemma tag_abc123 :
  let header := String Proxy.quote "abc123" +:+ String Proxy.quote "" in
  (ProxyPut.putEvent id taggingServer (serverUrl config) "user" "secret" calendarUrl "u1"
                     "BEGIN:VCALENDAR" None).2 = Returned (Some "abc123")
  ∧ In ("If-Match", header)
       (Proxy.req_headers (ProxyPut.putRequest id "user" "secret" calendarUrl "u1" (Some "abc123")))
  ∧ In ("If-Match", header)
       (Proxy.req_headers (Proxy.deleteRequest id "user" "secret" calendarUrl "u1"
                                               (Some "abc123"))).
Proof.
  apply (etag_round_trip id taggingServer (serverUrl config) "user" "secret" calendarUrl "u1"
                         "BEGIN:VCALENDAR" None 204 "No Content" "abc123").
  - reflexivity.
  - discriminate.
  - reflexivity.
  - reflexivity.
Defined.

(** The listing of the calendars, asked for with a token the check
    accepts. *)
Lemma listing_with_a_token :
  ∃ token,
    Handler.h_authorization listRequest = Some ("Bearer " +:+ token)
    ∧ (fun _ => Handler.AuthOk) token = Handler.AuthOk
    ∧ (Handler.handle (Some "https://project.supabase.co") (Some "anon")
                      (fun _ => Handler.AuthOk) (fun _ => Returned "[]") listRequest).2
      = [Handler.AuthCheck token;
         Handler.Run (Handler.FetchCalendars (serverUrl config) (username config)
                                             (password config))]
    ∧ Handler.wellFormed (Handler.FetchCalendars (serverUrl config) (username config)
                                                 (password config)) = true.
Proof.
  apply (handler_runs_for_authenticated_only
           (Some "https://project.supabase.co") (Some "anon")
           (fun _ => Handler.AuthOk) (fun _ => Returned "[]") listRequest).
  vm_compute. right. left. reflexivity.
Defined.

(** A calendar object without DTSTART. *)
Lemma undated_is_no_event : Decoder.parseICalEvent undated "#3b82f6" = None.
Proof. apply (decoder_needs_DTSTART undated "#3b82f6"). reflexivity. Defined.




(** The meeting of the encoder's test, created and deleted through the
    handler. *)
Lemma meeting_through_the_handler :
  ∃ body,
    Write.createCalDavEvent 540 now now "vividly-1" "vividly-2" config calendarUrl meeting
    = Some body
    ∧ let post requestData :=
        Handler.handle (Some "https://project.supabase.co") (Some "anon")
          (fun _ => Handler.AuthOk) (fun _ => Returned "{}")
          (Handler.mkHttpRequest "POST" (Some ("Bearer " +:+ "t0")) (Returned requestData)) in
      (post (Write.deleteCalDavEvent config calendarUrl "uid-123" None)).2
      = [Handler.AuthCheck "t0";
         Handler.Run (Handler.DeleteEvent (serverUrl config) (username config) (password config)
                                          calendarUrl "uid-123" None)]
      ∧ ∃ ics,
          Handler.q_eventData body = Some ics
          ∧ (post body).2
            = [Handler.AuthCheck "t0";
               Handler.Run (Handler.PutEvent (serverUrl config) (username config)
                              (password config) calendarUrl
                              (default "vividly-2" (JS.truthy (pe_caldavUid meeting)))
                              ics None)].
Proof.
  eexists. split; [vm_compute; reflexivity|].
  apply (handler_runs_what_the_client_builds
           (Some "https://project.supabase.co") (Some "anon")
           (fun _ => Handler.AuthOk) (fun _ => Returned "{}") "t0" config calendarUrl "uid-123"
           None 540 now now "vividly-1" "vividly-2" meeting).
  - by eexists.
  - by eexists.
  - reflexivity.
  - discriminate.
  - discriminate.
  - discriminate.
  - discriminate.
  - discriminate.
  - discriminate.
  - vm_compute. reflexivity.
Defined.

End MoreRuns.
